(** * Substance Designer MCP plugin: command gateway

    A shallow embedding of [src/plugin/__init__.py] (plugin v3.2.0) and the
    properties of its framed transport, value coercion, port validation,
    library resolver and batch graph builder. *)

From Stdlib Require Import ZArith String Ascii List Lia Bool Floats.
From stdpp Require Import gmap strings list pretty sorting.

(** ** Bytes *)

Abbreviation bytes := (list Byte.byte).

Definition byte_val (b : Byte.byte) : Z := Z.of_N (Byte.to_N b).

(** [struct.unpack(">I", header)[0]]: big-endian unsigned value. *)
Definition unpack_be (header : bytes) : Z :=
  fold_left (fun acc b => acc * 256 + byte_val b)%Z header 0%Z.

(** ** Framed transport *)

Module Transport.

Definition HEADER_SIZE : nat := 4.
Definition MAX_MSG_SIZE : Z := 100 * 1024 * 1024.

(** What the peer and the network do to a connected socket, in order.
    [Data bs]: [bs] becomes readable; [Stall]: nothing arrives before the
    socket timeout; the end of the list is the peer closing the connection. *)
Inductive sock_event :=
| Data (chunk : bytes)
| Stall.

Definition socket := list sock_event.

Inductive py_exn :=
| socket_timeout
| ValueError_too_large (msg_len : Z).

Inductive res (A : Type) :=
| Ok (a : A)
| Raise (e : py_exn).
Arguments Ok {A} a.
Arguments Raise {A} e.

(** [sock.recv(k)]: at most [k] of the readable bytes; the empty string once
    the peer has closed. *)
Definition recv (sock : socket) (k : nat) : res bytes * socket :=
  match sock with
  | [] => (Ok [], [])
  | Stall :: rest => (Raise socket_timeout, rest)
  | Data bs :: rest =>
      if (length bs <=? k)%nat then (Ok bs, rest)
      else (Ok (firstn k bs), Data (skipn k bs) :: rest)
  end.

(** The loop of [_recv_exact], entered with [buf] already read.  Each
    iteration either leaves the loop or uses up a socket event, except when
    a chunk is longer than what is still missing: the part taken then fills
    the buffer and the next test of the loop condition ends the loop. *)
Fixpoint _recv_exact_from (sock : socket) (n : nat) (buf : bytes)
  : res (option bytes) * socket :=
  if (n <=? length buf)%nat then (Ok (Some buf), sock)
  else
    match sock with
    | [] => (Ok None, [])
    | Stall :: rest => (Raise socket_timeout, rest)
    | Data bs :: rest =>
        match bs with
        | [] => (Ok None, rest)
        | _ :: _ =>
            if (length bs <=? n - length buf)%nat
            then _recv_exact_from rest n (buf ++ bs)
            else (Ok (Some (buf ++ firstn (n - length buf) bs)),
                  Data (skipn (n - length buf) bs) :: rest)
        end
    end.

Definition _recv_exact (sock : socket) (n : nat) : res (option bytes) * socket :=
  _recv_exact_from sock n [].

(** [not b] for a value that is [None] or a byte string. *)
Definition falsy (b : option bytes) : bool :=
  match b with
  | None | Some [] => true
  | Some (_ :: _) => false
  end.

Definition _recv_framed (sock : socket) : res (option bytes) * socket :=
  match _recv_exact sock HEADER_SIZE with
  | (Raise e, sock1) => (Raise e, sock1)
  | (Ok header, sock1) =>
      match header with
      | None | Some [] => (Ok None, sock1)
      | Some (h :: hs) =>
          let msg_len := unpack_be (h :: hs) in
          if (msg_len =? 0)%Z then (Ok None, sock1)
          else if (msg_len >? MAX_MSG_SIZE)%Z
          then (Raise (ValueError_too_large msg_len), sock1)
          else
            match _recv_exact sock1 (Z.to_nat msg_len) with
            | (Raise e, sock2) => (Raise e, sock2)
            | (Ok payload, sock2) =>
                if falsy payload then (Ok None, sock2) else (Ok payload, sock2)
            end
      end
  end.

(** What [_handle_client] did with one connection before closing it: either
    the payload went to [json.loads] and command execution, and then a
    framed response was written ([Some frame]) or nothing was ([None]); or
    the connection was closed with nothing parsed. *)
Inductive outcome :=
| Processed (payload : bytes) (written : option bytes)
| Dropped.

Definition pack_be (n : Z) : bytes :=
  map (fun i => match Byte.of_N (Z.to_N ((n / 256 ^ i) mod 256)) with
                | Some b => b
                | None => Byte.x00
                end) [3; 2; 1; 0]%Z.

Definition _send_framed (data : bytes) : bytes :=
  pack_be (Z.of_nat (length data)) ++ data.

Section HandleClient.

(** Decoding, dispatch and encoding of one request (lines 488-497): the bytes
    of the response for a payload, for malformed JSON the error response;
    [None] when an exception leaves [_execute_safe], as it does from its own
    [except] block for a JSON value that is no object. *)
Variable respond : bytes -> option bytes.

(** Whether [sock.sendall] accepts a frame; when it raises, the exception is
    logged by the outer [except] and the response is lost. *)
Variable sendall : bytes -> bool.

(** What is written for a payload that was parsed. *)
Definition reply (payload : bytes) : option bytes :=
  match respond payload with
  | Some data =>
      if sendall (_send_framed data) then Some (_send_framed data) else None
  | None => None
  end.

Definition _handle_client (sock : socket) : outcome :=
  match _recv_framed sock with
  | (Ok (Some payload), _) => Processed payload (reply payload)
  | (Ok None, _) => Dropped
  | (Raise _, _) => Dropped
  end.

End HandleClient.

(** The bytes a socket delivers before it stalls or the peer closes (an
    empty read is how a close shows). *)
Fixpoint delivered (sock : socket) : bytes :=
  match sock with
  | Data (b :: bs) :: rest => (b :: bs) ++ delivered rest
  | _ => []
  end.

(** The length the first four delivered bytes declare. *)
Definition declared (sock : socket) : Z :=
  unpack_be (firstn HEADER_SIZE (delivered sock)).

End Transport.

(** ** Python values and strings *)

(** A value decoded from JSON, or (last constructor) any other Python object,
    of which only its [str()] is known. *)
#[warnings="-register-all"] Inductive pyval :=
| PNone
| PBool (b : bool)
| PInt (n : Z)
| PFloat (f : float)
| PStr (s : string)
| PList (items : list pyval)
| PDict (entries : list (string * pyval))
| PObject (str_of_obj : string).

(** [d.get(key)] on the entries of a dict, in insertion order. *)
Fixpoint dict_get (d : list (string * pyval)) (key : string) : option pyval :=
  match d with
  | [] => None
  | (k, v) :: rest => if String.eqb k key then Some v else dict_get rest key
  end.

(** [str.lower()] on ASCII text. *)
Definition ascii_lower (c : ascii) : ascii :=
  let n := nat_of_ascii c in
  if (65 <=? n)%nat && (n <=? 90)%nat then ascii_of_nat (n + 32) else c.

Fixpoint lower (s : string) : string :=
  match s with
  | EmptyString => EmptyString
  | String c rest => String (ascii_lower c) (lower rest)
  end.

(** [sub in s] for strings. *)
Fixpoint str_contains (sub s : string) : bool :=
  String.prefix sub s ||
  match s with
  | EmptyString => false
  | String _ rest => str_contains sub rest
  end.

(** [s.startswith(p)]. *)
Definition startswith (s p : string) : bool := String.prefix p s.

(** [s.split("::")[-1]]: what follows the last ["::"] of [s]; [acc] is the
    text since the last separator seen. *)
Fixpoint split_last_from (s acc : string) : string :=
  match s with
  | EmptyString => acc
  | String c rest =>
      if String.prefix "::" s
      then match rest with
           | String _ rest' => split_last_from rest' EmptyString
           | EmptyString => acc
           end
      else split_last_from rest (acc +:+ String c EmptyString)
  end.

Definition split_last (s : string) : string := split_last_from s EmptyString.

(** [a or b] where both are a string or [None]. *)
Definition or_str (a b : option string) : option string :=
  match a with
  | Some (String _ _) => a
  | _ => b
  end.

(** [repr] of a list of strings, as ["{}".format(sorted(ids))] prints it,
    given [repr] of a string. *)
Definition repr_str_list (repr : string -> string) (l : list string) : string :=
  "[" +:+ String.concat ", " (map repr l) +:+ "]".

Definition str_le (a b : string) : Prop := String.leb a b = true.

#[global] Instance str_le_dec : RelDecision str_le.
Proof. intros a b. unfold str_le. apply _. Defined.

(** [sorted(ids)] for a set of strings: Python orders strings by code
    point, which on UTF-8 text is the order of the bytes. *)
Definition sorted (ids : gset string) : list string :=
  merge_sort str_le (elements ids).

(** ** Exceptions *)

Inductive exn_class :=
| ValueError
| RuntimeError
| TypeError
| IndexError
| AttributeError
| OverflowError
| OtherException.

Record exn := mk_exn { exn_cls : exn_class; exn_msg : string }.

#[global] Instance exn_class_eq_dec : EqDecision exn_class.
Proof. solve_decision. Defined.

Inductive result (A : Type) :=
| Ret (a : A)
| Exn (e : exn).
Arguments Ret {A} a.
Arguments Exn {A} e.

(** ** Value coercion *)

Module Coercion.

(** [isinstance(value, (list, tuple))] *)
Definition is_sequence (v : pyval) : bool :=
  match v with PList _ => true | _ => false end.

(** [isinstance(value, (int, float)) and not isinstance(value, bool)] *)
Definition is_plain_number (v : pyval) : bool :=
  match v with PInt _ | PFloat _ => true | _ => false end.

(** [t == s] for a type tag, which is whatever the envelope held. *)
Definition tag_is (t : pyval) (s : string) : bool :=
  match t with PStr s' => String.eqb s' s | _ => false end.

Definition _infer_type (value : pyval) : string :=
  match value with
  | PBool _ => "bool"
  | PInt _ => "float"
  | PFloat _ => "float"
  | PStr _ => "string"
  | PList items =>
      match length items with
      | 2 => "float2"
      | 3 => "float3"
      | 4 => "float4"
      | _ => "float"
      end
  | _ => "float"
  end.

Definition exact_primitive (tid : string) : option string :=
  if String.eqb tid "int" then Some "int"
  else if String.eqb tid "float" then Some "float"
  else if String.eqb tid "bool" then Some "bool"
  else if String.eqb tid "string" then Some "string"
  else if String.eqb tid "float2" then Some "float2"
  else if String.eqb tid "float3" then Some "float3"
  else if String.eqb tid "float4" then Some "float4"
  else if String.eqb tid "int2" then Some "int2"
  else if String.eqb tid "int3" then Some "int3"
  else if String.eqb tid "int4" then Some "int4"
  else if String.eqb tid "colorrgba" then Some "color"
  else if String.eqb tid "colorrgb" then Some "float3"
  else None.

Definition _coerce_type (inferred_type value : pyval) (sd_type_id : string) : pyval :=
  if String.eqb sd_type_id "" then inferred_type
  else
    let tid := lower sd_type_id in
    match exact_primitive tid with
    | Some t => PStr t
    | None =>
        if startswith tid "sbs::" || str_contains "::" tid then
          if tag_is inferred_type "float" && is_plain_number value
          then PStr "int"
          else inferred_type
        else if str_contains "int" tid && negb (str_contains "float" tid) then
          if tag_is inferred_type "float" then PStr "int"
          else if tag_is inferred_type "float4" && is_sequence value then PStr "int4"
          else if tag_is inferred_type "float2" && is_sequence value then PStr "int2"
          else inferred_type
        else inferred_type
    end.

End Coercion.

(** ** Response serialization *)

Module Json.

Definition sentinel_pos : float := 0x1.1ccf385ebc8ap+1023%float.
Definition sentinel_neg : float := (- 0x1.1ccf385ebc8ap+1023)%float.

Section Encoder.

(** [str(obj)], and the JSON text of a finite float and of a string
    literal, as CPython prints them. *)
Variable str_of : pyval -> string.
Variable float_repr : float -> string.
Variable encode_str : string -> string.

(** The [default=] hook given to [json.dumps]. *)
Definition _json_safe (obj : pyval) : pyval :=
  match obj with
  | PFloat f =>
      if negb (PrimFloat.eqb f f) then PNone
      else if PrimFloat.eqb f infinity then PFloat sentinel_pos
      else if PrimFloat.eqb f neg_infinity then PFloat sentinel_neg
      else PStr (str_of obj)
  | _ => PStr (str_of obj)
  end.

(** [json.encoder.floatstr] with [allow_nan=True], the default. *)
Definition floatstr (o : float) : string :=
  if negb (PrimFloat.eqb o o) then "NaN"
  else if PrimFloat.eqb o infinity then "Infinity"
  else if PrimFloat.eqb o neg_infinity then "-Infinity"
  else float_repr o.

(** What the encoder prints for a value it serializes itself and that has
    no parts. *)
Definition dumps_scalar (obj : pyval) : option string :=
  match obj with
  | PNone => Some "null"
  | PBool true => Some "true"
  | PBool false => Some "false"
  | PInt n => Some (pretty n)
  | PFloat f => Some (floatstr f)
  | PStr s => Some (encode_str s)
  | _ => None
  end.

(** [json.dumps(obj, default=default)]: the encoder serializes [None], bools,
    ints, floats, strings, lists and dicts itself and calls [default] only on
    an object of another type, then encodes what the hook returned ([None]
    here when that is again not serializable). *)
Fixpoint dumps (default : pyval -> pyval) (obj : pyval) : option string :=
  match obj with
  | PList items =>
      (fix go (l : list pyval) : option (list string) :=
         match l with
         | [] => Some []
         | x :: rest =>
             match dumps default x, go rest with
             | Some sx, Some srest => Some (sx :: srest)
             | _, _ => None
             end
         end) items
      ≫= fun parts => Some ("[" +:+ String.concat ", " parts +:+ "]")
  | PDict entries =>
      (fix go (l : list (string * pyval)) : option (list string) :=
         match l with
         | [] => Some []
         | (k, x) :: rest =>
             match dumps default x, go rest with
             | Some sx, Some srest => Some ((encode_str k +:+ ": " +:+ sx) :: srest)
             | _, _ => None
             end
         end) entries
      ≫= fun parts => Some ("{" +:+ String.concat ", " parts +:+ "}")
  | PObject _ => dumps_scalar (default obj)
  | _ => dumps_scalar obj
  end.

(** The text [_handle_client] sends:
    [json.dumps(response, default=_json_safe)]. *)
Definition dumps_response (response : pyval) : option string :=
  dumps _json_safe response.

End Encoder.

End Json.

(** ** The host's graph-editing API *)

(** Host objects are references; which object a reference names is the
    host's business. *)
Definition package := N.
Definition resource := N.
Definition node := N.
Definition property := N.
Definition connection := N.

Inductive category := Input | Output | Annotation.

(** The boxes of [sd.api.sdvalue*], built by their [sNew] constructors. *)
Inductive sdvalue :=
| SDValueFloat (f : float)
| SDValueInt (n : Z)
| SDValueBool (b : bool)
| SDValueString (s : string)
| SDValueFloat2 (x y : float)
| SDValueFloat3 (x y z : float)
| SDValueFloat4 (x y z w : float)
| SDValueColorRGBA (r g b a : float)
| SDValueInt2 (x y : Z)
| SDValueInt3 (x y z : Z)
| SDValueInt4 (x y z w : Z).

(** The calls the plugin makes on the host, indexed by what they return.
    [graph_getNodeDefinitionIds] is [graph.getNodeDefinitions()] with
    [getId()] taken of each definition, [prop_getTypeId] is [p.getType()]
    with [getId()] taken of the type (the empty string when there is no
    type), [node_getDefinitionId] is [node.getDefinition()] with its
    [getId()]: in the source each pair sits in one [try] block.  A call
    that returns a string or [None] returns the empty string for [None]
    where the source only tests the result for truth. *)
Inductive hcall : Type -> Type :=
| getPackages : hcall (list package)
| getUserPackages : hcall (list package)
| getCurrentGraph : hcall (option resource)
| openResourceInEditor (g : resource) : hcall unit
| pkg_getFilePath (p : package) : hcall string
| pkg_getChildrenResources (p : package) (recursive : bool) : hcall (list resource)
| pkg_findResourceFromUrl (p : package) (url : string) : hcall (option resource)
| res_getClassName (r : resource) : hcall string
| res_getIdentifier (r : resource) : hcall string
| res_getUrl (r : resource) : hcall string
| SDSBSCompGraph_sNew (p : package) : hcall resource
| graph_setIdentifier (g : resource) (name : string) : hcall unit
| graph_setInputPropertyValueFromId (g : resource) (pid : string) (v : sdvalue) : hcall unit
| graph_getNodeDefinitionIds (g : resource) : hcall (list string)
| graph_newNode (g : resource) (definition_id : string) : hcall (option node)
| graph_newInstanceNode (g : resource) (r : resource) : hcall (option node)
| node_getIdentifier (n : node) : hcall string
| node_getDefinitionId (n : node) : hcall (option string)
| node_setPosition (n : node) (x y : float) : hcall unit
| node_getProperties (n : node) (c : category) : hcall (list property)
| prop_getId (p : property) : hcall string
| prop_getTypeId (p : property) : hcall string
| node_setInputPropertyValueFromId (n : node) (pid : string) (v : sdvalue) : hcall unit
| node_setAnnotationPropertyValueFromId (n : node) (pid : string) (v : sdvalue) : hcall unit
| node_newPropertyConnectionFromId (n : node) (out : string) (to : node) (inp : string)
    : hcall (option connection).

Definition event : Type := { R : Type & hcall R }.

Definition ev {R} (c : hcall R) : event := existT R c.

(** A host: some state, and for each call what it answers (a value or an
    exception) and the state it is left in. *)
Class Host := {
  hstate : Type;
  host_step : forall R, hcall R -> hstate -> result R * hstate;
}.

(** The Python builtins whose results depend on text, on the platform or on
    floating point; [errmsg c v] is the message of the builtin exception of
    class [c] raised on operand [v], [repr_str] is [repr] of a string (its
    choice of quotes and its escapes) and [basename] is
    [os.path.basename]. *)
Class PyBuiltins := {
  float_of_int : Z -> result float;
  float_of_other : pyval -> result float;
  int_of_float : float -> result Z;
  int_of_other : pyval -> result Z;
  str_of : pyval -> string;
  errmsg : exn_class -> pyval -> string;
  repr_str : string -> string;
  basename : string -> string;
}.

(** The kinds of call the properties speak of. *)
Definition is_creation (e : event) : bool :=
  match projT2 e with
  | graph_newNode _ _ | graph_newInstanceNode _ _ => true
  | _ => false
  end.

Definition is_newNode_of (k : string) (e : event) : bool :=
  match projT2 e with
  | graph_newNode _ d => String.eqb d k
  | _ => false
  end.

Definition is_connect (e : event) : bool :=
  match projT2 e with
  | node_newPropertyConnectionFromId _ _ _ _ => true
  | _ => false
  end.

Definition is_search (e : event) : bool :=
  match projT2 e with
  | getPackages | pkg_getChildrenResources _ _ => true
  | _ => false
  end.

(** A write of property [pid] of node [n]. *)
Definition is_write_of (n : node) (pid : string) (e : event) : bool :=
  match projT2 e with
  | node_setInputPropertyValueFromId n' p _
  | node_setAnnotationPropertyValueFromId n' p _ => N.eqb n' n && String.eqb p pid
  | _ => false
  end.

Definition is_write (e : event) : bool :=
  match projT2 e with
  | node_setInputPropertyValueFromId _ _ _
  | node_setAnnotationPropertyValueFromId _ _ _ => true
  | _ => false
  end.

(** Mutation of the graph: creation, writes, moves and connections. *)
Definition is_mutation (e : event) : bool :=
  match projT2 e with
  | graph_newNode _ _ | graph_newInstanceNode _ _
  | node_setPosition _ _ _
  | node_setInputPropertyValueFromId _ _ _
  | node_setAnnotationPropertyValueFromId _ _ _
  | node_newPropertyConnectionFromId _ _ _ _
  | SDSBSCompGraph_sNew _ | graph_setIdentifier _ _
  | graph_setInputPropertyValueFromId _ _ _ => true
  | _ => false
  end.

(** A call that only reads. *)
Definition is_query (e : event) : Prop := is_mutation e = false.

(** A [newNode] is for the output kind, or for a kind of [known], or
    [known] is empty. *)
Definition checked_creation (known : list string) (e : event) : Prop :=
  match projT2 e with
  | graph_newNode _ d =>
      d = "sbs::compositing::output" \/ known = [] \/ d ∈ known
  | _ => True
  end.

(** What the node loop may call: no connection, and only checked
    creations. *)
Definition node_phase_event (known : list string) (e : event) : Prop :=
  is_connect e = false /\ checked_creation known e.

(** A call that is no connection. *)
Definition no_connect (e : event) : Prop := is_connect e = false.

(** What the connection loop may call: reads and connections. *)
Definition conn_phase_event (e : event) : Prop :=
  is_query e \/ is_connect e = true.

(** ** Static tables *)

Definition _SYSTEM_PARAMS : gset string :=
  {[ "$outputsize"; "$format"; "$pixelsize"; "$pixelratio";
     "$tiling"; "$randomseed"; "$time" ]}.

Record port_spec := { inputs : list string; outputs : list string }.

Definition one_in_one_out : port_spec :=
  {| inputs := ["input1"]; outputs := ["unique_filter_output"] |}.

Definition ATOMIC_PORTS : list (string * port_spec) :=
  [ ("sbs::compositing::blend",
     {| inputs := ["source"; "destination"; "opacity"];
        outputs := ["unique_filter_output"] |});
    ("sbs::compositing::levels", one_in_one_out);
    ("sbs::compositing::curve", one_in_one_out);
    ("sbs::compositing::hsl", one_in_one_out);
    ("sbs::compositing::blur", one_in_one_out);
    ("sbs::compositing::sharpen", one_in_one_out);
    ("sbs::compositing::warp",
     {| inputs := ["input1"; "inputgradient"];
        outputs := ["unique_filter_output"] |});
    ("sbs::compositing::directionalwarp",
     {| inputs := ["input1"; "inputintensity"];
        outputs := ["unique_filter_output"] |});
    ("sbs::compositing::normal", one_in_one_out);
    ("sbs::compositing::transformation", one_in_one_out);
    ("sbs::compositing::distance", one_in_one_out);
    ("sbs::compositing::grayscaleconversion", one_in_one_out);
    ("sbs::compositing::shuffle", one_in_one_out);
    ("sbs::compositing::emboss", one_in_one_out);
    ("sbs::compositing::passthrough", one_in_one_out);
    ("sbs::compositing::uniform",
     {| inputs := []; outputs := ["unique_filter_output"] |});
    ("sbs::compositing::output",
     {| inputs := ["inputNodeOutput"]; outputs := [] |});
    ("sbs::compositing::input_color",
     {| inputs := []; outputs := ["unique_filter_output"] |});
    ("sbs::compositing::input_grayscale",
     {| inputs := []; outputs := ["unique_filter_output"] |});
    ("sbs::compositing::gradient",
     {| inputs := ["input1"; "gradient"];
        outputs := ["unique_filter_output"] |});
    ("sbs::compositing::pixelprocessor", one_in_one_out);
    ("sbs::compositing::fxmaps", one_in_one_out) ].

(** [ATOMIC_PORTS[kind]] when [kind in ATOMIC_PORTS]. *)
Fixpoint static_ports_in (table : list (string * port_spec)) (kind : string)
  : option port_spec :=
  match table with
  | [] => None
  | (k, ps) :: rest => if String.eqb k kind then Some ps else static_ports_in rest kind
  end.

Definition static_ports (kind : string) : option port_spec :=
  static_ports_in ATOMIC_PORTS kind.

(** ** The command handler *)

Module Plugin.

Import Coercion.

Section WithHost.

Context `{Host} `{PyBuiltins}.

(** What a handler runs in: the host, the calls made on it so far (oldest
    first) and the handler's library cache [self._lib_url_cache]. *)
Record world := {
  w_host : hstate;
  w_trace : list event;
  w_cache : gmap string string;
}.

(** A computation that may call the host and may raise. *)
Definition M (A : Type) : Type := world -> result A * world.

Definition ret {A} (a : A) : M A := fun w => (Ret a, w).

Definition throw {A} (c : exn_class) (msg : string) : M A :=
  fun w => (Exn (mk_exn c msg), w).

Definition bind {A B} (m : M A) (k : A -> M B) : M B :=
  fun w =>
    match m w with
    | (Ret a, w') => k a w'
    | (Exn e, w') => (Exn e, w')
    end.

(** [try: m  except Exception as e: handler(e)] *)
Definition try_except {A} (m : M A) (handler : exn -> M A) : M A :=
  fun w =>
    match m w with
    | (Ret a, w') => (Ret a, w')
    | (Exn e, w') => handler e w'
    end.

Definition lift {A} (r : result A) : M A := fun w => (r, w).

Definition hostcall {R} (c : hcall R) : M R :=
  fun w =>
    let (r, h') := host_step R c (w_host w) in
    (r, {| w_host := h'; w_trace := w_trace w ++ [ev c]; w_cache := w_cache w |}).

Definition get_cache : M (gmap string string) := fun w => (Ret (w_cache w), w).

Definition cache_set (key url : string) : M unit :=
  fun w =>
    (Ret tt, {| w_host := w_host w; w_trace := w_trace w;
                w_cache := <[key := url]> (w_cache w) |}).

Notation "'let*' x ':=' m 'in' k" := (bind m (fun x => k))
  (at level 10, x pattern, m at level 100, k at level 200).

(** *** Builtins *)

Definition rbind {A B} (r : result A) (k : A -> result B) : result B :=
  match r with
  | Ret a => k a
  | Exn e => Exn e
  end.

(** [bool(v)] *)
Definition truthy (v : pyval) : bool :=
  match v with
  | PNone => false
  | PBool b => b
  | PInt n => negb (n =? 0)%Z
  | PFloat f => negb (PrimFloat.eqb f 0%float)
  | PStr s => negb (String.eqb s "")
  | PList items => match items with [] => false | _ => true end
  | PDict entries => match entries with [] => false | _ => true end
  | PObject _ => true
  end.

(** [float(v)] *)
Definition py_float (v : pyval) : result float :=
  match v with
  | PFloat f => Ret f
  | PBool b => Ret (if b then 1%float else 0%float)
  | PInt n => float_of_int n
  | _ => float_of_other v
  end.

(** [int(v)] *)
Definition py_int (v : pyval) : result Z :=
  match v with
  | PInt n => Ret n
  | PBool b => Ret (if b then 1%Z else 0%Z)
  | PFloat f => int_of_float f
  | _ => int_of_other v
  end.

(** [str(v)] *)
Definition py_str (v : pyval) : string :=
  match v with
  | PStr s => s
  | _ => str_of v
  end.

(** [v[i]] on a list *)
Definition py_index (v : list pyval) (i : nat) : result pyval :=
  match v !! i with
  | Some x => Ret x
  | None => Exn (mk_exn IndexError (errmsg IndexError (PList v)))
  end.

Definition float_at (v : list pyval) (i : nat) : result float :=
  rbind (py_index v i) py_float.

Definition int_at (v : list pyval) (i : nat) : result Z :=
  rbind (py_index v i) py_int.

(** [value if isinstance(value, (list, tuple)) else dflt] *)
Definition seq_or (value : pyval) (dflt : list pyval) : list pyval :=
  match value with
  | PList items => items
  | _ => dflt
  end.

Definition _make_sd_value (value_type value : pyval) : result sdvalue :=
  match value_type with
  | PStr vt =>
      let t := lower vt in
      if String.eqb t "float" then
        rbind (py_float value) (fun f => Ret (SDValueFloat f))
      else if String.eqb t "int" then
        rbind (py_int value) (fun n => Ret (SDValueInt n))
      else if String.eqb t "bool" then Ret (SDValueBool (truthy value))
      else if String.eqb t "string" then Ret (SDValueString (py_str value))
      else if String.eqb t "float2" then
        let v := seq_or value [value; value] in
        rbind (float_at v 0) (fun x =>
        rbind (float_at v 1) (fun y => Ret (SDValueFloat2 x y)))
      else if String.eqb t "float3" then
        let v := seq_or value [value; value; value] in
        rbind (float_at v 0) (fun x =>
        rbind (float_at v 1) (fun y =>
        rbind (float_at v 2) (fun z => Ret (SDValueFloat3 x y z))))
      else if String.eqb t "float4" then
        let v := seq_or value [value; value; value; value] in
        rbind (float_at v 0) (fun x =>
        rbind (float_at v 1) (fun y =>
        rbind (float_at v 2) (fun z =>
        rbind (float_at v 3) (fun w => Ret (SDValueFloat4 x y z w)))))
      else if String.eqb t "color" || String.eqb t "colorrgba" then
        let v := seq_or value [value; value; value; PFloat 1%float] in
        rbind (if (3 <? length v)%nat then float_at v 3 else Ret 1%float) (fun a =>
        rbind (float_at v 0) (fun r =>
        rbind (float_at v 1) (fun g =>
        rbind (float_at v 2) (fun b => Ret (SDValueColorRGBA r g b a)))))
      else if String.eqb t "int2" then
        let v := seq_or value [value; value] in
        rbind (int_at v 0) (fun x =>
        rbind (int_at v 1) (fun y => Ret (SDValueInt2 x y)))
      else if String.eqb t "int3" then
        let v := seq_or value [value; value; value] in
        rbind (int_at v 0) (fun x =>
        rbind (int_at v 1) (fun y =>
        rbind (int_at v 2) (fun z => Ret (SDValueInt3 x y z))))
      else if String.eqb t "int4" then
        let v := seq_or value [value; value; value; value] in
        rbind (int_at v 0) (fun x =>
        rbind (int_at v 1) (fun y =>
        rbind (int_at v 2) (fun z =>
        rbind (int_at v 3) (fun w => Ret (SDValueInt4 x y z w)))))
      else
        Exn (mk_exn ValueError
               ("Unknown value_type '" +:+ vt +:+ "'. Valid: float, int, bool, string, "
                +:+ "float2, float3, float4, color, int2, int3, int4"))
  | _ => Exn (mk_exn AttributeError (errmsg AttributeError value_type))
  end.

(** [_get_node_def_id] *)
Definition _get_node_def_id (n : node) : M string :=
  try_except
    (let* defn := hostcall (node_getDefinitionId n) in
     match defn with
     | Some id => ret id
     | None => ret "unknown"
     end)
    (fun _ => ret "unknown").

(** *** Library resolver *)

(** The loop over the children of a package: [Some url] when the function
    returns from inside the loop, [None] when the loop runs to its end. *)
Fixpoint scan_children (key : string) (children : list resource) : M (option string) :=
  match children with
  | [] => ret None
  | res :: rest =>
      let* found :=
        try_except
          (let* cname := hostcall (res_getClassName res) in
           if negb (str_contains "SDSBSCompGraph" cname) then ret None
           else
             let* rid := hostcall (res_getIdentifier res) in
             if str_contains key (lower rid) then
               let* url := try_except (hostcall (res_getUrl res)) (fun _ => ret "") in
               if negb (String.eqb url "") then
                 let* _ := cache_set key url in
                 let* _ := cache_set (lower rid) url in
                 ret (Some url)
               else ret None
             else ret None)
          (fun _ => ret None) in
      match found with
      | Some url => ret (Some url)
      | None => scan_children key rest
      end
  end.

(** The loop [for recursive in (True, False)]: the second mode is tried only
    when the first raised or listed nothing. *)
Fixpoint scan_modes (key : string) (pkg : package) (modes : list bool)
  : M (option string) :=
  match modes with
  | [] => ret None
  | recursive :: rest =>
      let* step :=
        try_except
          (let* children := hostcall (pkg_getChildrenResources pkg recursive) in
           match children with
           | [] => ret None
           | _ :: _ =>
               let* found := scan_children key children in
               ret (Some found)
           end)
          (fun _ => ret None) in
      match step with
      | Some found => ret found
      | None => scan_modes key pkg rest
      end
  end.

Fixpoint scan_packages (key : string) (pkgs : list package) : M (option string) :=
  match pkgs with
  | [] => ret None
  | pkg :: rest =>
      let* found :=
        try_except
          (let* fp := hostcall (pkg_getFilePath pkg) in
           if String.eqb fp "" then ret None
           else scan_modes key pkg [true; false])
          (fun _ => ret None) in
      match found with
      | Some url => ret (Some url)
      | None => scan_packages key rest
      end
  end.

Definition _resolve_lib_url (keyword : string) : M (option string) :=
  let key := lower keyword in
  let* cache := get_cache in
  match cache !! key with
  | Some url => ret (Some url)
  | None =>
      let* pkgs := hostcall getPackages in
      scan_packages key pkgs
  end.

(** The loop that looks a resource URL up in every package. *)
Fixpoint find_resource (url : string) (pkgs : list package) : M (option resource) :=
  match pkgs with
  | [] => ret None
  | pkg :: rest =>
      let* r := try_except (hostcall (pkg_findResourceFromUrl pkg url))
                           (fun _ => ret None) in
      match r with
      | Some res => ret (Some res)
      | None => find_resource url rest
      end
  end.

(** *** Library listing *)

Record library_entry := {
  le_identifier : string;
  le_url : string;
  le_package : string;
}.

(** The loop of [get_library_nodes] over the children of a package, with
    [results] as gathered so far; the flag tells that the loop was left by
    [break]. *)
Fixpoint list_children (filter_text : string) (limit : Z) (fp : string)
    (children : list resource) (results : list library_entry)
  : M (list library_entry * bool) :=
  match children with
  | [] => ret (results, false)
  | res :: rest =>
      let* step :=
        try_except
          (let* cname := hostcall (res_getClassName res) in
           if negb (str_contains "SDSBSCompGraph" cname) then ret (results, false)
           else
             let* rid := hostcall (res_getIdentifier res) in
             if negb (String.eqb filter_text "")
                && negb (str_contains (lower filter_text) (lower rid))
             then ret (results, false)
             else
               let* url := try_except (hostcall (res_getUrl res)) (fun _ => ret "") in
               if String.eqb url "" then ret (results, false)
               else
                 let* _ := cache_set (lower rid) url in
                 let results' := results ++ [{| le_identifier := rid; le_url := url;
                                                le_package := basename fp |}] in
                 ret (results', (limit <=? Z.of_nat (length results'))%Z))
          (fun _ => ret (results, false)) in
      let '(results', stop) := step in
      if stop then ret (results', true) else list_children filter_text limit fp rest results'
  end.

(** The loop [for recursive in (True, False)] of [get_library_nodes]: the
    first listing that is not empty. *)
Fixpoint pick_children (pkg : package) (modes : list bool) : M (list resource) :=
  match modes with
  | [] => ret []
  | recursive :: rest =>
      let* c := try_except (hostcall (pkg_getChildrenResources pkg recursive))
                           (fun _ => ret []) in
      match c with
      | [] => pick_children pkg rest
      | _ :: _ => ret c
      end
  end.

(** The loop over the packages.  After [getFilePath] nothing in the body of
    the outer [try] can raise, so its handler always finds [results] as they
    were when the package was entered. *)
Fixpoint list_packages (filter_text : string) (limit : Z) (pkgs : list package)
    (results : list library_entry) : M (list library_entry) :=
  match pkgs with
  | [] => ret results
  | pkg :: rest =>
      let* step :=
        try_except
          (let* fp := hostcall (pkg_getFilePath pkg) in
           if String.eqb fp "" then ret (results, false)
           else
             let* children := pick_children pkg [true; false] in
             match children with
             | [] => ret (results, false)
             | _ :: _ =>
                 let* listed := list_children filter_text limit fp children results in
                 ret (listed.1, (limit <=? Z.of_nat (length listed.1))%Z)
             end)
          (fun _ => ret (results, false)) in
      let '(results', stop) := step in
      if stop then ret results' else list_packages filter_text limit rest results'
  end.

Record library_listing := {
  ll_count : nat;
  ll_nodes : list library_entry;
  ll_truncated : bool;
  ll_filter : string;
}.

Definition get_library_nodes (filter_text : string) (limit : Z) : M library_listing :=
  let* pkgs := hostcall getPackages in
  let* results := list_packages filter_text limit pkgs [] in
  ret {| ll_count := length results;
         ll_nodes := results;
         ll_truncated := (limit <=? Z.of_nat (length results))%Z;
         ll_filter := filter_text |}.

(** [_create_library_node(graph, keyword)], as the batch builders call it
    (no position). *)
Definition _create_library_node (graph : resource) (keyword : string) : M node :=
  let* url := _resolve_lib_url keyword in
  match url with
  | Some (String _ _ as u) =>
      let* pkgs := hostcall getPackages in
      let* resource := find_resource u pkgs in
      match resource with
      | None => throw ValueError ("Resource URL not found: " +:+ u)
      | Some r =>
          let* n := hostcall (graph_newInstanceNode graph r) in
          match n with
          | None => throw RuntimeError ("newInstanceNode failed for '" +:+ u +:+ "'.")
          | Some n => ret n
          end
      end
  | _ =>
      throw ValueError
        ("Library node '" +:+ keyword +:+ "' not found. "
         +:+ "Use get_library_nodes(filter_text='" +:+ keyword +:+ "') to verify.")
  end.

(** *** Parameters *)

(** The loop that fills a property type map; a [getId()] that raises ends
    the loop with what was recorded so far. *)
Fixpoint type_map_loop (props : list property) (m : gmap string string)
  : M (gmap string string) :=
  match props with
  | [] => ret m
  | p :: rest =>
      let* pid := try_except (let* i := hostcall (prop_getId p) in ret (Some i))
                             (fun _ => ret None) in
      match pid with
      | None => ret m
      | Some pid =>
          let* t := try_except (hostcall (prop_getTypeId p)) (fun _ => ret "") in
          type_map_loop rest (<[pid := t]> m)
      end
  end.

Definition build_type_map (n : node) (c : category) : M (gmap string string) :=
  let* props := try_except (hostcall (node_getProperties n c)) (fun _ => ret []) in
  type_map_loop props ∅.

(** [pval] and [ptype] of a parameter entry, before coercion. *)
Definition param_value_type (param_spec : pyval) : pyval * pyval :=
  match param_spec with
  | PDict d =>
      match dict_get d "value" with
      | Some pval =>
          (pval, match dict_get d "type" with
                 | Some t => t
                 | None => PStr (_infer_type pval)
                 end)
      | None => (param_spec, PStr (_infer_type param_spec))
      end
  | _ => (param_spec, PStr (_infer_type param_spec))
  end.

(** [input_type_map.get(param_id) or annot_type_map.get(param_id) or ""] *)
Definition lookup_type_id (input_type_map annot_type_map : gmap string string)
    (param_id : string) : string :=
  default "" (or_str (or_str (input_type_map !! param_id) (annot_type_map !! param_id))
                     (Some "")).

(** The value [_set_node_params] boxes for an entry. *)
Definition param_sd_value (input_type_map annot_type_map : gmap string string)
    (param_id : string) (param_spec : pyval) : result sdvalue :=
  let '(pval, ptype) := param_value_type param_spec in
  let sd_type_id := lookup_type_id input_type_map annot_type_map param_id in
  _make_sd_value (_coerce_type ptype pval sd_type_id) pval.

(** One turn of the loop over [params.items()]: the entry of [results]. *)
Definition set_one_param (n : node) (input_type_map annot_type_map : gmap string string)
    (param_id : string) (param_spec : pyval) : M string :=
  if startswith param_id "$" then ret "skipped_system"
  else
    try_except
      (let* sd_val := lift (param_sd_value input_type_map annot_type_map
                              param_id param_spec) in
       let* set_ok :=
         match input_type_map !! param_id with
         | Some _ =>
             try_except
               (let* _ := hostcall (node_setInputPropertyValueFromId n param_id sd_val) in
                ret true)
               (fun _ => ret false)
         | None => ret false
         end in
       let* set_ok :=
         if negb set_ok then
           match annot_type_map !! param_id with
           | Some _ =>
               try_except
                 (let* _ := hostcall
                              (node_setAnnotationPropertyValueFromId n param_id sd_val) in
                  ret true)
                 (fun _ => ret false)
           | None => ret set_ok
           end
         else ret set_ok in
       ret (if set_ok then "ok" else "skipped"))
      (fun e => ret ("error: " +:+ exn_msg e)).

Fixpoint set_params_loop (n : node) (input_type_map annot_type_map : gmap string string)
    (items : list (string * pyval)) (results : gmap string string)
  : M (gmap string string) :=
  match items with
  | [] => ret results
  | (param_id, param_spec) :: rest =>
      let* r := set_one_param n input_type_map annot_type_map param_id param_spec in
      set_params_loop n input_type_map annot_type_map rest (<[param_id := r]> results)
  end.

(** [params] is the dict as the list of its items, in insertion order. *)
Definition _set_node_params (n : node) (params : list (string * pyval))
  : M (gmap string string) :=
  match params with
  | [] => ret ∅
  | _ :: _ =>
      let* input_type_map := build_type_map n Input in
      let* annot_type_map := build_type_map n Annotation in
      set_params_loop n input_type_map annot_type_map params ∅
  end.

(** *** Connections *)

Fixpoint collect_ids (props : list property) (keep : string -> bool) (acc : gset string)
  : M (gset string) :=
  match props with
  | [] => ret acc
  | p :: rest =>
      let* pid := try_except (let* i := hostcall (prop_getId p) in ret (Some i))
                             (fun _ => ret None) in
      match pid with
      | None => ret acc
      | Some pid => collect_ids rest keep (if keep pid then {[pid]} ∪ acc else acc)
      end
  end.

(** The ids the live node declares in a category, as [_safe_connect] gathers
    them; nothing when the listing raises. *)
Definition live_ids (n : node) (c : category) (keep : string -> bool) : M (gset string) :=
  let* props := try_except (hostcall (node_getProperties n c)) (fun _ => ret []) in
  collect_ids props keep ∅.

Definition not_system (pid : string) : bool := negb (bool_decide (pid ∈ _SYSTEM_PARAMS)).

Definition port_error (dir port node_id : string) (ids : gset string) : string :=
  dir +:+ " port '" +:+ port +:+ "' not found on node '" +:+ node_id +:+ "'. "
  +:+ "Available: " +:+ repr_str_list repr_str (sorted ids).

Definition _safe_connect (graph : resource) (from_node : node) (from_out : string)
    (to_node : node) (to_in : string) : M bool :=
  let* out_ids := live_ids from_node Output (fun _ => true) in
  let* in_ids := live_ids to_node Input not_system in
  if negb (bool_decide (out_ids = ∅)) && negb (bool_decide (from_out ∈ out_ids)) then
    let* fid := hostcall (node_getIdentifier from_node) in
    throw ValueError (port_error "Output" from_out fid out_ids)
  else if negb (bool_decide (in_ids = ∅)) && negb (bool_decide (to_in ∈ in_ids)) then
    let* tid := hostcall (node_getIdentifier to_node) in
    throw ValueError (port_error "Input" to_in tid in_ids)
  else
    let* conn := hostcall (node_newPropertyConnectionFromId from_node from_out to_node to_in) in
    match conn with
    | Some _ => ret true
    | None =>
        let* fid := hostcall (node_getIdentifier from_node) in
        let* tid := hostcall (node_getIdentifier to_node) in
        throw RuntimeError
          ("Connection failed: " +:+ fid +:+ "." +:+ from_out +:+ " -> "
           +:+ tid +:+ "." +:+ to_in)
    end.

(** *** Graph and package resolution *)

Definition is_alpha (c : ascii) : bool :=
  let n := nat_of_ascii c in
  ((65 <=? n) && (n <=? 90) || (97 <=? n) && (n <=? 122))%nat.

Definition is_word_char (c : ascii) : bool :=
  let n := nat_of_ascii c in
  (is_alpha c || (48 <=? n) && (n <=? 57) || (n =? 95))%nat.

Fixpoint sub_non_word (s : string) : string :=
  match s with
  | EmptyString => EmptyString
  | String c rest => String (if is_word_char c then c else "_"%char) (sub_non_word rest)
  end.

Definition _sanitize_identifier (name : string) : string :=
  match name with
  | EmptyString => "MCP_Graph"
  | String _ _ =>
      match sub_non_word name with
      | EmptyString => "MCP_Graph"
      | String c rest as sanitized =>
          if is_alpha c then sanitized else "G_" +:+ sanitized
      end
  end.

Fixpoint find_package_by_path (path : string) (pkgs : list package) : M (option package) :=
  match pkgs with
  | [] => ret None
  | pkg :: rest =>
      let* fp := hostcall (pkg_getFilePath pkg) in
      if String.eqb fp path then ret (Some pkg) else find_package_by_path path rest
  end.

Definition _resolve_package (package_index : Z) (package_path : option string) : M package :=
  let* pkgs := hostcall getUserPackages in
  match package_path with
  | Some (String _ _ as path) =>
      let* r := find_package_by_path path pkgs in
      match r with
      | Some pkg => ret pkg
      | None => throw ValueError ("Package '" +:+ path +:+ "' not found.")
      end
  | _ =>
      match pkgs with
      | [] => throw ValueError "No user packages loaded. Open a .sbs file first."
      | _ :: _ =>
          if (package_index <? 0)%Z then
            throw ValueError ("package_index must be >= 0 (got " +:+ pretty package_index +:+ ").")
          else
            match pkgs !! Z.to_nat package_index with
            | Some pkg => ret pkg
            | None =>
                throw ValueError
                  ("Package index " +:+ pretty package_index +:+ " out of range (have "
                   +:+ pretty (length pkgs) +:+ ").")
            end
      end
  end.

(** The first resource of a list that passes a test; a test that raises
    counts as failed. *)
Fixpoint first_resource (test : resource -> M bool) (ress : list resource)
  : M (option resource) :=
  match ress with
  | [] => ret None
  | res :: rest =>
      let* hit := try_except (test res) (fun _ => ret false) in
      if hit then ret (Some res) else first_resource test rest
  end.

Fixpoint first_in_packages (test : resource -> M bool) (pkgs : list package)
  : M (option resource) :=
  match pkgs with
  | [] => ret None
  | pkg :: rest =>
      let* ress := hostcall (pkg_getChildrenResources pkg false) in
      let* r := first_resource test ress in
      match r with
      | Some g => ret (Some g)
      | None => first_in_packages test rest
      end
  end.

Definition _resolve_graph (graph_identifier : option string) : M resource :=
  match graph_identifier with
  | Some (String _ _ as gid) =>
      let* pkgs := hostcall getUserPackages in
      let* r := first_in_packages
                  (fun res => let* id := hostcall (res_getIdentifier res) in
                              ret (String.eqb id gid)) pkgs in
      match r with
      | Some g => ret g
      | None => throw ValueError ("Graph '" +:+ gid +:+ "' not found.")
      end
  | _ =>
      let* g := try_except (hostcall getCurrentGraph) (fun _ => ret None) in
      match g with
      | Some g => ret g
      | None =>
          let* pkgs := hostcall getUserPackages in
          let* r := first_in_packages
                      (fun res => let* cname := hostcall (res_getClassName res) in
                                  ret (str_contains "SDSBSCompGraph" cname)) pkgs in
          match r with
          | Some g => ret g
          | None =>
              throw ValueError
                "No graph available. Open a package/graph in SD, or pass graph_identifier."
          end
      end
  end.

(** *** Node creation *)

Record create_node_result := {
  cn_node_id : string;
  cn_definition : string;
  cn_position : list pyval;
}.

(** [node.setPosition(float2(float(pos[0]), float(pos[1])))] *)
Definition set_position (n : node) (pos : list pyval) : M unit :=
  let* x := lift (float_at pos 0) in
  let* y := lift (float_at pos 1) in
  hostcall (node_setPosition n x y).

Definition unknown_definition_msg (definition_id : string) : string :=
  "Unknown definition '" +:+ definition_id +:+ "'. "
  +:+ "Library nodes require create_instance_node with pkg:// URL.".

Definition create_node (definition_id : string) (graph_identifier : option string)
    (position : option (list pyval)) : M create_node_result :=
  let* graph := _resolve_graph graph_identifier in
  let* _ :=
    try_except
      (let* known := hostcall (graph_getNodeDefinitionIds graph) in
       if negb (bool_decide (definition_id ∈ known))
       then throw ValueError (unknown_definition_msg definition_id)
       else ret tt)
      (fun e => if decide (exn_cls e = ValueError) then lift (Exn e) else ret tt) in
  let* n := hostcall (graph_newNode graph definition_id) in
  match n with
  | None => throw RuntimeError ("newNode('" +:+ definition_id +:+ "') returned None.")
  | Some n =>
      let* _ := match position with
                | Some ((_ :: _ :: _) as pos) => set_position n pos
                | _ => ret tt
                end in
      let* node_id := hostcall (node_getIdentifier n) in
      let* defn := _get_node_def_id n in
      ret {| cn_node_id := node_id;
             cn_definition := defn;
             cn_position := match position with
                            | Some ((_ :: _) as pos) => pos
                            | _ => [PFloat 0%float; PFloat 0%float]
                            end |}
  end.

(** *** Batch graph builder *)

(** A node spec of a batch request or of a recipe: the keys the builders
    read, [None] for a key that is absent. *)
Record node_spec := {
  definition_id : option string;
  position : option (list pyval);
  parameters : option (list (string * pyval));
  id_alias : option string;
  alias : option string;
  usage : option string;
  label : option string;
  resource_url : option string;
  library_keyword : option string;
}.

(** A connection spec: the keys ["from"], ["from_alias"], ["to"],
    ["to_alias"], ["from_output"] and ["to_input"], each a string when
    present. *)
Record conn_spec := {
  c_from : option string;
  c_from_alias : option string;
  c_to : option string;
  c_to_alias : option string;
  c_from_output : option string;
  c_to_input : option string;
}.

(** An entry of [created]; [apply_recipe] records no ["definition"]. *)
Record created_entry := {
  ce_alias : string;
  ce_node_id : string;
  ce_definition : option string;
}.

Record failed_entry := {
  fe_alias : string;
  fe_error : string;
}.

(** An entry of [conn_results]: [{"error": .., "conn": conn}],
    [{"from": .., "to": .., "success": True}] or
    [{"from": .., "to": .., "success": False, "error": ..}]. *)
Inductive conn_result :=
| ConnUnresolved (error : string) (conn : conn_spec)
| ConnOk (fa ta : string)
| ConnFailed (fa ta : string) (error : string).

(** [c.get("success")] as a truth value. *)
Definition conn_success (c : conn_result) : bool :=
  match c with
  | ConnOk _ _ => true
  | _ => false
  end.

Record batch_state := {
  alias_map : gmap string (node * string);
  created : list created_entry;
  failed : list failed_entry;
}.

Definition empty_state : batch_state :=
  {| alias_map := ∅; created := []; failed := [] |}.

Definition spec_defn (spec : node_spec) : string :=
  default "sbs::compositing::uniform" (definition_id spec).

Definition is_true_str (o : option string) : bool :=
  match o with
  | Some (String _ _) => true
  | _ => false
  end.

(** The [while alias in alias_map] loop.  It leaves at the latest after as
    many turns as the map has keys, since the names it tries are all
    different. *)
Fixpoint dedup_loop (turns : nat) (amap : gmap string (node * string))
    (orig_alias : string) (counter : nat) (a : string) : string :=
  if bool_decide (is_Some (amap !! a)) then
    match turns with
    | O => a
    | S turns' =>
        dedup_loop turns' amap orig_alias (S counter)
                   (orig_alias +:+ "_" +:+ pretty (S counter))
    end
  else a.

(** The names that loop tries, in order. *)
Definition candidate (orig_alias : string) (k : nat) : string :=
  match k with
  | O => orig_alias
  | S _ => orig_alias +:+ "_" +:+ pretty k
  end.

Definition dedup_alias (amap : gmap string (node * string)) (orig_alias : string) : string :=
  dedup_loop (size amap) amap orig_alias 0 orig_alias.

(** The branches that create the node of a spec; [unknown_msg] is the text
    of the error for an unknown kind, which differs between the builders. *)
Definition create_spec_node (unknown_msg : string -> string) (graph : resource)
    (_known_defs : list string) (spec : node_spec) : M (option node) :=
  let defn_id := spec_defn spec in
  if String.eqb defn_id "sbs::compositing::output" then
    let lv := default "" (or_str (or_str (label spec) (usage spec)) (Some "output")) in
    let* n := hostcall (graph_newNode graph "sbs::compositing::output") in
    match n with
    | Some n' =>
        let* _ := try_except
                    (hostcall (node_setAnnotationPropertyValueFromId
                                 n' "label" (SDValueString lv)))
                    (fun _ => ret tt) in
        ret n
    | None => ret None
    end
  else if is_true_str (resource_url spec) then
    let res_url := default "" (resource_url spec) in
    let* pkgs := hostcall getPackages in
    let* resource := find_resource res_url pkgs in
    let* n := match resource with
              | Some r => hostcall (graph_newInstanceNode graph r)
              | None => ret None
              end in
    match n with
    | Some _ => ret n
    | None => throw ValueError ("Resource '" +:+ res_url +:+ "' not found.")
    end
  else if is_true_str (library_keyword spec) then
    let* n := _create_library_node graph (default "" (library_keyword spec)) in
    ret (Some n)
  else
    if match _known_defs with [] => false | _ => true end
       && negb (bool_decide (defn_id ∈ _known_defs))
    then throw ValueError (unknown_msg defn_id)
    else hostcall (graph_newNode graph defn_id).

(** The body of the [try] of a node spec up to [node.getIdentifier()]. *)
Definition spec_attempt (unknown_msg : string -> string) (none_msg : string -> string)
    (graph : resource) (_known_defs : list string) (spec : node_spec)
  : M (node * string) :=
  let* n := create_spec_node unknown_msg graph _known_defs spec in
  match n with
  | None => throw RuntimeError (none_msg (spec_defn spec))
  | Some n =>
      let* _ := set_position n (default [PInt 0; PInt 0] (position spec)) in
      let* _ := _set_node_params n (default [] (parameters spec)) in
      let* node_id := hostcall (node_getIdentifier n) in
      ret (n, node_id)
  end.

(** One turn of the node loop. [orig] is the alias the builder computed;
    [with_definition] tells the two builders apart: [create_batch_graph]
    asks the node for its definition ([actual_def]), [apply_recipe] does
    not. *)
Definition node_step (with_definition : bool) (unknown_msg none_msg : string -> string)
    (graph : resource) (_known_defs : list string) (orig : string) (st : batch_state)
    (spec : node_spec) : M batch_state :=
  try_except
    (let* made := spec_attempt unknown_msg none_msg graph _known_defs spec in
     let '(n, node_id) := made in
     let a := dedup_alias (alias_map st) orig in
     let* actual_def := if with_definition
                        then let* d := _get_node_def_id n in ret (Some d)
                        else ret None in
     ret {| alias_map := <[a := (n, node_id)]> (alias_map st);
            created := created st ++ [{| ce_alias := a; ce_node_id := node_id;
                                         ce_definition := actual_def |}];
            failed := failed st |})
    (fun e =>
       ret {| alias_map := alias_map st;
              created := created st;
              failed := failed st ++ [{| fe_alias := orig; fe_error := exn_msg e |}] |}).

Definition batch_alias (spec : node_spec) : string :=
  default "" (or_str (or_str (id_alias spec) (alias spec))
                     (Some (split_last (spec_defn spec)))).

Definition batch_unknown_msg (defn_id : string) : string :=
  "Unknown definition '" +:+ defn_id +:+ "'. "
  +:+ "Use library_keyword for library nodes.".

Definition batch_none_msg (defn_id : string) : string :=
  "newNode returned None for '" +:+ defn_id +:+ "'.".

Fixpoint batch_nodes (graph : resource) (_known_defs : list string)
    (st : batch_state) (nodes : list node_spec) : M batch_state :=
  match nodes with
  | [] => ret st
  | spec :: rest =>
      let* st' := node_step true batch_unknown_msg batch_none_msg graph _known_defs
                            (batch_alias spec) st spec in
      batch_nodes graph _known_defs st' rest
  end.

Definition show_opt (o : option string) : string := default "None" o.

(** [alias_map[a]] when [a in alias_map], for [a] a string or [None]. *)
Definition lookup_alias (amap : gmap string (node * string)) (a : option string)
  : option (string * (node * string)) :=
  match a with
  | Some name =>
      match amap !! name with
      | Some entry => Some (name, entry)
      | None => None
      end
  | None => None
  end.

(** One turn of the connection loop of [create_batch_graph]. *)
Definition batch_conn_step (graph : resource) (amap : gmap string (node * string))
    (conn : conn_spec) : M conn_result :=
  let fa := or_str (c_from conn) (c_from_alias conn) in
  let ta := or_str (c_to conn) (c_to_alias conn) in
  let fo := default "unique_filter_output" (c_from_output conn) in
  let ti := default "input1" (c_to_input conn) in
  match lookup_alias amap fa with
  | None => ret (ConnUnresolved ("from '" +:+ show_opt fa +:+ "' not found") conn)
  | Some (fa', (fn, _)) =>
      match lookup_alias amap ta with
      | None => ret (ConnUnresolved ("to '" +:+ show_opt ta +:+ "' not found") conn)
      | Some (ta', (tn, _)) =>
          try_except
            (let* _ := _safe_connect graph fn fo tn ti in ret (ConnOk fa' ta'))
            (fun e => ret (ConnFailed fa' ta' (exn_msg e)))
      end
  end.

Fixpoint conn_loop (step : conn_spec -> M conn_result) (conns : list conn_spec)
  : M (list conn_result) :=
  match conns with
  | [] => ret []
  | conn :: rest =>
      let* r := step conn in
      let* rs := conn_loop step rest in
      ret (r :: rs)
  end.

Definition count_ok (rs : list conn_result) : nat :=
  length (filter (fun c => conn_success c = true) rs).

Definition count_failed (rs : list conn_result) : nat :=
  length (filter (fun c => conn_success c = false) rs).

Record batch_result := {
  graph_identifier : string;
  requested_name : string;
  nodes_created : nat;
  nodes_failed : nat;
  connections_ok : nat;
  connections_failed : nat;
  node_map : gmap string string;
  nodes_report : list created_entry;
  failed_nodes : list failed_entry;
  connections_report : list conn_result;
}.

(** [{d.getId() for d in list(graph.getNodeDefinitions())}], the empty set
    when that raises. *)
Definition known_defs_or_empty (graph : resource) : M (list string) :=
  try_except (hostcall (graph_getNodeDefinitionIds graph)) (fun _ => ret []).

(** Lines 1708-1723 of [create_batch_graph], before the node loop: the new
    graph and the kinds it knows. *)
Definition batch_graph_setup (graph_name : string) (package_index : Z)
    (package_path : option string) (output_size_log2 : pyval)
  : M (resource * list string) :=
  let safe_name := _sanitize_identifier graph_name in
  let* pkg := _resolve_package package_index package_path in
  let* graph := hostcall (SDSBSCompGraph_sNew pkg) in
  let* _ := hostcall (graph_setIdentifier graph safe_name) in
  let* _ := try_except
              (let* w := lift (py_int output_size_log2) in
               let* h := lift (py_int output_size_log2) in
               hostcall (graph_setInputPropertyValueFromId graph "$outputsize"
                           (SDValueInt2 w h)))
              (fun _ => ret tt) in
  let* _known_defs := known_defs_or_empty graph in
  ret (graph, _known_defs).

Definition create_batch_graph (graph_name : string) (package_index : Z)
    (package_path : option string) (nodes : list node_spec)
    (connections : list conn_spec) (output_size_log2 : pyval)
    (open_in_editor : bool) : M batch_result :=
  let* opened := batch_graph_setup graph_name package_index package_path
                                   output_size_log2 in
  let '(graph, _known_defs) := opened in
  let* st := batch_nodes graph _known_defs empty_state nodes in
  let* conn_results := conn_loop (batch_conn_step graph (alias_map st)) connections in
  let* _ := if open_in_editor
            then try_except (hostcall (openResourceInEditor graph)) (fun _ => ret tt)
            else ret tt in
  let* gid := hostcall (res_getIdentifier graph) in
  ret {| graph_identifier := gid;
         requested_name := graph_name;
         nodes_created := length (created st);
         nodes_failed := length (failed st);
         connections_ok := count_ok conn_results;
         connections_failed := count_failed conn_results;
         node_map := snd <$> alias_map st;
         nodes_report := created st;
         failed_nodes := failed st;
         connections_report := conn_results |}.

(** *** Recipes: [apply_recipe] from line 1999 on, with [nodes] and [conns]
    the lists of the recipe after the position offset and the overrides
    have been applied to its copy. *)

Definition recipe_alias (spec : node_spec) : string :=
  default "" (or_str (id_alias spec) (Some (split_last (spec_defn spec)))).

Definition recipe_unknown_msg (defn_id : string) : string :=
  "Unknown definition '" +:+ defn_id +:+ "'.".

Definition recipe_none_msg (_ : string) : string := "newNode returned None.".

Fixpoint recipe_nodes (graph : resource) (_known_defs : list string)
    (st : batch_state) (nodes : list node_spec) : M batch_state :=
  match nodes with
  | [] => ret st
  | spec :: rest =>
      let* st' := node_step false recipe_unknown_msg recipe_none_msg graph _known_defs
                            (recipe_alias spec) st spec in
      recipe_nodes graph _known_defs st' rest
  end.

Definition recipe_conn_step (graph : resource) (amap : gmap string (node * string))
    (conn : conn_spec) : M conn_result :=
  let fa := or_str (c_from conn) (c_from_alias conn) in
  let ta := or_str (c_to conn) (c_to_alias conn) in
  let fo := default "unique_filter_output" (c_from_output conn) in
  let ti := default "input1" (c_to_input conn) in
  match lookup_alias amap fa, lookup_alias amap ta with
  | Some (fa', (fn, _)), Some (ta', (tn, _)) =>
      try_except
        (let* _ := _safe_connect graph fn fo tn ti in ret (ConnOk fa' ta'))
        (fun e => ret (ConnFailed fa' ta' (exn_msg e)))
  | _, _ => ret (ConnUnresolved "alias not found" conn)
  end.

Record recipe_result := {
  r_graph_identifier : string;
  r_recipe : string;
  r_nodes_added : nat;
  r_nodes_failed : nat;
  r_connections_ok : nat;
  r_connections_failed : nat;
  r_node_map : gmap string string;
}.

Definition apply_recipe (recipe_name : string) (graph_identifier : option string)
    (nodes : list node_spec) (conns : list conn_spec) : M recipe_result :=
  let* graph := _resolve_graph graph_identifier in
  let* _known_defs := known_defs_or_empty graph in
  let* st := recipe_nodes graph _known_defs empty_state nodes in
  let* conn_results := conn_loop (recipe_conn_step graph (alias_map st)) conns in
  let* gid := hostcall (res_getIdentifier graph) in
  ret {| r_graph_identifier := gid;
         r_recipe := recipe_name;
         r_nodes_added := length (created st);
         r_nodes_failed := length (failed st);
         r_connections_ok := count_ok conn_results;
         r_connections_failed := count_failed conn_results;
         r_node_map := snd <$> alias_map st |}.

(** *** Vocabulary of the properties *)

(** Whatever [m] adds to the trace satisfies [P]. *)
Definition emits {A} (P : event -> Prop) (m : M A) : Prop :=
  forall w r w', m w = (r, w') ->
    exists evs, w_trace w' = w_trace w ++ evs /\ Forall P evs.

(** [m] returns, whatever the host does. *)
Definition never_raises {A} (m : M A) : Prop :=
  forall w, exists a w', m w = (Ret a, w').

(** A call [_set_node_params n params] may make: a read, or a write to [n]
    of a property named by an entry of [params] that is no system parameter,
    with the value boxed from that entry. *)
Definition param_event (n : node) (params : list (string * pyval))
    (input_type_map annot_type_map : gmap string string) (e : event) : Prop :=
  match projT2 e with
  | node_setInputPropertyValueFromId n' pid v
  | node_setAnnotationPropertyValueFromId n' pid v =>
      n' = n /\ startswith pid "$" = false /\
      exists param_spec,
        In (pid, param_spec) params /\
        param_sd_value input_type_map annot_type_map pid param_spec = Ret v
  | _ => is_query e
  end.

(** An endpoint alias of a connection spec is not registered. *)
Definition unresolved (amap : gmap string (node * string)) (conn : conn_spec) : bool :=
  match lookup_alias amap (or_str (c_from conn) (c_from_alias conn)),
        lookup_alias amap (or_str (c_to conn) (c_to_alias conn)) with
  | Some _, Some _ => false
  | _, _ => true
  end.

(** The entry a connection spec gets: an error entry of its own when an
    endpoint alias is not registered, and otherwise a success or a failure
    under the two aliases of the spec. *)
Definition reported (amap : gmap string (node * string)) (conn : conn_spec)
    (r : conn_result) : Prop :=
  match lookup_alias amap (or_str (c_from conn) (c_from_alias conn)),
        lookup_alias amap (or_str (c_to conn) (c_to_alias conn)) with
  | Some (fa, _), Some (ta, _) =>
      r = ConnOk fa ta \/ exists error, r = ConnFailed fa ta error
  | _, _ => exists msg, r = ConnUnresolved msg conn
  end.

(** The search of the resolver ended on a match: the last two calls of the
    trace asked a resource for its identifier and for its URL, and the host
    answered [rid], which holds the key, and [url], which is not empty. *)
Definition matched (key : string) (w1 : world) (rid url : string) : Prop :=
  exists res h h' evs,
    host_step _ (res_getIdentifier res) h = (Ret rid, h')
    /\ host_step _ (res_getUrl res) h' = (Ret url, w_host w1)
    /\ w_trace w1 = evs ++ [ev (res_getIdentifier res); ev (res_getUrl res)]
    /\ str_contains key (lower rid) = true
    /\ url <> "".

(** What a search of the resolver leaves: nothing found and the cache as
    it was, or a match and the cache with the two new entries. *)
Definition search_outcome (key : string) (w : world) (r : result (option string))
    (w' : world) : Prop :=
  (r = Ret None /\ w_cache w' = w_cache w)
  \/ (exists url rid,
        r = Ret (Some url) /\ matched key w' rid url
        /\ w_cache w' = <[lower rid := url]> (<[key := url]> (w_cache w))).

(** The graph answers [getIdentifier()], in whatever state the host is. *)
Definition names_graph (g : resource) : Prop :=
  forall h, exists gid h', host_step string (res_getIdentifier g) h = (Ret gid, h').

(** A spec that takes the last branch of the builders: a named kind. *)
Definition named_kind (spec : node_spec) : bool :=
  negb (String.eqb (spec_defn spec) "sbs::compositing::output")
  && negb (is_true_str (resource_url spec))
  && negb (is_true_str (library_keyword spec)).

End WithHost.

End Plugin.

(** ** A sample host

    A small host on which the handlers can be run: one package holding a
    library graph and a user graph, nodes that take consecutive handles, and
    a fixed table of properties.  It answers every [newNode], whatever the
    kind asked for. *)

Module Sample.

Record studio := {
  s_defs : result (list string);   (* what listing the node definitions answers *)
  s_next : N;                      (* the handle of the next node *)
  s_kinds : list (N * string);     (* the nodes made so far, with their kind *)
}.

Fixpoint kind_of (kinds : list (N * string)) (n : node) : option string :=
  match kinds with
  | [] => None
  | (n', k) :: rest => if N.eqb n' n then Some k else kind_of rest n
  end.

(** The properties, by handle: identifier and type id. *)
Definition property_table : list (string * string) :=
  [ ("unique_filter_output", ""); ("input1", ""); ("count", "int");
    ("$outputsize", "int2"); ("extra", ""); ("opacity", "float");
    ("label", "string"); ("inputNodeOutput", ""); ("source", "");
    ("destination", "") ].

Definition props_of (kind : string) (c : category) : list property :=
  if String.eqb kind "sbs::compositing::blend" then
    match c with
    | Input => [8; 9; 5; 2; 3]
    | Output => [0; 4]
    | Annotation => [6]
    end%N
  else if String.eqb kind "sbs::compositing::output" then
    match c with
    | Input => [7; 3]
    | Output => []
    | Annotation => [6]
    end%N
  else
    match c with
    | Input => [1; 3]
    | Output => [0]
    | Annotation => [6]
    end%N.

Definition prop_ids (kind : string) (c : category) : list string :=
  omap (fun p => fst <$> property_table !! N.to_nat p) (props_of kind c).

Definition no_such (what : string) : exn :=
  mk_exn OtherException ("no such " +:+ what).

Definition library_url : string := "pkg:///wood_planks".

Definition add_node (s : studio) (kind : string) : result (option node) * studio :=
  (Ret (Some (s_next s)),
   {| s_defs := s_defs s; s_next := N.succ (s_next s);
      s_kinds := s_kinds s ++ [(s_next s, kind)] |}).

Definition studio_step (R : Type) (c : hcall R) (s : studio) : result R * studio :=
  match c in hcall R return result R * studio with
  | getPackages => (Ret [1%N], s)
  | getUserPackages => (Ret [1%N], s)
  | getCurrentGraph => (Ret (Some 11%N), s)
  | openResourceInEditor _ => (Ret tt, s)
  | pkg_getFilePath _ => (Ret "C:/library/materials.sbs", s)
  | pkg_getChildrenResources _ _ => (Ret [10%N; 11%N], s)
  | pkg_findResourceFromUrl _ url =>
      (Ret (if String.eqb url library_url then Some 10%N else None), s)
  | res_getClassName _ => (Ret "SDSBSCompGraph", s)
  | res_getIdentifier r =>
      (Ret (if N.eqb r 10 then "Wood_Planks"
            else if N.eqb r 11 then "Graph_A" else "New_Graph"), s)
  | res_getUrl r =>
      (if N.eqb r 10 then Ret library_url else Exn (no_such "url"), s)
  | SDSBSCompGraph_sNew _ => (Ret 12%N, s)
  | graph_setIdentifier _ _ => (Ret tt, s)
  | graph_setInputPropertyValueFromId _ _ _ => (Ret tt, s)
  | graph_getNodeDefinitionIds _ => (s_defs s, s)
  | graph_newNode _ d => add_node s d
  | graph_newInstanceNode _ _ => add_node s (library_url +:+ "?dependency=1")
  | node_getIdentifier n => (Ret (pretty n), s)
  | node_getDefinitionId n => (Ret (kind_of (s_kinds s) n), s)
  | node_setPosition _ _ _ => (Ret tt, s)
  | node_getProperties n c =>
      (match kind_of (s_kinds s) n with
       | Some k => Ret (props_of k c)
       | None => Exn (no_such "node")
       end, s)
  | prop_getId p =>
      (match property_table !! N.to_nat p with
       | Some (id, _) => Ret id
       | None => Exn (no_such "property")
       end, s)
  | prop_getTypeId p =>
      (match property_table !! N.to_nat p with
       | Some (_, t) => Ret t
       | None => Exn (no_such "property")
       end, s)
  | node_setInputPropertyValueFromId _ _ _ => (Ret tt, s)
  | node_setAnnotationPropertyValueFromId _ _ _ => (Ret tt, s)
  | node_newPropertyConnectionFromId n out to inp =>
      (match kind_of (s_kinds s) n, kind_of (s_kinds s) to with
       | Some kf, Some kt =>
           Ret (if bool_decide (out ∈ prop_ids kf Output)
                   && bool_decide (inp ∈ prop_ids kt Input)
                then Some 1%N else None)
       | _, _ => Exn (no_such "node")
       end, s)
  end.

#[global] Instance studio_host : Host :=
  {| hstate := studio; host_step := studio_step |}.

(** [float(n)] and [int(f)] through the binary64 format; text is taken as
    not numeric. *)
Definition sample_float_of_int (n : Z) : result float :=
  let f := SF2Prim (binary_normalize prec emax n 0 false) in
  if PrimFloat.is_infinity f
  then Exn (mk_exn OverflowError "int too large to convert to float")
  else Ret f.

Definition sample_int_of_float (f : float) : result Z :=
  match Prim2SF f with
  | S754_zero _ => Ret 0%Z
  | S754_finite s m e =>
      let a := if (0 <=? e)%Z then (Z.pos m * 2 ^ e)%Z else (Z.pos m / 2 ^ (- e))%Z in
      Ret (if s then (- a)%Z else a)
  | S754_infinity _ => Exn (mk_exn OverflowError "cannot convert float infinity to integer")
  | S754_nan => Exn (mk_exn ValueError "cannot convert float NaN to integer")
  end.

Definition sample_errmsg (c : exn_class) (v : pyval) : string :=
  match c with
  | IndexError => "list index out of range"
  | AttributeError => "object has no attribute 'lower'"
  | TypeError => "argument must be a string or a real number"
  | _ => "invalid literal"
  end.

Definition sample_other {A} (v : pyval) : result A :=
  match v with
  | PStr _ => Exn (mk_exn ValueError (sample_errmsg ValueError v))
  | _ => Exn (mk_exn TypeError (sample_errmsg TypeError v))
  end.

(** [repr] of a string on ASCII text: single quotes unless the text holds
    a single quote and no double quote; the quote in use and the backslash
    are escaped, and so are control characters. *)
Definition double_quote : ascii := ascii_of_nat 34.

Definition hex_digit (n : nat) : ascii :=
  if (n <? 10)%nat then ascii_of_nat (48 + n) else ascii_of_nat (87 + n).

Fixpoint repr_escape (q : ascii) (s : string) : string :=
  match s with
  | EmptyString => EmptyString
  | String c rest =>
      let n := nat_of_ascii c in
      (if Ascii.eqb c q || Ascii.eqb c "\"%char then String "\" (String c EmptyString)
       else if (n =? 9)%nat then "\t"
       else if (n =? 10)%nat then "\n"
       else if (n =? 13)%nat then "\r"
       else if (n <? 32)%nat || (n =? 127)%nat
            then "\x" +:+ String (hex_digit (n / 16)) (String (hex_digit (n mod 16)) EmptyString)
       else String c EmptyString)
      +:+ repr_escape q rest
  end.

Definition sample_repr_str (s : string) : string :=
  let q := if str_contains "'" s
              && negb (str_contains (String double_quote EmptyString) s)
           then double_quote else "'"%char in
  String q (repr_escape q s) +:+ String q EmptyString.

(** [os.path.basename] on paths written with [/]. *)
Fixpoint after_last_slash (s acc : string) : string :=
  match s with
  | EmptyString => acc
  | String c rest =>
      if Ascii.eqb c "/"%char then after_last_slash rest EmptyString
      else after_last_slash rest (acc +:+ String c EmptyString)
  end.

#[global] Instance sample_builtins : PyBuiltins :=
  {| float_of_int := sample_float_of_int;
     float_of_other := sample_other;
     int_of_float := sample_int_of_float;
     int_of_other := sample_other;
     str_of := fun v => match v with
                        | PNone => "None"
                        | PBool true => "True"
                        | PBool false => "False"
                        | PInt n => pretty n
                        | PStr s => s
                        | PObject s => s
                        | _ => "<value>"
                        end;
     errmsg := sample_errmsg;
     repr_str := sample_repr_str;
     basename := fun fp => after_last_slash fp EmptyString |}.

Import Plugin.

(** A fresh session on a host that lists [defs] as its node definitions. *)
Definition session (defs : result (list string)) : world :=
  {| w_host := {| s_defs := defs; s_next := 100; s_kinds := [] |};
     w_trace := [];
     w_cache := ∅ |}.

(** A session in which the nodes [kinds] exist already. *)
Definition session_with (defs : result (list string)) (kinds : list (N * string)) : world :=
  {| w_host := {| s_defs := defs; s_next := 100 + N.of_nat (length kinds);
                  s_kinds := kinds |};
     w_trace := [];
     w_cache := ∅ |}.

Definition atomic_defs : list string :=
  ["sbs::compositing::blend"; "sbs::compositing::uniform";
   "sbs::compositing::levels"; "sbs::compositing::output"].

(** A session with a blend node (100), a levels node (101) and an output
    node (102). *)
Definition three_nodes : world :=
  session_with (Ret atomic_defs)
    [(100%N, "sbs::compositing::blend"); (101%N, "sbs::compositing::levels");
     (102%N, "sbs::compositing::output")].

Definition plain_spec (kind : string) (name : option string) : node_spec :=
  {| definition_id := Some kind; position := None; parameters := None;
     id_alias := name; alias := None; usage := None; label := None;
     resource_url := None; library_keyword := None |}.

Definition wire (a b : string) : conn_spec :=
  {| c_from := Some a; c_from_alias := None; c_to := Some b; c_to_alias := None;
     c_from_output := None; c_to_input := None |}.

End Sample.

(** ** A sample library

    A host without state whose one package lists two library graphs, the
    identifier of the second being a part of the identifier of the first. *)

Module SampleLibrary.

Import Plugin.

Definition shelf_step (R : Type) (c : hcall R) (s : unit) : result R * unit :=
  match c in hcall R return result R * unit with
  | getPackages => (Ret [1%N], s)
  | getUserPackages => (Ret [], s)
  | getCurrentGraph => (Ret None, s)
  | openResourceInEditor _ => (Ret tt, s)
  | pkg_getFilePath _ => (Ret "C:/library/blurs.sbs", s)
  | pkg_getChildrenResources _ _ => (Ret [20%N; 21%N], s)
  | pkg_findResourceFromUrl _ _ => (Ret None, s)
  | res_getClassName _ => (Ret "SDSBSCompGraph", s)
  | res_getIdentifier r =>
      (Ret (if N.eqb r 20 then "blur_hq_grayscale" else "blur_hq"), s)
  | res_getUrl r =>
      (Ret (if N.eqb r 20 then "pkg:///blur_hq_grayscale" else "pkg:///blur_hq"), s)
  | SDSBSCompGraph_sNew _ => (Ret 12%N, s)
  | graph_setIdentifier _ _ => (Ret tt, s)
  | graph_setInputPropertyValueFromId _ _ _ => (Ret tt, s)
  | graph_getNodeDefinitionIds _ => (Ret [], s)
  | graph_newNode _ _ => (Ret None, s)
  | graph_newInstanceNode _ _ => (Ret None, s)
  | node_getIdentifier _ => (Exn (Sample.no_such "node"), s)
  | node_getDefinitionId _ => (Exn (Sample.no_such "node"), s)
  | node_setPosition _ _ _ => (Exn (Sample.no_such "node"), s)
  | node_getProperties _ _ => (Exn (Sample.no_such "node"), s)
  | prop_getId _ => (Exn (Sample.no_such "property"), s)
  | prop_getTypeId _ => (Exn (Sample.no_such "property"), s)
  | node_setInputPropertyValueFromId _ _ _ => (Exn (Sample.no_such "node"), s)
  | node_setAnnotationPropertyValueFromId _ _ _ => (Exn (Sample.no_such "node"), s)
  | node_newPropertyConnectionFromId _ _ _ _ => (Exn (Sample.no_such "node"), s)
  end.

Definition shelf_host : Host := {| hstate := unit; host_step := shelf_step |}.

(** A fresh session on that host. *)
Definition shelf_session : @world shelf_host :=
  @Build_world shelf_host tt [] ∅.

(** A keyword resolved, the library listed, the keyword resolved again: the
    two URLs. *)
Definition resolve_list_resolve (keyword : string)
  : @M shelf_host (option string * option string) :=
  bind (H := shelf_host) (_resolve_lib_url (H := shelf_host) keyword) (fun first =>
  bind (H := shelf_host) (get_library_nodes (H := shelf_host) "" 200) (fun _ =>
  bind (H := shelf_host) (_resolve_lib_url (H := shelf_host) keyword) (fun second =>
  ret (H := shelf_host) (first, second)))).

End SampleLibrary.


(** ** Further handlers and vocabulary *)

Module Handlers.

Import Coercion Plugin.

(** The name of the type an [sdvalue] box holds. *)
Definition sd_kind (v : sdvalue) : string :=
  match v with
  | SDValueFloat _ => "float"
  | SDValueInt _ => "int"
  | SDValueBool _ => "bool"
  | SDValueString _ => "string"
  | SDValueFloat2 _ _ => "float2"
  | SDValueFloat3 _ _ _ => "float3"
  | SDValueFloat4 _ _ _ _ => "float4"
  | SDValueColorRGBA _ _ _ _ => "color"
  | SDValueInt2 _ _ => "int2"
  | SDValueInt3 _ _ _ => "int3"
  | SDValueInt4 _ _ _ _ => "int4"
  end.

(** The type names [_make_sd_value] knows, after lower-casing. *)
Definition value_types : list string :=
  ["float"; "int"; "bool"; "string"; "float2"; "float3"; "float4";
   "color"; "colorrgba"; "int2"; "int3"; "int4"].

Fixpoint all_chars (p : ascii -> bool) (s : string) : bool :=
  match s with
  | EmptyString => true
  | String c rest => p c && all_chars p rest
  end.

(** A letter followed by letters, digits and underscores. *)
Definition is_identifier (s : string) : bool :=
  match s with
  | EmptyString => false
  | String c rest => is_alpha c && all_chars is_word_char rest
  end.

Definition is_getCurrentGraph (e : event) : bool :=
  match projT2 e with
  | getCurrentGraph => true
  | _ => false
  end.

(** A call [create_output_node] may make: a read, the creation of an output
    node, a move, or the write of the label. *)
Definition output_node_event (lbl : string) (e : event) : Prop :=
  match projT2 e with
  | graph_newNode _ d => d = "sbs::compositing::output"
  | node_setPosition _ _ _ => True
  | node_setAnnotationPropertyValueFromId _ pid v =>
      pid = "label" /\ v = SDValueString lbl
  | _ => is_query e
  end.

(** A call [create_instance_node] may make: a read, the creation of an
    instance node, or a move. *)
Definition instance_node_event (e : event) : Prop :=
  match projT2 e with
  | graph_newInstanceNode _ _ => True
  | node_setPosition _ _ _ => True
  | _ => is_query e
  end.

(** What the node loop keeps true of its state. *)
Definition tallies (st : batch_state) : Prop :=
  length (created st) = size (alias_map st)
  /\ NoDup (ce_alias <$> created st)
  /\ Forall (fun e => (snd <$> alias_map st) !! ce_alias e = Some (ce_node_id e))
            (created st)
  /\ forall a, is_Some (alias_map st !! a) -> a ∈ ce_alias <$> created st.

Section WithHost.

Context `{Host} `{PyBuiltins}.

Local Notation "'let*' x ':=' m 'in' k" := (bind m (fun x => k))
  (at level 10, x pattern, m at level 100, k at level 200).

Record instance_node_result := {
  in_node_id : string;
  in_resource_url : string;
  in_position : list pyval;
}.

Definition create_instance_node (resource_url : string)
    (graph_identifier : option string) (position : option (list pyval))
  : M instance_node_result :=
  let* graph := _resolve_graph graph_identifier in
  let* pkgs := hostcall getPackages in
  let* resource := find_resource resource_url pkgs in
  match resource with
  | None => throw ValueError ("Resource '" +:+ resource_url +:+ "' not found.")
  | Some r =>
      let* n := hostcall (graph_newInstanceNode graph r) in
      match n with
      | None =>
          throw RuntimeError ("newInstanceNode failed for '" +:+ resource_url +:+ "'.")
      | Some n =>
          let* _ := match position with
                    | Some ((_ :: _ :: _) as pos) => set_position n pos
                    | _ => ret tt
                    end in
          let* node_id := hostcall (node_getIdentifier n) in
          ret {| in_node_id := node_id;
                 in_resource_url := resource_url;
                 in_position := match position with
                                | Some ((_ :: _) as pos) => pos
                                | _ => [PFloat 0%float; PFloat 0%float]
                                end |}
      end
  end.

Record output_node_result := {
  on_node_id : string;
  on_definition : string;
  on_usage : string;
  on_label : string;
  on_label_set : bool;
}.

(** [usage] is the argument or its default ["baseColor"]; [label] is [None]
    when the argument is not given. *)
Definition create_output_node (usage : string) (label : option string)
    (graph_identifier : option string) (position : option (list pyval))
  : M output_node_result :=
  let lbl := default usage label in
  let* graph := _resolve_graph graph_identifier in
  let* n := hostcall (graph_newNode graph "sbs::compositing::output") in
  match n with
  | None => throw RuntimeError "Failed to create output node."
  | Some n =>
      let* _ := match position with
                | Some ((_ :: _ :: _) as pos) => set_position n pos
                | _ => ret tt
                end in
      let* label_set :=
        try_except
          (let* _ := hostcall (node_setAnnotationPropertyValueFromId
                                 n "label" (SDValueString lbl)) in
           ret true)
          (fun _ => ret false) in
      let* node_id := hostcall (node_getIdentifier n) in
      ret {| on_node_id := node_id;
             on_definition := "sbs::compositing::output";
             on_usage := usage;
             on_label := lbl;
             on_label_set := label_set |}
  end.

End WithHost.

End Handlers.

(** * Properties *)

(** ** Framed transport *)

Module TransportFacts.

Import Transport.

Lemma byte_val_range b : (0 <= byte_val b < 256)%Z.
Proof.
  unfold byte_val. pose proof (Byte.to_N_bounded b). lia.
Qed.

Lemma unpack_be_from_nonneg (l : bytes) (acc : Z) :
  (0 <= acc)%Z ->
  (0 <= fold_left (fun a b => a * 256 + byte_val b) l acc)%Z.
Proof.
  revert acc. induction l as [|b l IH]; intros acc Hacc; simpl; [done|].
  apply IH. pose proof (byte_val_range b). lia.
Qed.

Lemma unpack_be_nonneg (l : bytes) : (0 <= unpack_be l)%Z.
Proof. apply unpack_be_from_nonneg. lia. Qed.

(** The loop of [_recv_exact] written with [recv], as in the source: one
    turn reads at most what is missing and stops on an empty read. *)
Lemma _recv_exact_from_unfold sock n buf :
  _recv_exact_from sock n buf =
  if (n <=? length buf)%nat then (Ok (Some buf), sock)
  else
    match recv sock (n - length buf) with
    | (Raise e, sock') => (Raise e, sock')
    | (Ok [], sock') => (Ok None, sock')
    | (Ok (c :: cs), sock') => _recv_exact_from sock' n (buf ++ c :: cs)
    end.
Proof.
  destruct sock as [|[bs|] rest]; simpl.
  - by destruct (n <=? length buf)%nat.
  - destruct (n <=? length buf)%nat eqn:Hn; [done|].
    apply Nat.leb_gt in Hn.
    destruct bs as [|b bs]; [done|].
    destruct (length (b :: bs) <=? n - length buf)%nat eqn:Hk; [done|].
    apply Nat.leb_gt in Hk.
    destruct (firstn (n - length buf) (b :: bs)) as [|c cs] eqn:Hf.
    { apply (f_equal length) in Hf. rewrite length_firstn in Hf. simpl in *. lia. }
    rewrite <- Hf.
    assert (Hlen : (n <=? length (buf ++ firstn (n - length buf) (b :: bs)))%nat = true).
    { apply Nat.leb_le. rewrite length_app, length_firstn. simpl in *. lia. }
    destruct (skipn (n - length buf) (b :: bs)) eqn:Hs; simpl; by rewrite Hlen.
  - by destruct (n <=? length buf)%nat.
Qed.

(** Enough delivered bytes: the loop returns exactly the missing ones. *)
Lemma recv_from_enough sock : forall n buf,
  (length buf <= n)%nat ->
  (n <= length buf + length (delivered sock))%nat ->
  exists sock',
    _recv_exact_from sock n buf
      = (Ok (Some (buf ++ firstn (n - length buf) (delivered sock))), sock')
    /\ delivered sock' = skipn (n - length buf) (delivered sock).
Proof.
  induction sock as [|[bs|] rest IH]; intros n buf Hb Hn.
  - simpl in *. assert (n = length buf) as -> by lia.
    rewrite Nat.leb_refl. exists []. rewrite firstn_nil, app_nil_r, skipn_nil. done.
  - cbn [_recv_exact_from].
    destruct (n <=? length buf)%nat eqn:Hle.
    + apply Nat.leb_le in Hle. assert (n = length buf) as -> by lia.
      rewrite Nat.sub_diag. rewrite firstn_O, app_nil_r. by eexists.
    + apply Nat.leb_gt in Hle.
      destruct bs as [|b bs]; [simpl in Hn; lia|].
      cbn [delivered] in *. rewrite length_app in Hn.
      assert (Hne : (0 < length (b :: bs))%nat) by (simpl; lia).
      generalize dependent (b :: bs). intros chunk Hn Hne.
      destruct (length chunk <=? n - length buf)%nat eqn:Hk.
      * apply Nat.leb_le in Hk.
        destruct (IH n (buf ++ chunk)) as (sock' & Heq & Hd).
        { rewrite length_app. lia. }
        { rewrite length_app. lia. }
        exists sock'. rewrite Heq. split.
        -- f_equal. f_equal. rewrite <- app_assoc. f_equal.
           rewrite length_app.
           rewrite firstn_app.
           rewrite (firstn_all2 chunk) by lia.
           by rewrite Nat.sub_add_distr.
        -- rewrite Hd. rewrite length_app.
           rewrite skipn_app. rewrite (skipn_all2 chunk) by lia.
           by rewrite Nat.sub_add_distr.
      * apply Nat.leb_gt in Hk.
        exists (Data (skipn (n - length buf) chunk) :: rest).
        rewrite firstn_app, skipn_app.
        assert (n - length buf - length chunk = 0)%nat as -> by lia.
        rewrite firstn_O, app_nil_r, skipn_O. split; [done|].
        destruct (skipn (n - length buf) chunk) eqn:Hs; [|done].
        apply (f_equal length) in Hs. rewrite length_skipn in Hs. simpl in Hs. lia.
  - simpl in *. assert (n = length buf) as -> by lia.
    rewrite Nat.leb_refl, Nat.sub_diag. simpl. rewrite app_nil_r. by eexists.
Qed.

(** Too few delivered bytes: the loop never returns a buffer. *)
Lemma recv_from_short sock : forall n buf r sock',
  (length buf + length (delivered sock) < n)%nat ->
  _recv_exact_from sock n buf = (r, sock') ->
  r = Ok None \/ r = Raise socket_timeout.
Proof.
  induction sock as [|[bs|] rest IH]; intros n buf r sock' Hn Heq;
    cbn [_recv_exact_from] in Heq;
    (destruct (n <=? length buf)%nat eqn:Hle; [apply Nat.leb_le in Hle; lia|]).
  - left. congruence.
  - destruct bs as [|b bs]; [left; congruence|].
    cbn [delivered] in Hn. rewrite length_app in Hn.
    destruct (length (b :: bs) <=? n - length buf)%nat eqn:Hk.
    + eapply IH; [|exact Heq]. rewrite length_app. lia.
    + apply Nat.leb_gt in Hk. lia.
  - right. congruence.
Qed.

Lemma recv_exact_enough sock n :
  (n <= length (delivered sock))%nat ->
  exists sock',
    _recv_exact sock n = (Ok (Some (firstn n (delivered sock))), sock')
    /\ delivered sock' = skipn n (delivered sock).
Proof.
  intros Hn. unfold _recv_exact.
  destruct (recv_from_enough sock n []) as (sock' & Heq & Hd);
    [simpl; lia | simpl; lia |].
  simpl in Heq, Hd. rewrite Nat.sub_0_r in Heq, Hd. eauto.
Qed.

Lemma recv_exact_short sock n r sock' :
  (length (delivered sock) < n)%nat ->
  _recv_exact sock n = (r, sock') ->
  r = Ok None \/ r = Raise socket_timeout.
Proof.
  intros Hn. unfold _recv_exact. apply recv_from_short. simpl. lia.
Qed.

Lemma firstn_nonempty {A} (n : nat) (l : list A) :
  (0 < n)%nat -> (0 < length l)%nat -> exists x xs, firstn n l = x :: xs.
Proof.
  intros Hn Hl. destruct n; [lia|]. destruct l; [simpl in Hl; lia|].
  simpl. eauto.
Qed.

(** What [_recv_framed] returns, by what the socket delivers. *)
Lemma _recv_framed_complete sock :
  (HEADER_SIZE <= length (delivered sock))%nat ->
  (0 < declared sock <= MAX_MSG_SIZE)%Z ->
  (Z.of_nat HEADER_SIZE + declared sock <= Z.of_nat (length (delivered sock)))%Z ->
  exists sock',
    _recv_framed sock
    = (Ok (Some (firstn (Z.to_nat (declared sock))
                        (skipn HEADER_SIZE (delivered sock)))), sock').
Proof.
  intros Hh Hd Hlen. unfold _recv_framed.
  destruct (recv_exact_enough sock HEADER_SIZE Hh) as (sock1 & -> & Hd1).
  destruct (firstn_nonempty HEADER_SIZE (delivered sock)) as (h & hs & Hf);
    [unfold HEADER_SIZE; lia | unfold HEADER_SIZE in Hh; lia |].
  rewrite Hf.
  assert (unpack_be (h :: hs) = declared sock) as -> by (unfold declared; by rewrite Hf).
  destruct (declared sock =? 0)%Z eqn:H0; [lia|].
  destruct (declared sock >? MAX_MSG_SIZE)%Z eqn:Hmax; [lia|].
  destruct (recv_exact_enough sock1 (Z.to_nat (declared sock)))
    as (sock2 & -> & Hd2).
  { rewrite Hd1, length_skipn. lia. }
  rewrite Hd1.
  destruct (firstn_nonempty (Z.to_nat (declared sock))
              (skipn HEADER_SIZE (delivered sock))) as (p & ps & Hp);
    [lia | rewrite length_skipn; lia |].
  rewrite Hp. simpl. by eexists.
Qed.

Lemma _recv_framed_sound sock payload sock' :
  _recv_framed sock = (Ok (Some payload), sock') ->
  (HEADER_SIZE <= length (delivered sock))%nat /\
  (0 < declared sock <= MAX_MSG_SIZE)%Z /\
  (Z.of_nat HEADER_SIZE + declared sock <= Z.of_nat (length (delivered sock)))%Z /\
  payload = firstn (Z.to_nat (declared sock)) (skipn HEADER_SIZE (delivered sock)).
Proof.
  intros Hrf. unfold _recv_framed in Hrf.
  destruct (le_lt_dec HEADER_SIZE (length (delivered sock))) as [Hh|Hh]; last first.
  { exfalso.
    destruct (_recv_exact sock HEADER_SIZE) as [r sock1] eqn:Hr.
    destruct (recv_exact_short _ _ _ _ Hh Hr) as [-> | ->]; discriminate. }
  destruct (recv_exact_enough sock HEADER_SIZE Hh) as (sock1 & Hr & Hd1).
  rewrite Hr in Hrf. clear Hr.
  destruct (firstn_nonempty HEADER_SIZE (delivered sock)) as (h & hs & Hf);
    [unfold HEADER_SIZE; lia | unfold HEADER_SIZE in Hh; lia |].
  rewrite Hf in Hrf.
  assert (unpack_be (h :: hs) = declared sock) as Hdecl
    by (unfold declared; by rewrite Hf).
  pose proof (unpack_be_nonneg (h :: hs)) as Hnn.
  rewrite Hdecl in Hrf, Hnn.
  destruct (declared sock =? 0)%Z eqn:H0; [discriminate|].
  destruct (declared sock >? MAX_MSG_SIZE)%Z eqn:Hmax; [discriminate|].
  apply Z.eqb_neq in H0.
  assert (declared sock <= MAX_MSG_SIZE)%Z by lia.
  destruct (le_lt_dec (Z.to_nat (declared sock)) (length (delivered sock1)))
    as [Hp|Hp]; last first.
  { exfalso.
    destruct (_recv_exact sock1 (Z.to_nat (declared sock))) as [r sock2] eqn:Hr.
    destruct (recv_exact_short _ _ _ _ Hp Hr) as [-> | ->]; discriminate. }
  destruct (recv_exact_enough sock1 (Z.to_nat (declared sock)) Hp)
    as (sock2 & Hr & Hd2).
  rewrite Hr in Hrf. clear Hr. rewrite Hd1 in Hrf.
  rewrite Hd1, length_skipn in Hp.
  split_and!; [done | lia | lia | lia |].
  destruct (firstn (Z.to_nat (declared sock)) (skipn HEADER_SIZE (delivered sock)))
    as [|p ps]; simpl in Hrf; congruence.
Qed.

(** C6. A payload reaches command processing exactly when the socket
    delivers a four-byte header declaring a length between 1 and 100 MiB
    followed by at least that many bytes; the payload is then those bytes,
    as many as declared.  In every other case (declared length zero or above
    the cap, the peer closing or stalling before the payload is complete)
    the connection is dropped with nothing parsed. *)
Theorem framed_request_complete_or_dropped
    (respond : bytes -> option bytes) (sendall : bytes -> bool) (sock : socket) :
  (forall payload written,
     _handle_client respond sendall sock = Processed payload written <->
     (HEADER_SIZE <= length (delivered sock))%nat /\
     (0 < declared sock <= MAX_MSG_SIZE)%Z /\
     (Z.of_nat HEADER_SIZE + declared sock <= Z.of_nat (length (delivered sock)))%Z /\
     payload = firstn (Z.to_nat (declared sock)) (skipn HEADER_SIZE (delivered sock)) /\
     written = reply respond sendall payload)
  /\ (forall payload written,
        _handle_client respond sendall sock = Processed payload written ->
        Z.of_nat (length payload) = declared sock)
  /\ (declared sock = 0%Z -> _handle_client respond sendall sock = Dropped)
  /\ ((declared sock > MAX_MSG_SIZE)%Z -> _handle_client respond sendall sock = Dropped)
  /\ ((Z.of_nat (length (delivered sock)) < Z.of_nat HEADER_SIZE + declared sock)%Z ->
      _handle_client respond sendall sock = Dropped).
Proof.
  assert (Hsound : forall payload written,
             _handle_client respond sendall sock = Processed payload written ->
             (HEADER_SIZE <= length (delivered sock))%nat /\
             (0 < declared sock <= MAX_MSG_SIZE)%Z /\
             (Z.of_nat HEADER_SIZE + declared sock
              <= Z.of_nat (length (delivered sock)))%Z /\
             payload = firstn (Z.to_nat (declared sock))
                              (skipn HEADER_SIZE (delivered sock)) /\
             written = reply respond sendall payload).
  { intros payload written Hc. unfold _handle_client in Hc.
    destruct (_recv_framed sock) as [[[p|]|e] sock'] eqn:Hrf; try discriminate.
    injection Hc as <- <-.
    destruct (_recv_framed_sound _ _ _ Hrf) as (? & ? & ? & ?). tauto. }
  assert (Hdrop : (forall payload written,
                      _handle_client respond sendall sock <> Processed payload written) ->
                  _handle_client respond sendall sock = Dropped).
  { intros Hno. destruct (_handle_client respond sendall sock) as [p f|]; [|done].
    by destruct (Hno p f). }
  split_and!.
  - intros payload written. split; [apply Hsound|].
    intros (Hh & Hd & Hlen & -> & ->).
    destruct (_recv_framed_complete sock Hh Hd Hlen) as (sock' & Hrf).
    unfold _handle_client. by rewrite Hrf.
  - intros payload written Hc.
    destruct (Hsound _ _ Hc) as (Hh & Hd & Hlen & -> & _).
    rewrite length_firstn, length_skipn. lia.
  - intros H0. apply Hdrop. intros p f Hc.
    destruct (Hsound _ _ Hc) as (_ & ? & _). lia.
  - intros Hbig. apply Hdrop. intros p f Hc.
    destruct (Hsound _ _ Hc) as (_ & ? & _). lia.
  - intros Hshort. apply Hdrop. intros p f Hc.
    destruct (Hsound _ _ Hc) as (_ & _ & ? & _). lia.
Qed.

End TransportFacts.

(** ** Value coercion *)

Module CoercionFacts.

Import Coercion.

Lemma prefix_split (p s : string) :
  String.prefix p s = true -> exists r, s = p +:+ r.
Proof.
  revert s. induction p as [|a p IH]; intros s Hp.
  - by exists s.
  - destruct s as [|b s]; [done|]. simpl in Hp.
    destruct (ascii_dec a b) as [->|]; [|done].
    destruct (IH s Hp) as [r ->]. by exists r.
Qed.

Lemma startswith_sbs_contains (tid : string) :
  startswith tid "sbs::" = true -> str_contains "::" tid = true.
Proof.
  intros Hp. destruct (prefix_split _ _ Hp) as [r ->]. by destruct r.
Qed.

(** C4 (as amended). For an authoritative type id that, lower-cased, is no
    exact primitive, holds no ["::"], and contains ["int"] but not
    ["float"]: an inferred float becomes int, and an inferred float2 or
    float4 of a sequence value becomes int2 or int4. *)
Theorem coerce_int_named_type (inferred value : pyval) (sd_type_id : string) :
  exact_primitive (lower sd_type_id) = None ->
  str_contains "::" (lower sd_type_id) = false ->
  str_contains "int" (lower sd_type_id) = true ->
  str_contains "float" (lower sd_type_id) = false ->
  (tag_is inferred "float" = true ->
   _coerce_type inferred value sd_type_id = PStr "int")
  /\ (tag_is inferred "float2" = true -> is_sequence value = true ->
      _coerce_type inferred value sd_type_id = PStr "int2")
  /\ (tag_is inferred "float4" = true -> is_sequence value = true ->
      _coerce_type inferred value sd_type_id = PStr "int4").
Proof.
  intros Hprim Hns Hint Hfloat.
  assert (Hne : String.eqb sd_type_id "" = false).
  { destruct sd_type_id; [discriminate Hint | done]. }
  assert (Hsbs : startswith (lower sd_type_id) "sbs::" = false).
  { destruct (startswith (lower sd_type_id) "sbs::") eqn:E; [|done].
    apply startswith_sbs_contains in E. congruence. }
  unfold _coerce_type. rewrite Hne, Hprim, Hsbs, Hns, Hint, Hfloat. simpl.
  split_and!.
  - by intros ->.
  - intros H2 Hs. destruct inferred; try discriminate H2. simpl in *.
    apply String.eqb_eq in H2 as ->. simpl. by rewrite Hs.
  - intros H4 Hs. destruct inferred; try discriminate H4. simpl in *.
    apply String.eqb_eq in H4 as ->. simpl. by rewrite Hs.
Qed.

Lemma coerce_int_named_type_witness :
  _coerce_type (PStr "float2") (PList [PInt 1; PInt 2]) "Integer2" = PStr "int2".
Proof.
  apply (coerce_int_named_type (PStr "float2") (PList [PInt 1; PInt 2]) "Integer2");
    reflexivity.
Defined.

(** The claim C4 as stated fails: a namespaced type id whose name contains
    ["int"] leaves a float2 as it is, and so does any such id with float3. *)
Lemma coerce_int_named_type_counterexample :
  (let tid := lower "sbs::compositing::paint" in
   exact_primitive tid = None /\ str_contains "int" tid = true
   /\ str_contains "float" tid = false
   /\ _coerce_type (PStr "float2") (PList [PInt 1; PInt 2]) "sbs::compositing::paint"
      <> PStr "int2")
  /\ (let tid := lower "integer3" in
      exact_primitive tid = None /\ str_contains "int" tid = true
      /\ str_contains "float" tid = false
      /\ _coerce_type (PStr "float3") (PList [PInt 1; PInt 2; PInt 3]) "integer3"
         <> PStr "int3").
Proof.
  split; (split_and!; [reflexivity | reflexivity | reflexivity | discriminate]).
Qed.

(** Evaluation of [_coerce_type] where a float3 meets an int-named type. *)
Lemma coerce_float3_unchanged :
  _coerce_type (PStr "float3") (PList [PInt 1; PInt 2; PInt 3]) "integer3"
  = PStr "float3".
Proof. reflexivity. Qed.

End CoercionFacts.

(** ** Response serialization *)

Module JsonFacts.

Import Json.

Lemma append_assoc (a b c : string) : (a +:+ b) +:+ c = a +:+ b +:+ c.
Proof.
  induction a as [|x a IH]; [done|].
  change (String x ((a +:+ b) +:+ c) = String x (a +:+ b +:+ c)). by rewrite IH.
Qed.

(** The hook is never asked about a float: the encoder prints floats
    itself, whatever hook it was given. *)
Lemma dumps_float_ignores_hook float_repr encode_str (default : pyval -> pyval)
    (f : float) :
  dumps float_repr encode_str default (PFloat f) = Some (floatstr float_repr f).
Proof. reflexivity. Qed.

(** C5 (the code at a failing input). A response holding the three
    non-finite floats is serialized with the tokens [Infinity], [NaN] and
    [-Infinity]. *)
Theorem nonfinite_floats_reach_the_wire (str_of : pyval -> string)
    (float_repr : float -> string) (encode_str : string -> string) :
  dumps_response str_of float_repr encode_str
    (PDict [("status", PStr "success");
            ("result", PDict [("x", PFloat infinity); ("y", PFloat nan);
                              ("z", PFloat neg_infinity)])])
  = Some ("{" +:+ encode_str "status" +:+ ": " +:+ encode_str "success" +:+ ", "
          +:+ encode_str "result" +:+ ": {"
          +:+ encode_str "x" +:+ ": Infinity, "
          +:+ encode_str "y" +:+ ": NaN, "
          +:+ encode_str "z" +:+ ": -Infinity}}").
Proof.
  unfold dumps_response. cbn.
  repeat rewrite append_assoc. reflexivity.
Qed.

(** Were the hook asked, it would turn NaN into [None], not into a number. *)
Lemma _json_safe_nan str_of : _json_safe str_of (PFloat nan) = PNone.
Proof. reflexivity. Qed.

End JsonFacts.

(** ** The command handler *)

Module PluginFacts.

Import Coercion Plugin.

Section Traces.

Context `{Host} `{PyBuiltins}.

(** *** Traces *)

Lemma emits_ret {A} P (a : A) : emits P (ret a).
Proof. intros w r w' [= <- <-]. exists []. by rewrite app_nil_r. Qed.

Lemma emits_throw {A} P c msg : emits P (throw (A:=A) c msg).
Proof. intros w r w' [= <- <-]. exists []. by rewrite app_nil_r. Qed.

Lemma emits_lift {A} P (x : result A) : emits P (lift x).
Proof. intros w r w' [= <- <-]. exists []. by rewrite app_nil_r. Qed.

Lemma emits_get_cache P : emits P get_cache.
Proof. intros w r w' [= <- <-]. exists []. by rewrite app_nil_r. Qed.

Lemma emits_cache_set P k u : emits P (cache_set k u).
Proof. intros w r w' [= <- <-]. exists []. simpl. by rewrite app_nil_r. Qed.

Lemma emits_hostcall {R} (P : event -> Prop) (c : hcall R) :
  P (ev c) -> emits P (hostcall c).
Proof.
  intros HP w r w'. unfold hostcall.
  destruct (host_step R c (w_host w)) as [r0 h'].
  intros [= <- <-]. exists [ev c]. simpl. split; [done | by constructor].
Qed.

Lemma emits_bind {A B} P (m : M A) (k : A -> M B) :
  emits P m -> (forall a, emits P (k a)) -> emits P (bind m k).
Proof.
  intros Hm Hk w r w'. unfold bind.
  destruct (m w) as [[a|e] w1] eqn:Em; intros Hr.
  - destruct (Hm _ _ _ Em) as (evs1 & Ht1 & Hf1).
    destruct (Hk a _ _ _ Hr) as (evs2 & Ht2 & Hf2).
    exists (evs1 ++ evs2). rewrite Ht2, Ht1, app_assoc.
    split; [done | by apply Forall_app].
  - injection Hr as <- <-. by apply (Hm _ _ _ Em).
Qed.

Lemma emits_try {A} P (m : M A) (h : exn -> M A) :
  emits P m -> (forall e, emits P (h e)) -> emits P (try_except m h).
Proof.
  intros Hm Hh w r w'. unfold try_except.
  destruct (m w) as [[a|e] w1] eqn:Em; intros Hr.
  - injection Hr as <- <-. by apply (Hm _ _ _ Em).
  - destruct (Hm _ _ _ Em) as (evs1 & Ht1 & Hf1).
    destruct (Hh e _ _ _ Hr) as (evs2 & Ht2 & Hf2).
    exists (evs1 ++ evs2). rewrite Ht2, Ht1, app_assoc.
    split; [done | by apply Forall_app].
Qed.

Lemma emits_weaken {A} (P Q : event -> Prop) (m : M A) :
  (forall e, P e -> Q e) -> emits P m -> emits Q m.
Proof.
  intros HPQ Hm w r w' Hr. destruct (Hm _ _ _ Hr) as (evs & Ht & Hf).
  exists evs. split; [done|]. eapply Forall_impl; eauto.
Qed.

End Traces.

(** One step of a proof that a handler only makes calls of some kind. *)
Ltac emits_step :=
  match goal with
  | |- emits _ (ret _) => apply emits_ret
  | |- emits _ (throw _ _) => apply emits_throw
  | |- emits _ (lift _) => apply emits_lift
  | |- emits _ get_cache => apply emits_get_cache
  | |- emits _ (cache_set _ _) => apply emits_cache_set
  | |- emits _ (hostcall _) => apply emits_hostcall
  | |- emits _ (bind _ _) => apply emits_bind; [|intros ?]
  | |- emits _ (try_except _ _) => apply emits_try; [|intros ?]
  | |- emits _ (match ?x with _ => _ end) => destruct x
  | |- emits _ (if ?b then _ else _) => destruct b
  end.

Ltac emits_auto := repeat emits_step; try (by (simpl; auto)).

Section WithHost.

Context `{Host} `{PyBuiltins}.

(** *** Handlers that only read *)

Lemma _get_node_def_id_reads n : emits is_query (_get_node_def_id n).
Proof. unfold _get_node_def_id. emits_auto. Qed.

Lemma scan_children_reads key children : emits is_query (scan_children key children).
Proof. induction children as [|res rest IH]; simpl; emits_auto. Qed.

Lemma scan_modes_reads key pkg modes : emits is_query (scan_modes key pkg modes).
Proof.
  induction modes as [|b rest IH]; cbn [scan_modes]; emits_auto.
  all: try apply scan_children_reads.
Qed.

Lemma scan_packages_reads key pkgs : emits is_query (scan_packages key pkgs).
Proof.
  induction pkgs as [|pkg rest IH]; cbn [scan_packages]; emits_auto.
  all: try apply scan_modes_reads.
Qed.

Lemma _resolve_lib_url_reads keyword : emits is_query (_resolve_lib_url keyword).
Proof. unfold _resolve_lib_url. emits_auto. apply scan_packages_reads. Qed.

Lemma find_resource_reads url pkgs : emits is_query (find_resource url pkgs).
Proof. induction pkgs as [|pkg rest IH]; simpl; emits_auto. Qed.

Lemma first_resource_reads test ress :
  (forall res, emits is_query (test res)) ->
  emits is_query (first_resource test ress).
Proof. intros Ht. induction ress as [|res rest IH]; simpl; emits_auto. Qed.

Lemma first_in_packages_reads test pkgs :
  (forall res, emits is_query (test res)) ->
  emits is_query (first_in_packages test pkgs).
Proof.
  intros Ht. induction pkgs as [|pkg rest IH]; simpl; emits_auto.
  all: try by apply first_resource_reads.
Qed.

Lemma _resolve_graph_reads gid : emits is_query (_resolve_graph gid).
Proof.
  unfold _resolve_graph. emits_auto.
  all: try (apply first_in_packages_reads; intros; emits_auto).
Qed.

Lemma type_map_loop_reads props m : emits is_query (type_map_loop props m).
Proof. revert m. induction props as [|p rest IH]; intros m; simpl; emits_auto. Qed.

Lemma build_type_map_reads n c : emits is_query (build_type_map n c).
Proof. unfold build_type_map. emits_auto. apply type_map_loop_reads. Qed.

Lemma collect_ids_reads props keep acc : emits is_query (collect_ids props keep acc).
Proof. revert acc. induction props as [|p rest IH]; intros acc; simpl; emits_auto. Qed.

Lemma live_ids_reads n c keep : emits is_query (live_ids n c keep).
Proof. unfold live_ids. emits_auto. apply collect_ids_reads. Qed.

(** *** Kinds of events *)

Lemma query_not_connect e : is_query e -> is_connect e = false.
Proof. destruct e as [R []]; simpl; done. Qed.

Lemma query_not_creation e : is_query e -> is_creation e = false.
Proof. destruct e as [R []]; simpl; done. Qed.

Lemma query_checked known e : is_query e -> checked_creation known e.
Proof. destruct e as [R []]; simpl; done. Qed.

Lemma query_node_phase known e : is_query e -> node_phase_event known e.
Proof. split; [by apply query_not_connect | by apply query_checked]. Qed.

Lemma query_conn_phase e : is_query e -> conn_phase_event e.
Proof. by left. Qed.

Lemma param_event_node_phase known n params imap amap e :
  param_event n params imap amap e -> node_phase_event known e.
Proof.
  destruct e as [R c]. unfold param_event, node_phase_event, checked_creation.
  destruct c; simpl; intros Hq; try done; by destruct Hq.
Qed.

Lemma conn_phase_not_creation e : conn_phase_event e -> is_creation e = false.
Proof.
  intros [Hq|Hc]; [by apply query_not_creation|].
  destruct e as [R []]; simpl in *; done.
Qed.

Lemma conn_phase_not_write e : conn_phase_event e -> is_write e = false.
Proof.
  intros [Hq|Hc]; destruct e as [R []]; simpl in *; done.
Qed.

(** *** Handlers that cannot raise *)

Lemma nr_ret {A} (a : A) : never_raises (ret a).
Proof. intros w. by eexists _, _. Qed.

Lemma nr_bind {A B} (m : M A) (k : A -> M B) :
  never_raises m -> (forall a, never_raises (k a)) -> never_raises (bind m k).
Proof.
  intros Hm Hk w. unfold bind. destruct (Hm w) as (a & w1 & ->). apply Hk.
Qed.

Lemma nr_try {A} (m : M A) (h : exn -> M A) :
  (forall e, never_raises (h e)) -> never_raises (try_except m h).
Proof.
  intros Hh w. unfold try_except. destruct (m w) as [[a|e] w1]; [by eexists _, _|].
  apply Hh.
Qed.

Lemma type_map_loop_total props m : never_raises (type_map_loop props m).
Proof.
  revert m. induction props as [|p rest IH]; intros m; cbn [type_map_loop].
  - apply nr_ret.
  - apply nr_bind; [apply nr_try; intros; apply nr_ret|].
    intros [pid|]; [|apply nr_ret].
    apply nr_bind; [apply nr_try; intros; apply nr_ret | intros; apply IH].
Qed.

Lemma build_type_map_total n c : never_raises (build_type_map n c).
Proof.
  unfold build_type_map. apply nr_bind; [apply nr_try; intros; apply nr_ret|].
  intros. apply type_map_loop_total.
Qed.

Lemma collect_ids_total props keep acc : never_raises (collect_ids props keep acc).
Proof.
  revert acc. induction props as [|p rest IH]; intros acc; cbn [collect_ids].
  - apply nr_ret.
  - apply nr_bind; [apply nr_try; intros; apply nr_ret|].
    intros [pid|]; [apply IH | apply nr_ret].
Qed.

Lemma live_ids_total n c keep : never_raises (live_ids n c keep).
Proof.
  unfold live_ids. apply nr_bind; [apply nr_try; intros; apply nr_ret|].
  intros. apply collect_ids_total.
Qed.

Lemma _get_node_def_id_total n : never_raises (_get_node_def_id n).
Proof. unfold _get_node_def_id. apply nr_try. intros. apply nr_ret. Qed.

(** *** Parameters *)

Lemma emits_bind_lift {A B} P (x : result A) (k : A -> M B) :
  (forall a, x = Ret a -> emits P (k a)) -> emits P (bind (lift x) k).
Proof.
  intros Hk w r w'. unfold bind, lift. destruct x as [a|e].
  - by apply Hk.
  - intros [= <- <-]. exists []. by rewrite app_nil_r.
Qed.

Lemma set_one_param_events n params imap amap param_id param_spec :
  In (param_id, param_spec) params ->
  emits (param_event n params imap amap)
        (set_one_param n imap amap param_id param_spec).
Proof.
  intros Hin. unfold set_one_param.
  destruct (startswith param_id "$") eqn:Hsys; [apply emits_ret|].
  apply emits_try; [|intros; apply emits_ret].
  apply emits_bind_lift. intros sd_val Hval.
  emits_auto; unfold param_event; simpl; eauto 10.
Qed.

Lemma set_params_loop_events n params imap amap items results :
  (forall x, In x items -> In x params) ->
  emits (param_event n params imap amap)
        (set_params_loop n imap amap items results).
Proof.
  revert results. induction items as [|[pid spec] rest IH]; intros results Hsub;
    cbn [set_params_loop].
  - apply emits_ret.
  - apply emits_bind.
    + apply set_one_param_events. apply Hsub. by left.
    + intros r. apply IH. intros x Hx. apply Hsub. by right.
Qed.

Lemma set_one_param_total n imap amap param_id param_spec :
  never_raises (set_one_param n imap amap param_id param_spec).
Proof.
  unfold set_one_param. destruct (startswith param_id "$"); [apply nr_ret|].
  apply nr_try. intros. apply nr_ret.
Qed.

Lemma set_one_param_system n imap amap param_id param_spec w :
  startswith param_id "$" = true ->
  set_one_param n imap amap param_id param_spec w = (Ret "skipped_system", w).
Proof. intros Hs. unfold set_one_param. by rewrite Hs. Qed.

Lemma set_params_loop_results n imap amap items : forall results w,
  exists final w',
    set_params_loop n imap amap items results w = (Ret final, w') /\
    forall pid, startswith pid "$" = true ->
      (pid ∈ items.*1 \/ results !! pid = Some "skipped_system") ->
      final !! pid = Some "skipped_system".
Proof.
  induction items as [|[p spec] rest IH]; intros results w; cbn [set_params_loop].
  - eexists _, _. split; [reflexivity|]. intros pid _ [Hin|Hr]; [|done].
    by apply elem_of_nil in Hin.
  - unfold bind.
    destruct (set_one_param_total n imap amap p spec w) as (r & w1 & Hone).
    rewrite Hone.
    destruct (IH (<[p := r]> results) w1) as (final & w' & Hloop & Hfin).
    eexists _, _. split; [exact Hloop|].
    intros pid Hsys Hor. apply Hfin; [done|].
    destruct (decide (pid = p)) as [->|Hne].
    + right. rewrite set_one_param_system in Hone by done.
      injection Hone as <- _. apply lookup_insert_eq.
    + rewrite lookup_insert_ne by done.
      destruct Hor as [Hin|Hr]; [|by right].
      left. rewrite fmap_cons in Hin. apply elem_of_cons in Hin as [?|?]; done.
Qed.

Lemma query_param_event n params imap amap e :
  is_query e -> param_event n params imap amap e.
Proof. destruct e as [R c]. unfold param_event. destruct c; simpl; done. Qed.

Lemma _set_node_params_behaviour (n : node) (params : list (string * pyval))
    (w : world) :
  exists results input_type_map annot_type_map evs w',
    _set_node_params n params w = (Ret results, w') /\
    w_trace w' = w_trace w ++ evs /\
    Forall (param_event n params input_type_map annot_type_map) evs /\
    (forall pid, startswith pid "$" = true -> pid ∈ params.*1 ->
                 results !! pid = Some "skipped_system").
Proof.
  unfold _set_node_params. destruct params as [|item rest].
  - exists ∅, ∅, ∅, [], w. split_and!; [done | by rewrite app_nil_r | done |].
    intros pid _ Hin. by apply elem_of_nil in Hin.
  - set (params := item :: rest). unfold bind.
    destruct (build_type_map_total n Input w) as (imap & w1 & Hi). rewrite Hi.
    destruct (build_type_map_total n Annotation w1) as (amap & w2 & Ha). rewrite Ha.
    destruct (set_params_loop_results n imap amap params ∅ w2)
      as (final & w3 & Hloop & Hfin).
    destruct (build_type_map_reads _ _ _ _ _ Hi) as (e1 & Ht1 & Hq1).
    destruct (build_type_map_reads _ _ _ _ _ Ha) as (e2 & Ht2 & Hq2).
    destruct (set_params_loop_events n params imap amap params ∅ ltac:(auto)
                _ _ _ Hloop) as (e3 & Ht3 & Hp3).
    exists final, imap, amap, (e1 ++ e2 ++ e3), w3.
    split_and!; [done | | | ].
    + by rewrite Ht3, Ht2, Ht1, <- !app_assoc.
    + rewrite !Forall_app. split_and!; [| |done];
        (eapply Forall_impl; [eassumption|]); intros; by apply query_param_event.
    + intros pid Hsys Hin. apply Hfin; auto.
Qed.

Lemma infer_never_int (v : pyval) : _infer_type v <> "int".
Proof.
  destruct v as [| | | | |items| |]; simpl; try discriminate.
  destruct items as [|? [|? [|? [|? [|? ?]]]]]; simpl; discriminate.
Qed.

Lemma coerce_exact_int (t v : pyval) (sd_type_id : string) :
  lower sd_type_id = "int" -> _coerce_type t v sd_type_id = PStr "int".
Proof.
  intros Hl. unfold _coerce_type.
  destruct (String.eqb sd_type_id "") eqn:E.
  { apply String.eqb_eq in E as ->. discriminate Hl. }
  by rewrite Hl.
Qed.

(** C10. [_set_node_params] never raises; every call it makes is a read or
    a write to the given node of a property that an entry of [params] names
    and whose name does not start with ['$'], with the value boxed from
    that entry; and the result map holds ["skipped_system"] for every
    parameter whose name starts with ['$']. *)
Theorem set_node_params_skips_system (n : node) (params : list (string * pyval))
    (w : world) :
  exists results input_type_map annot_type_map evs w',
    _set_node_params n params w = (Ret results, w') /\
    w_trace w' = w_trace w ++ evs /\
    Forall (param_event n params input_type_map annot_type_map) evs /\
    (forall pid, startswith pid "$" = true -> pid ∈ params.*1 ->
                 results !! pid = Some "skipped_system").
Proof. apply _set_node_params_behaviour. Qed.

(** C2 (as amended). Inference gives ["float"] for a bare integer and never
    gives ["int"]; before coercion the type of a parameter is ["int"] only
    when an envelope says so, and an envelope's type is the one coerced.
    The value boxed then follows the property's own type: with no known
    type a bare integer is boxed as a float and [{"value": 7, "type":
    "int"}] as the int 7, and for a property of type [int] both are boxed
    as ints. *)
Theorem bare_integer_infers_float :
  (forall n, _infer_type (PInt n) = "float")
  /\ (forall v, _infer_type v <> "int")
  /\ (forall param_spec,
        snd (param_value_type param_spec) = PStr "int" ->
        exists d v, param_spec = PDict d /\ dict_get d "value" = Some v
                    /\ dict_get d "type" = Some (PStr "int"))
  /\ (forall d v t,
        dict_get d "value" = Some v -> dict_get d "type" = Some t ->
        param_value_type (PDict d) = (v, t))
  /\ (forall imap amap pid n,
        lookup_type_id imap amap pid = "" ->
        param_sd_value imap amap pid (PInt n)
        = rbind (float_of_int n) (fun f => Ret (SDValueFloat f)))
  /\ (forall imap amap pid,
        lookup_type_id imap amap pid = ""
        \/ lower (lookup_type_id imap amap pid) = "int" ->
        param_sd_value imap amap pid (PDict [("value", PInt 7); ("type", PStr "int")])
        = Ret (SDValueInt 7))
  /\ (forall imap amap pid n,
        lower (lookup_type_id imap amap pid) = "int" ->
        param_sd_value imap amap pid (PInt n) = Ret (SDValueInt n)).
Proof.
  split_and!.
  - done.
  - apply infer_never_int.
  - intros spec Hs. unfold param_value_type in Hs.
    assert (Hno : forall v, PStr (_infer_type v) = PStr "int" -> False).
    { intros v Hv. apply (infer_never_int v). congruence. }
    destruct spec as [| | | | | |d|];
      try (cbv beta iota delta [snd] in Hs; by apply Hno in Hs).
    destruct (dict_get d "value") as [v|] eqn:Hv;
      [|cbv beta iota delta [snd] in Hs; by apply Hno in Hs].
    destruct (dict_get d "type") as [t|] eqn:Ht; cbv beta iota delta [snd] in Hs.
    + subst t. by exists d, v.
    + by apply Hno in Hs.
  - intros d v t Hv Ht. unfold param_value_type. by rewrite Hv, Ht.
  - intros imap amap pid n Hl. unfold param_sd_value. simpl. by rewrite Hl.
  - intros imap amap pid [Hl|Hl]; unfold param_sd_value; simpl.
    + by rewrite Hl.
    + by rewrite coerce_exact_int.
  - intros imap amap pid n Hl. unfold param_sd_value. simpl.
    by rewrite coerce_exact_int.
Qed.

(** *** Connections *)

Lemma _set_node_params_node_phase known n params :
  emits (node_phase_event known) (_set_node_params n params).
Proof.
  intros w r w' Heq.
  destruct (_set_node_params_behaviour n params w)
    as (res & imap & amap & evs & w2 & Heq' & Ht & Hf & _).
  rewrite Heq in Heq'. injection Heq' as -> ->.
  exists evs. split; [done|]. eapply Forall_impl; [exact Hf|].
  intros e. apply param_event_node_phase.
Qed.

Lemma sorted_elem_of (ids : gset string) (p : string) :
  p ∈ sorted ids <-> p ∈ ids.
Proof.
  unfold sorted. rewrite merge_sort_Permutation. apply elem_of_elements.
Qed.

Lemma ascii_compare_N (a b : ascii) :
  Ascii.compare a b = N.compare (N_of_ascii a) (N_of_ascii b).
Proof. reflexivity. Qed.

Lemma string_leb_trans (a b c : string) :
  String.leb a b = true -> String.leb b c = true -> String.leb a c = true.
Proof.
  unfold String.leb. revert b c.
  induction a as [|x a IH]; intros [|y b] [|z c]; cbn [String.compare]; try done.
  rewrite !ascii_compare_N.
  destruct (N.compare_spec (N_of_ascii x) (N_of_ascii y)) as [Hxy|Hxy|Hxy];
    destruct (N.compare_spec (N_of_ascii y) (N_of_ascii z)) as [Hyz|Hyz|Hyz];
    try done.
  - rewrite Hxy, Hyz, N.compare_refl. apply IH.
  - intros _ _. rewrite Hxy. by rewrite (proj2 (N.compare_lt_iff _ _) Hyz).
  - intros _ _. rewrite <- Hyz. by rewrite (proj2 (N.compare_lt_iff _ _) Hxy).
  - intros _ _. by rewrite (proj2 (N.compare_lt_iff _ _) (N.lt_trans _ _ _ Hxy Hyz)).
Qed.

Lemma str_le_trans : Transitive str_le.
Proof. intros a b c. apply string_leb_trans. Qed.

Lemma str_le_total : Total str_le.
Proof. intros a b. apply String.leb_total. Qed.

(** [sorted ids] lists the members of [ids] once each, in ascending order. *)
Lemma sorted_spec (ids : gset string) :
  StronglySorted str_le (sorted ids)
  /\ NoDup (sorted ids)
  /\ forall p, p ∈ sorted ids <-> p ∈ ids.
Proof.
  split_and!.
  - apply (@StronglySorted_merge_sort _ str_le _ str_le_trans str_le_total).
  - unfold sorted. rewrite merge_sort_Permutation. apply NoDup_elements.
  - intros p. apply sorted_elem_of.
Qed.

Lemma _safe_connect_events g fn fo tn ti :
  emits conn_phase_event (_safe_connect g fn fo tn ti).
Proof.
  unfold _safe_connect.
  apply emits_bind;
    [eapply emits_weaken; [apply query_conn_phase | apply live_ids_reads]|].
  intros out_ids.
  apply emits_bind;
    [eapply emits_weaken; [apply query_conn_phase | apply live_ids_reads]|].
  intros in_ids.
  emits_auto; try (by left); by right.
Qed.

(** The output check rejects. *)
Lemma _safe_connect_rejects g from_node from_out to_node to_in w out_ids w1 in_ids w2 :
  live_ids from_node Output (fun _ => true) w = (Ret out_ids, w1) ->
  live_ids to_node Input not_system w1 = (Ret in_ids, w2) ->
  out_ids <> ∅ -> from_out ∉ out_ids ->
  exists e w',
    _safe_connect g from_node from_out to_node to_in w = (Exn e, w') /\
    (exists evs, w_trace w' = w_trace w ++ evs /\ Forall is_query evs) /\
    match fst (host_step string (node_getIdentifier from_node) (w_host w2)) with
    | Ret fid =>
        e = mk_exn ValueError
              ("Output port '" +:+ from_out +:+ "' not found on node '" +:+ fid
               +:+ "'. Available: " +:+ repr_str_list repr_str (sorted out_ids))
    | Exn e' => e = e'
    end.
Proof.
  intros Hout Hin Hne Hnotin. unfold _safe_connect, bind. rewrite Hout, Hin.
  rewrite (bool_decide_eq_false_2 (out_ids = ∅)) by done.
  rewrite (bool_decide_eq_false_2 (from_out ∈ out_ids)) by done.
  cbn [negb andb].
  destruct (live_ids_reads _ _ _ _ _ _ Hout) as (e1 & Ht1 & Hq1).
  destruct (live_ids_reads _ _ _ _ _ _ Hin) as (e2 & Ht2 & Hq2).
  unfold hostcall, throw.
  destruct (host_step string (node_getIdentifier from_node) (w_host w2))
    as [[fid|e] h'] eqn:Hid.
  - eexists _, _. split; [reflexivity|]. split.
    + exists (e1 ++ e2 ++ [ev (node_getIdentifier from_node)]). cbn [w_trace].
      split; [by rewrite Ht2, Ht1, <- !app_assoc|].
      rewrite !Forall_app. split_and!; [done | done |]. by constructor.
    + reflexivity.
  - eexists _, _. split; [reflexivity|]. split.
    + exists (e1 ++ e2 ++ [ev (node_getIdentifier from_node)]). cbn [w_trace].
      split; [by rewrite Ht2, Ht1, <- !app_assoc|].
      rewrite !Forall_app. split_and!; [done | done |]. by constructor.
    + reflexivity.
Qed.

(** Both checks pass: the host is asked for the connection, after reads
    only, and what follows are the reads for the message of a failure. *)
Lemma _safe_connect_calls_host g from_node from_out to_node to_in w out_ids w1 in_ids w2 :
  live_ids from_node Output (fun _ => true) w = (Ret out_ids, w1) ->
  live_ids to_node Input not_system w1 = (Ret in_ids, w2) ->
  out_ids = ∅ \/ from_out ∈ out_ids ->
  in_ids = ∅ \/ to_in ∈ in_ids ->
  exists r w' evs rest,
    _safe_connect g from_node from_out to_node to_in w = (r, w') /\
    w_trace w' = w_trace w ++ evs
                 ++ ev (node_newPropertyConnectionFromId from_node from_out to_node to_in)
                 :: rest /\
    Forall is_query evs /\ Forall is_query rest.
Proof.
  intros Hout Hin Ho Hi. unfold _safe_connect, bind. rewrite Hout, Hin.
  assert (Hgo : negb (bool_decide (out_ids = ∅)) && negb (bool_decide (from_out ∈ out_ids))
                = false).
  { destruct Ho as [->|Hm]; [by rewrite bool_decide_eq_true_2|].
    rewrite (bool_decide_eq_true_2 (from_out ∈ out_ids)) by done.
    by rewrite andb_false_r. }
  assert (Hgi : negb (bool_decide (in_ids = ∅)) && negb (bool_decide (to_in ∈ in_ids))
                = false).
  { destruct Hi as [->|Hm]; [by rewrite bool_decide_eq_true_2|].
    rewrite (bool_decide_eq_true_2 (to_in ∈ in_ids)) by done.
    by rewrite andb_false_r. }
  rewrite Hgo, Hgi.
  destruct (live_ids_reads _ _ _ _ _ _ Hout) as (e1 & Ht1 & Hq1).
  destruct (live_ids_reads _ _ _ _ _ _ Hin) as (e2 & Ht2 & Hq2).
  unfold hostcall, throw, ret.
  destruct (host_step _ (node_newPropertyConnectionFromId from_node from_out to_node to_in)
              (w_host w2)) as [[[c|]|e] h3]; cbn [w_host w_trace].
  - eexists _, _, (e1 ++ e2), []. split; [reflexivity|]. cbn [w_trace].
    split_and!; [by rewrite Ht2, Ht1, <- !app_assoc | by apply Forall_app | done].
  - destruct (host_step string (node_getIdentifier from_node) h3) as [[fid|e] h4];
      cbn [w_host w_trace].
    + destruct (host_step string (node_getIdentifier to_node) h4) as [[tid|e] h5];
        eexists _, _, (e1 ++ e2),
          [ev (node_getIdentifier from_node); ev (node_getIdentifier to_node)];
        (split; [reflexivity|]); cbn [w_trace];
        (split_and!;
         [by rewrite Ht2, Ht1, <- !app_assoc | by apply Forall_app
         | by repeat constructor]).
    + eexists _, _, (e1 ++ e2), [ev (node_getIdentifier from_node)].
      split; [reflexivity|]. cbn [w_trace].
      split_and!; [by rewrite Ht2, Ht1, <- !app_assoc | by apply Forall_app
                  | by repeat constructor].
  - eexists _, _, (e1 ++ e2), []. split; [reflexivity|]. cbn [w_trace].
    split_and!; [by rewrite Ht2, Ht1, <- !app_assoc | by apply Forall_app | done].
Qed.

(** The input check rejects. *)
Lemma _safe_connect_rejects_input g from_node from_out to_node to_in w out_ids w1
    in_ids w2 :
  live_ids from_node Output (fun _ => true) w = (Ret out_ids, w1) ->
  live_ids to_node Input not_system w1 = (Ret in_ids, w2) ->
  out_ids = ∅ \/ from_out ∈ out_ids ->
  in_ids <> ∅ -> to_in ∉ in_ids ->
  exists e w' evs,
    _safe_connect g from_node from_out to_node to_in w = (Exn e, w')
    /\ w_trace w' = w_trace w ++ evs /\ Forall is_query evs.
Proof.
  intros Hout Hin Hok Hne Hnotin.
  destruct (live_ids_reads _ _ _ _ _ _ Hout) as (e1 & Ht1 & Hq1).
  destruct (live_ids_reads _ _ _ _ _ _ Hin) as (e2 & Ht2 & Hq2).
  unfold _safe_connect, bind. rewrite Hout, Hin.
  assert (Hguard : negb (bool_decide (out_ids = ∅)) && negb (bool_decide (from_out ∈ out_ids))
                   = false).
  { destruct Hok as [->|Hm].
    - by rewrite bool_decide_eq_true_2.
    - rewrite (bool_decide_eq_true_2 (from_out ∈ out_ids)) by done.
      by rewrite andb_false_r. }
  rewrite Hguard.
  rewrite (bool_decide_eq_false_2 (in_ids = ∅)) by done.
  rewrite (bool_decide_eq_false_2 (to_in ∈ in_ids)) by done.
  cbn [negb andb]. unfold hostcall, throw.
  destruct (host_step string (node_getIdentifier to_node) (w_host w2)) as [[tid|e] h'];
    eexists _, _, (e1 ++ e2 ++ [ev (node_getIdentifier to_node)]);
    (split; [reflexivity|]); cbn [w_trace];
    (split; [by rewrite Ht2, Ht1, <- !app_assoc|]);
    rewrite !Forall_app; split_and!; try done; by constructor.
Qed.

(** C3 (as amended). Connection validation takes the valid ports from the
    live nodes, whatever their kind: [out_ids] are the identifiers the
    source node lists as outputs and [in_ids] those the target lists as
    inputs, system parameters left out.
    - When [out_ids] is not empty and [from_out] is not in it, the
      connection is rejected after reads only, with a [ValueError] whose
      message names the port and the node and enumerates [out_ids] in
      ascending order, each once; or, when the host raises on the
      [getIdentifier()] that the message needs, with that exception.
    - When [out_ids] is empty, [from_out] is not validated.  Then, as when
      [from_out] is in [out_ids]: if [in_ids] is empty or holds [to_in], the
      host is asked for the connection with exactly the ports given, after
      reads only; if [in_ids] is not empty and does not hold [to_in], the
      input check rejects after reads only. *)
Theorem safe_connect_checks_live_ports
    g from_node from_out to_node to_in w out_ids w1 in_ids w2 :
  live_ids from_node Output (fun _ => true) w = (Ret out_ids, w1) ->
  live_ids to_node Input not_system w1 = (Ret in_ids, w2) ->
  (out_ids <> ∅ -> from_out ∉ out_ids ->
   exists e w',
     _safe_connect g from_node from_out to_node to_in w = (Exn e, w') /\
     (exists evs, w_trace w' = w_trace w ++ evs /\ Forall is_query evs) /\
     match fst (host_step string (node_getIdentifier from_node) (w_host w2)) with
     | Ret fid =>
         e = mk_exn ValueError
               ("Output port '" +:+ from_out +:+ "' not found on node '" +:+ fid
                +:+ "'. Available: " +:+ repr_str_list repr_str (sorted out_ids))
     | Exn e' => e = e'
     end)
  /\ (StronglySorted str_le (sorted out_ids)
      /\ NoDup (sorted out_ids)
      /\ forall p, p ∈ sorted out_ids <-> p ∈ out_ids)
  /\ (out_ids = ∅ \/ from_out ∈ out_ids -> in_ids = ∅ \/ to_in ∈ in_ids ->
      exists r w' evs rest,
        _safe_connect g from_node from_out to_node to_in w = (r, w') /\
        w_trace w' = w_trace w ++ evs
                     ++ ev (node_newPropertyConnectionFromId from_node from_out
                                                             to_node to_in)
                     :: rest /\
        Forall is_query evs /\ Forall is_query rest)
  /\ (out_ids = ∅ \/ from_out ∈ out_ids -> in_ids <> ∅ -> to_in ∉ in_ids ->
      exists e w' evs,
        _safe_connect g from_node from_out to_node to_in w = (Exn e, w')
        /\ w_trace w' = w_trace w ++ evs /\ Forall is_query evs).
Proof.
  intros Hout Hin. split; [|split; [|split]].
  - intros Hne Hnotin. by eapply _safe_connect_rejects.
  - apply sorted_spec.
  - intros Ho Hi. eapply _safe_connect_calls_host; eauto.
  - intros He Hne Hnotin. eapply _safe_connect_rejects_input; eauto.
Qed.

(** *** Node creation *)

Ltac phase_solve :=
  split; [reflexivity | unfold checked_creation; cbn; first [exact I | by left | auto]].

Ltac weaken_reads :=
  eapply emits_weaken;
  [ first [apply query_node_phase | apply query_conn_phase | apply query_not_connect]
  | first [apply _resolve_lib_url_reads | apply find_resource_reads
          | apply _get_node_def_id_reads | apply _resolve_graph_reads
          | apply live_ids_reads | apply build_type_map_reads] ].

Lemma _create_library_node_events known g keyword :
  emits (node_phase_event known) (_create_library_node g keyword).
Proof.
  unfold _create_library_node.
  apply emits_bind; [weaken_reads|]. intros url.
  destruct url as [[|c u]|]; [emits_auto| |emits_auto].
  apply emits_bind; [emits_auto; by apply query_node_phase|]. intros pkgs.
  apply emits_bind; [weaken_reads|]. intros r.
  emits_auto; phase_solve.
Qed.

Lemma set_position_events known n pos :
  emits (node_phase_event known) (set_position n pos).
Proof. unfold set_position. emits_auto; phase_solve. Qed.

Lemma create_spec_node_events um g known spec :
  emits (node_phase_event known) (create_spec_node um g known spec).
Proof.
  unfold create_spec_node.
  destruct (String.eqb (spec_defn spec) "sbs::compositing::output").
  { emits_auto; phase_solve. }
  destruct (is_true_str (resource_url spec)).
  { apply emits_bind; [emits_auto; by apply query_node_phase|]. intros pkgs.
    apply emits_bind; [weaken_reads|]. intros r.
    emits_auto; phase_solve. }
  destruct (is_true_str (library_keyword spec)).
  { apply emits_bind; [apply _create_library_node_events | intros; apply emits_ret]. }
  destruct known as [|k ks]; cbn [andb].
  { apply emits_hostcall. phase_solve. }
  destruct (bool_decide (spec_defn spec ∈ k :: ks)) eqn:Hk; cbn [negb].
  - apply emits_hostcall. apply bool_decide_eq_true in Hk. phase_solve.
  - apply emits_throw.
Qed.

Lemma spec_attempt_events um nm g known spec :
  emits (node_phase_event known) (spec_attempt um nm g known spec).
Proof.
  unfold spec_attempt.
  apply emits_bind; [apply create_spec_node_events|]. intros [n|]; [|apply emits_throw].
  apply emits_bind; [apply set_position_events|]. intros _.
  apply emits_bind; [apply _set_node_params_node_phase|]. intros _.
  emits_auto; by apply query_node_phase.
Qed.

Lemma node_step_events wd um nm g known orig st spec :
  emits (node_phase_event known) (node_step wd um nm g known orig st spec).
Proof.
  unfold node_step. apply emits_try; [|intros; apply emits_ret].
  apply emits_bind; [apply spec_attempt_events|]. intros [n nid].
  apply emits_bind; [|intros; apply emits_ret].
  destruct wd; [|apply emits_ret].
  apply emits_bind; [weaken_reads | intros; apply emits_ret].
Qed.

Lemma batch_nodes_events g known nodes : forall st,
  emits (node_phase_event known) (batch_nodes g known st nodes).
Proof.
  induction nodes as [|spec rest IH]; intros st; cbn [batch_nodes].
  - apply emits_ret.
  - apply emits_bind; [apply node_step_events | intros; apply IH].
Qed.

Lemma recipe_nodes_events g known nodes : forall st,
  emits (node_phase_event known) (recipe_nodes g known st nodes).
Proof.
  induction nodes as [|spec rest IH]; intros st; cbn [recipe_nodes].
  - apply emits_ret.
  - apply emits_bind; [apply node_step_events | intros; apply IH].
Qed.

(** A named kind outside a non-empty set of known definitions: the turn of
    the node loop records the failure and calls nothing. *)
Lemma node_step_unknown_kind wd um nm g known orig st spec w :
  named_kind spec = true -> known <> [] -> spec_defn spec ∉ known ->
  node_step wd um nm g known orig st spec w
  = (Ret {| alias_map := alias_map st;
            created := created st;
            failed := failed st ++ [{| fe_alias := orig;
                                       fe_error := um (spec_defn spec) |}] |}, w).
Proof.
  intros Hnamed Hne Hnotin. unfold named_kind in Hnamed.
  apply andb_true_iff in Hnamed as [Hnamed Hlib].
  apply andb_true_iff in Hnamed as [Hout Hurl].
  apply negb_true_iff in Hout, Hurl, Hlib.
  unfold node_step, try_except, bind, spec_attempt, bind, create_spec_node.
  rewrite Hout, Hurl, Hlib.
  destruct known as [|k ks]; [done|].
  rewrite (bool_decide_eq_false_2 _ Hnotin). reflexivity.
Qed.

Lemma create_node_unknown_kind definition_id gid pos w g w1 known h2 :
  _resolve_graph gid w = (Ret g, w1) ->
  host_step _ (graph_getNodeDefinitionIds g) (w_host w1) = (Ret known, h2) ->
  definition_id ∉ known ->
  exists w2 evs,
    create_node definition_id gid pos w
    = (Exn (mk_exn ValueError (unknown_definition_msg definition_id)), w2)
    /\ w_trace w2 = w_trace w ++ evs /\ Forall is_query evs.
Proof.
  intros Hg Hdefs Hnotin.
  destruct (_resolve_graph_reads _ _ _ _ Hg) as (e1 & Ht1 & Hq1).
  unfold create_node, bind. rewrite Hg.
  unfold try_except, bind, hostcall. rewrite Hdefs.
  rewrite (bool_decide_eq_false_2 _ Hnotin). cbn.
  eexists _, (e1 ++ [ev (graph_getNodeDefinitionIds g)]).
  split; [reflexivity|]. cbn [w_trace]. split; [by rewrite Ht1, app_assoc|].
  apply Forall_app. split; [done|]. by constructor.
Qed.

(** C1 (as amended). [create_node] checks the kind against the node
    definitions the graph lists, when the listing succeeds: a kind outside
    the list raises a [ValueError] after reads only.  In the batch and
    recipe builders a named-kind spec whose kind is outside a non-empty
    list of known definitions is recorded as failed without any call to the
    host, and all the node loop ever creates by kind is the output kind, a
    kind of the list, or any kind when the list is empty. *)
Theorem unknown_kind_is_rejected_before_creation :
  (forall definition_id gid pos w g w1 known h2,
     _resolve_graph gid w = (Ret g, w1) ->
     host_step _ (graph_getNodeDefinitionIds g) (w_host w1) = (Ret known, h2) ->
     definition_id ∉ known ->
     exists w2 evs,
       create_node definition_id gid pos w
       = (Exn (mk_exn ValueError (unknown_definition_msg definition_id)), w2)
       /\ w_trace w2 = w_trace w ++ evs /\ Forall is_query evs)
  /\ (forall g known st spec w,
        named_kind spec = true -> known <> [] -> spec_defn spec ∉ known ->
        node_step true batch_unknown_msg batch_none_msg g known (batch_alias spec) st spec w
        = (Ret {| alias_map := alias_map st;
                  created := created st;
                  failed := failed st
                            ++ [{| fe_alias := batch_alias spec;
                                   fe_error := batch_unknown_msg (spec_defn spec) |}] |},
           w))
  /\ (forall g known st spec w,
        named_kind spec = true -> known <> [] -> spec_defn spec ∉ known ->
        node_step false recipe_unknown_msg recipe_none_msg g known (recipe_alias spec) st spec w
        = (Ret {| alias_map := alias_map st;
                  created := created st;
                  failed := failed st
                            ++ [{| fe_alias := recipe_alias spec;
                                   fe_error := recipe_unknown_msg (spec_defn spec) |}] |},
           w))
  /\ (forall g known st nodes, emits (checked_creation known) (batch_nodes g known st nodes))
  /\ (forall g known st nodes, emits (checked_creation known) (recipe_nodes g known st nodes)).
Proof.
  split_and!.
  - intros. by eapply create_node_unknown_kind.
  - intros. by apply node_step_unknown_kind.
  - intros. by apply node_step_unknown_kind.
  - intros. eapply emits_weaken; [|apply batch_nodes_events]. by intros e [_ ?].
  - intros. eapply emits_weaken; [|apply recipe_nodes_events]. by intros e [_ ?].
Qed.

(** *** Alias deduplication *)

Lemma append_nil_inv (s t : string) : s = s +:+ t -> t = "".
Proof.
  induction s as [|c s IH]; [done|].
  intros Heq. apply IH.
  change (String c s = String c (s +:+ t)) in Heq. congruence.
Qed.

Lemma candidate_inj (orig : string) : Inj (=) (=) (candidate orig).
Proof.
  intros [|i] [|j]; unfold candidate; intros Heq.
  - done.
  - by apply append_nil_inv in Heq.
  - symmetry in Heq. by apply append_nil_inv in Heq.
  - apply String.app_inj in Heq. apply (String.app_inj "_") in Heq.
    by apply (inj pretty) in Heq.
Qed.

Lemma candidates_bound {V} (amap : gmap string V) (orig : string) (n : nat) :
  (forall i, (i < n)%nat -> is_Some (amap !! candidate orig i)) ->
  (n <= size amap)%nat.
Proof.
  intros Hall.
  set (l := candidate orig <$> seq 0 n).
  assert (Hnd : NoDup l).
  { pose proof (candidate_inj orig). apply (NoDup_fmap_2 _). apply NoDup_seq. }
  assert (Hsub : (list_to_set l : gset string) ⊆ dom amap).
  { intros x Hx. apply elem_of_list_to_set in Hx.
    apply list_elem_of_fmap in Hx as (i & -> & Hi).
    apply elem_of_seq in Hi. apply elem_of_dom. apply Hall. lia. }
  apply subseteq_size in Hsub.
  rewrite size_list_to_set in Hsub by done.
  rewrite size_dom in Hsub. unfold l in Hsub.
  by rewrite length_fmap, length_seq in Hsub.
Qed.

Lemma dedup_loop_spec amap orig : forall turns counter,
  (forall i, (i < counter)%nat -> is_Some (amap !! candidate orig i)) ->
  (size amap <= counter + turns)%nat ->
  exists k,
    (counter <= k)%nat /\
    dedup_loop turns amap orig counter (candidate orig counter) = candidate orig k /\
    amap !! candidate orig k = None /\
    (forall i, (i < k)%nat -> is_Some (amap !! candidate orig i)).
Proof.
  induction turns as [|turns IH]; intros counter Hbelow Hsize; cbn [dedup_loop].
  - destruct (bool_decide (is_Some (amap !! candidate orig counter))) eqn:Hd.
    + apply bool_decide_eq_true in Hd. exfalso.
      assert (S counter <= size amap)%nat; [|lia].
      apply (candidates_bound amap orig). intros i Hi.
      destruct (decide (i = counter)) as [->|]; [done|]. apply Hbelow. lia.
    + apply bool_decide_eq_false in Hd. exists counter.
      split_and!; [lia | done | | done].
      by apply eq_None_not_Some.
  - destruct (bool_decide (is_Some (amap !! candidate orig counter))) eqn:Hd.
    + apply bool_decide_eq_true in Hd.
      destruct (IH (S counter)) as (k & Hk & Heq & Hfree & Hall).
      { intros i Hi. destruct (decide (i = counter)) as [->|]; [done|].
        apply Hbelow. lia. }
      { lia. }
      exists k. split_and!; [lia | exact Heq | done | done].
    + apply bool_decide_eq_false in Hd. exists counter.
      split_and!; [lia | done | | done].
      by apply eq_None_not_Some.
Qed.

(** The loop ends on a free name: the first candidate that is not a key. *)
Lemma dedup_alias_spec (amap : gmap string (node * string)) (orig : string) :
  exists k,
    dedup_alias amap orig = candidate orig k /\
    amap !! candidate orig k = None /\
    (forall i, (i < k)%nat -> is_Some (amap !! candidate orig i)).
Proof.
  unfold dedup_alias.
  destruct (dedup_loop_spec amap orig (size amap) 0) as (k & _ & Heq & Hfree & Hall).
  { intros i Hi. lia. }
  { lia. }
  exists k. by split_and!.
Qed.

Lemma dedup_alias_fresh amap orig : amap !! dedup_alias amap orig = None.
Proof. destruct (dedup_alias_spec amap orig) as (k & -> & Hfree & _). done. Qed.

Lemma dedup_alias_free amap orig : amap !! orig = None -> dedup_alias amap orig = orig.
Proof.
  intros Hnone. destruct (dedup_alias_spec amap orig) as (k & -> & _ & Hall).
  destruct k as [|k]; [done|].
  destruct (Hall 0%nat ltac:(lia)) as [x Hx]. simpl in Hx. congruence.
Qed.

Lemma dedup_alias_taken amap orig :
  is_Some (amap !! orig) ->
  exists k, (1 <= k)%nat /\ dedup_alias amap orig = orig +:+ "_" +:+ pretty k.
Proof.
  intros [x Hx]. destruct (dedup_alias_spec amap orig) as (k & -> & Hfree & _).
  destruct k as [|k]; [simpl in Hfree; congruence|].
  exists (S k). split; [lia | done].
Qed.

(** *** Inversion of handlers *)

Lemma bind_ret_inv {A B} (m : M A) (k : A -> M B) w b w' :
  bind m k w = (Ret b, w') ->
  exists a w1, m w = (Ret a, w1) /\ k a w1 = (Ret b, w').
Proof.
  unfold bind. destruct (m w) as [[a|e] w1]; [|discriminate]. eauto.
Qed.

Lemma try_ret_inv {A} (m : M A) (h : exn -> M A) w a w' :
  try_except m h w = (Ret a, w') ->
  m w = (Ret a, w') \/ exists e w1, m w = (Exn e, w1) /\ h e w1 = (Ret a, w').
Proof.
  unfold try_except. destruct (m w) as [[a0|e] w1]; [left; congruence|].
  right. eauto.
Qed.

Lemma bind_exn_inv {A B} (m : M A) (k : A -> M B) w e w' :
  bind m k w = (Exn e, w') ->
  m w = (Exn e, w') \/ exists a w1, m w = (Ret a, w1) /\ k a w1 = (Exn e, w').
Proof.
  unfold bind. destruct (m w) as [[a|e0] w1]; [right; eauto | left; congruence].
Qed.

(** *** The node loop *)

Lemma actual_def_total (wd : bool) n :
  never_raises (if wd then bind (_get_node_def_id n) (fun d => ret (Some d))
                else ret None).
Proof.
  destruct wd; [|apply nr_ret].
  apply nr_bind; [apply _get_node_def_id_total | intros; apply nr_ret].
Qed.

Lemma node_step_total wd um nm g known orig st spec :
  never_raises (node_step wd um nm g known orig st spec).
Proof. unfold node_step. apply nr_try. intros. apply nr_ret. Qed.

Lemma node_step_success wd um nm g known orig st spec w n nid w1 :
  spec_attempt um nm g known spec w = (Ret (n, nid), w1) ->
  exists d w2,
    node_step wd um nm g known orig st spec w
    = (Ret {| alias_map := <[dedup_alias (alias_map st) orig := (n, nid)]> (alias_map st);
              created := created st
                         ++ [{| ce_alias := dedup_alias (alias_map st) orig;
                                ce_node_id := nid; ce_definition := d |}];
              failed := failed st |}, w2).
Proof.
  intros Hatt. unfold node_step, try_except. unfold bind at 1. rewrite Hatt.
  unfold bind at 1.
  destruct (actual_def_total wd n w1) as (d & w2 & ->).
  by exists d, w2.
Qed.

(** A turn of the node loop either registers the node under a fresh alias
    and appends an entry to [created], or appends an entry to [failed]. *)
Lemma node_step_cases wd um nm g known orig st spec w st' w' :
  node_step wd um nm g known orig st spec w = (Ret st', w') ->
  (exists n nid d,
     alias_map st' = <[dedup_alias (alias_map st) orig := (n, nid)]> (alias_map st)
     /\ created st' = created st ++ [{| ce_alias := dedup_alias (alias_map st) orig;
                                        ce_node_id := nid; ce_definition := d |}]
     /\ failed st' = failed st)
  \/ (exists msg,
        alias_map st' = alias_map st /\ created st' = created st
        /\ failed st' = failed st ++ [{| fe_alias := orig; fe_error := msg |}]).
Proof.
  unfold node_step, try_except. unfold bind at 1.
  destruct (spec_attempt um nm g known spec w) as [[[n nid]|e] w1].
  - unfold bind at 1. destruct (actual_def_total wd n w1) as (d & w2 & ->).
    intros [= <- <-]. left. by exists n, nid, d.
  - intros [= <- <-]. right. by eexists.
Qed.

Lemma node_step_grows wd um nm g known orig st spec w st' w' :
  node_step wd um nm g known orig st spec w = (Ret st', w') ->
  alias_map st ⊆ alias_map st'.
Proof.
  intros Hstep.
  destruct (node_step_cases _ _ _ _ _ _ _ _ _ _ _ Hstep)
    as [(n & nid & d & -> & _ & _) | (msg & -> & _ & _)]; [|done].
  apply insert_subseteq, dedup_alias_fresh.
Qed.

Lemma batch_nodes_total g known nodes : forall st,
  never_raises (batch_nodes g known st nodes).
Proof.
  induction nodes as [|spec rest IH]; intros st; cbn [batch_nodes].
  - apply nr_ret.
  - apply nr_bind; [apply node_step_total | intros; apply IH].
Qed.

Lemma recipe_nodes_total g known nodes : forall st,
  never_raises (recipe_nodes g known st nodes).
Proof.
  induction nodes as [|spec rest IH]; intros st; cbn [recipe_nodes].
  - apply nr_ret.
  - apply nr_bind; [apply node_step_total | intros; apply IH].
Qed.

(** The node loop only adds: aliases stay registered, entries of [created]
    stay, and [failed] grows by at most one entry per spec. *)
Lemma batch_nodes_grows g known nodes : forall st w st' w',
  batch_nodes g known st nodes w = (Ret st', w') ->
  alias_map st ⊆ alias_map st'
  /\ (forall e, e ∈ created st -> e ∈ created st')
  /\ (length (failed st') <= length (failed st) + length nodes)%nat.
Proof.
  induction nodes as [|spec rest IH]; intros st w st' w'; cbn [batch_nodes].
  - intros [= <- <-]. split_and!; [done | done | lia].
  - intros Hrun. apply bind_ret_inv in Hrun as (st1 & w1 & Hstep & Hrest).
    destruct (IH _ _ _ _ Hrest) as (Hsub & Hin & Hlen).
    pose proof (node_step_grows _ _ _ _ _ _ _ _ _ _ _ Hstep) as Hsub1.
    split_and!.
    + by etrans.
    + intros e He. apply Hin.
      destruct (node_step_cases _ _ _ _ _ _ _ _ _ _ _ Hstep)
        as [(n & nid & d & _ & -> & _) | (msg & _ & -> & _)]; [|done].
      apply elem_of_app. by left.
    + destruct (node_step_cases _ _ _ _ _ _ _ _ _ _ _ Hstep)
        as [(n & nid & d & _ & _ & Hf) | (msg & _ & _ & Hf)];
        rewrite Hf in Hlen; [|rewrite length_app in Hlen]; simpl in *; lia.
Qed.

Lemma batch_nodes_app g known l1 l2 : forall st w,
  batch_nodes g known st (l1 ++ l2) w
  = bind (batch_nodes g known st l1) (fun st' => batch_nodes g known st' l2) w.
Proof.
  induction l1 as [|spec rest IH]; intros st w; cbn [batch_nodes app].
  - reflexivity.
  - unfold bind.
    destruct (node_step true batch_unknown_msg batch_none_msg g known
                (batch_alias spec) st spec w) as [[st1|e] w1]; [|reflexivity].
    rewrite IH. reflexivity.
Qed.

(** *** The connection loop *)

Lemma batch_conn_step_total g amap conn : never_raises (batch_conn_step g amap conn).
Proof.
  unfold batch_conn_step.
  destruct (lookup_alias amap _) as [[fa [fn fid]]|]; [|apply nr_ret].
  destruct (lookup_alias amap _) as [[ta [tn tid]]|]; [|apply nr_ret].
  apply nr_try. intros. apply nr_ret.
Qed.

Lemma recipe_conn_step_total g amap conn : never_raises (recipe_conn_step g amap conn).
Proof.
  unfold recipe_conn_step.
  destruct (lookup_alias amap _) as [[fa [fn fid]]|]; [|apply nr_ret].
  destruct (lookup_alias amap _) as [[ta [tn tid]]|]; [|apply nr_ret].
  apply nr_try. intros. apply nr_ret.
Qed.

Lemma batch_conn_step_unresolved g amap conn w :
  unresolved amap conn = true ->
  exists msg, batch_conn_step g amap conn w = (Ret (ConnUnresolved msg conn), w).
Proof.
  unfold unresolved, batch_conn_step. intros Hu.
  destruct (lookup_alias amap (or_str (c_from conn) (c_from_alias conn)))
    as [[fa [fn fid]]|]; [|by eexists].
  destruct (lookup_alias amap (or_str (c_to conn) (c_to_alias conn)))
    as [[ta [tn tid]]|]; [discriminate | by eexists].
Qed.

Lemma recipe_conn_step_unresolved g amap conn w :
  unresolved amap conn = true ->
  exists msg, recipe_conn_step g amap conn w = (Ret (ConnUnresolved msg conn), w).
Proof.
  unfold unresolved, recipe_conn_step. intros Hu.
  destruct (lookup_alias amap (or_str (c_from conn) (c_from_alias conn)))
    as [[fa [fn fid]]|]; [|by eexists].
  destruct (lookup_alias amap (or_str (c_to conn) (c_to_alias conn)))
    as [[ta [tn tid]]|]; [discriminate | by eexists].
Qed.

Lemma batch_conn_step_reported g amap conn w r w' :
  batch_conn_step g amap conn w = (Ret r, w') -> reported amap conn r.
Proof.
  unfold reported, batch_conn_step.
  destruct (lookup_alias amap (or_str (c_from conn) (c_from_alias conn)))
    as [[fa [fn fid]]|]; [|intros [= <- <-]; by eexists].
  destruct (lookup_alias amap (or_str (c_to conn) (c_to_alias conn)))
    as [[ta [tn tid]]|]; [|intros [= <- <-]; by eexists].
  unfold try_except, bind.
  destruct (_safe_connect g fn _ tn _ w) as [[b|e] w1]; intros [= <- <-];
    [by left | right; by eexists].
Qed.

Lemma recipe_conn_step_reported g amap conn w r w' :
  recipe_conn_step g amap conn w = (Ret r, w') -> reported amap conn r.
Proof.
  unfold reported, recipe_conn_step.
  destruct (lookup_alias amap (or_str (c_from conn) (c_from_alias conn)))
    as [[fa [fn fid]]|]; [|intros [= <- <-]; by eexists].
  destruct (lookup_alias amap (or_str (c_to conn) (c_to_alias conn)))
    as [[ta [tn tid]]|]; [|intros [= <- <-]; by eexists].
  unfold try_except, bind.
  destruct (_safe_connect g fn _ tn _ w) as [[b|e] w1]; intros [= <- <-];
    [by left | right; by eexists].
Qed.

Lemma batch_conn_step_events g amap conn :
  emits conn_phase_event (batch_conn_step g amap conn).
Proof.
  unfold batch_conn_step.
  destruct (lookup_alias amap _) as [[fa [fn fid]]|]; [|apply emits_ret].
  destruct (lookup_alias amap _) as [[ta [tn tid]]|]; [|apply emits_ret].
  apply emits_try; [|intros; apply emits_ret].
  apply emits_bind; [apply _safe_connect_events | intros; apply emits_ret].
Qed.

Lemma recipe_conn_step_events g amap conn :
  emits conn_phase_event (recipe_conn_step g amap conn).
Proof.
  unfold recipe_conn_step.
  destruct (lookup_alias amap _) as [[fa [fn fid]]|]; [|apply emits_ret].
  destruct (lookup_alias amap _) as [[ta [tn tid]]|]; [|apply emits_ret].
  apply emits_try; [|intros; apply emits_ret].
  apply emits_bind; [apply _safe_connect_events | intros; apply emits_ret].
Qed.

Lemma conn_loop_events P step conns :
  (forall c, emits P (step c)) -> emits P (conn_loop step conns).
Proof.
  intros Hs. induction conns as [|c rest IH]; cbn [conn_loop]; emits_auto.
Qed.

(** A loop whose steps cannot raise gives one entry per spec, in order. *)
Lemma conn_loop_results step amap conns :
  (forall c, never_raises (step c)) ->
  (forall c w r w', step c w = (Ret r, w') -> reported amap c r) ->
  forall w, exists rs w',
    conn_loop step conns w = (Ret rs, w') /\ Forall2 (reported amap) conns rs.
Proof.
  intros Htot Hrep. induction conns as [|c rest IH]; intros w; cbn [conn_loop].
  - eexists _, _. split; [reflexivity | constructor].
  - unfold bind. destruct (Htot c w) as (r & w1 & Hstep). rewrite Hstep.
    destruct (IH w1) as (rs & w2 & Hrest & Hall). rewrite Hrest.
    eexists _, _. split; [reflexivity|]. constructor; [|done].
    by eapply Hrep.
Qed.

Lemma count_ok_failed rs : (count_ok rs + count_failed rs = length rs)%nat.
Proof.
  unfold count_ok, count_failed.
  induction rs as [|r rs IH]; [done|].
  rewrite !filter_cons. destruct r; simpl;
    repeat case_decide; try done; simpl; lia.
Qed.

(** An entry is an error entry exactly for a spec with an alias that is
    not registered. *)
Lemma reported_unresolved amap conn r :
  reported amap conn r ->
  (unresolved amap conn = true <-> exists msg, r = ConnUnresolved msg conn)
  /\ (unresolved amap conn = true -> conn_success r = false).
Proof.
  unfold reported, unresolved.
  destruct (lookup_alias amap (or_str (c_from conn) (c_from_alias conn)))
    as [[fa [fn fid]]|];
    [destruct (lookup_alias amap (or_str (c_to conn) (c_to_alias conn)))
       as [[ta [tn tid]]|]|].
  - intros [->|[err ->]]; (split; [split; [done | by intros [? [=]]] | done]).
  - intros [msg ->]. split; [split; [by eexists | done] | done].
  - intros [msg ->]. split; [split; [by eexists | done] | done].
Qed.

Lemma reported_counted amap conns rs :
  Forall2 (reported amap) conns rs ->
  (length (filter (fun c => unresolved amap c = true) conns) <= count_failed rs)%nat.
Proof.
  unfold count_failed. induction 1 as [|c r conns rs Hr Hall IH]; [done|].
  rewrite !filter_cons.
  destruct (decide (unresolved amap c = true)) as [Hu|Hu].
  - pose proof (proj2 (reported_unresolved _ _ _ Hr) Hu) as Hf.
    destruct (decide (conn_success r = false)); [simpl; lia | done].
  - destruct (decide (conn_success r = false)); simpl; lia.
Qed.

(** *** The builders as a whole *)

Lemma _resolve_package_reads idx path : emits is_query (_resolve_package idx path).
Proof.
  unfold _resolve_package.
  apply emits_bind; [by apply emits_hostcall|]. intros pkgs.
  assert (Hfind : forall p l, emits is_query (find_package_by_path p l)).
  { intros p l. induction l as [|pkg rest IH]; cbn [find_package_by_path]; emits_auto. }
  destruct path as [[|c path]|]; emits_auto; apply Hfind.
Qed.

Lemma known_defs_or_empty_reads g : emits is_query (known_defs_or_empty g).
Proof. unfold known_defs_or_empty. emits_auto. Qed.

Lemma known_defs_or_empty_total g : never_raises (known_defs_or_empty g).
Proof. unfold known_defs_or_empty. apply nr_try. intros. apply nr_ret. Qed.

Lemma batch_graph_setup_events name idx path size :
  emits no_connect (batch_graph_setup name idx path size).
Proof.
  unfold batch_graph_setup.
  apply emits_bind.
  { eapply emits_weaken; [apply query_not_connect | apply _resolve_package_reads]. }
  intros pkg. apply emits_bind; [by apply emits_hostcall|]. intros g.
  apply emits_bind; [by apply emits_hostcall|]. intros _.
  apply emits_bind; [emits_auto|]. intros _.
  apply emits_bind; [|intros; apply emits_ret].
  eapply emits_weaken; [apply query_not_connect | apply known_defs_or_empty_reads].
Qed.

Lemma emits_app {A B} P (m : M A) (k : M B) w a w1 r w2 :
  emits P m -> emits P k -> m w = (a, w1) -> k w1 = (r, w2) ->
  exists evs, w_trace w2 = w_trace w ++ evs /\ Forall P evs.
Proof.
  intros Hm Hk Em Ek.
  destruct (Hm _ _ _ Em) as (e1 & Ht1 & Hf1).
  destruct (Hk _ _ _ Ek) as (e2 & Ht2 & Hf2).
  exists (e1 ++ e2). rewrite Ht2, Ht1, app_assoc.
  split; [done | by apply Forall_app].
Qed.

(** Once the graph is set up, [create_batch_graph] runs its two loops one
    after the other and returns its report, unless the last call,
    [graph.getIdentifier()], raises. *)
Lemma create_batch_graph_runs name idx path nodes conns size open w g known w0 :
  batch_graph_setup name idx path size w = (Ret (g, known), w0) ->
  exists st w1 rs w2 w3,
    batch_nodes g known empty_state nodes w0 = (Ret st, w1)
    /\ conn_loop (batch_conn_step g (alias_map st)) conns w1 = (Ret rs, w2)
    /\ Forall2 (reported (alias_map st)) conns rs
    /\ (exists evs1, w_trace w1 = w_trace w ++ evs1 /\ Forall no_connect evs1)
    /\ (exists evs2, w_trace w3 = w_trace w1 ++ evs2 /\ Forall conn_phase_event evs2)
    /\ create_batch_graph name idx path nodes conns size open w
       = bind (hostcall (res_getIdentifier g))
              (fun gid =>
                 ret {| graph_identifier := gid;
                        requested_name := name;
                        nodes_created := length (created st);
                        nodes_failed := length (failed st);
                        connections_ok := count_ok rs;
                        connections_failed := count_failed rs;
                        node_map := snd <$> alias_map st;
                        nodes_report := created st;
                        failed_nodes := failed st;
                        connections_report := rs |}) w3.
Proof.
  intros Hsetup.
  destruct (batch_nodes_total g known nodes empty_state w0) as (st & w1 & Hnodes).
  destruct (conn_loop_results (batch_conn_step g (alias_map st)) (alias_map st) conns
              (batch_conn_step_total g (alias_map st))
              (batch_conn_step_reported g (alias_map st)) w1)
    as (rs & w2 & Hloop & Hrep).
  set (editor := if open
                 then try_except (hostcall (openResourceInEditor g)) (fun _ => ret tt)
                 else ret tt).
  assert (Hed : exists w3, editor w2 = (Ret tt, w3)).
  { unfold editor. destruct open; [|by eexists].
    unfold try_except, hostcall, ret.
    destruct (host_step _ (openResourceInEditor g) (w_host w2)) as [[[]|e] h]; by eexists. }
  destruct Hed as (w3 & Hed).
  exists st, w1, rs, w2, w3. split_and!; [done | done | done | | |].
  - eapply (emits_app no_connect); [apply batch_graph_setup_events | | exact Hsetup
                                   | exact Hnodes].
    eapply emits_weaken; [|apply (batch_nodes_events g known)]. by intros e [? _].
  - eapply (emits_app conn_phase_event); [ | | exact Hloop | exact Hed].
    + apply conn_loop_events. intros. apply batch_conn_step_events.
    + unfold editor. destruct open; emits_auto. by left.
  - unfold create_batch_graph. unfold bind at 1. rewrite Hsetup.
    unfold bind at 1. rewrite Hnodes. unfold bind at 1. rewrite Hloop.
    unfold bind at 1. fold editor. rewrite Hed. reflexivity.
Qed.

Lemma create_batch_graph_returns name idx path nodes conns size open w g known w0 :
  batch_graph_setup name idx path size w = (Ret (g, known), w0) ->
  names_graph g ->
  exists st w1 rs w2 r w',
    batch_nodes g known empty_state nodes w0 = (Ret st, w1)
    /\ conn_loop (batch_conn_step g (alias_map st)) conns w1 = (Ret rs, w2)
    /\ Forall2 (reported (alias_map st)) conns rs
    /\ (exists evs1, w_trace w1 = w_trace w ++ evs1 /\ Forall no_connect evs1)
    /\ (exists evs2, w_trace w' = w_trace w1 ++ evs2 /\ Forall conn_phase_event evs2)
    /\ create_batch_graph name idx path nodes conns size open w = (Ret r, w')
    /\ nodes_report r = created st /\ failed_nodes r = failed st
    /\ nodes_created r = length (created st) /\ nodes_failed r = length (failed st)
    /\ node_map r = snd <$> alias_map st
    /\ connections_report r = rs
    /\ connections_ok r = count_ok rs /\ connections_failed r = count_failed rs.
Proof.
  intros Hsetup Hname.
  destruct (create_batch_graph_runs name idx path nodes conns size open _ _ _ _ Hsetup)
    as (st & w1 & rs & w2 & w3 & Hnodes & Hloop & Hrep & Hev1 & (evs2 & Ht2 & Hf2) & Hrun).
  destruct (Hname (w_host w3)) as (gid & h' & Hgid).
  exists st, w1, rs, w2. eexists _, _.
  split_and!; [done | done | done | done | | | | | | | | | | ]; last first.
  all: try (rewrite Hrun; unfold bind, hostcall; rewrite Hgid; reflexivity).
  all: try reflexivity.
  exists (evs2 ++ [ev (res_getIdentifier g)]). cbn [w_trace].
  split; [by rewrite Ht2, app_assoc|].
  apply Forall_app. split; [done|]. constructor; [by left | constructor].
Qed.

(** C7. A request to [create_batch_graph] with two node specs of the same
    alias [a], whatever specs come before, between and after them and
    whatever the connections: when the graph is set up, both node
    creations succeed at their turn and the graph answers the final
    [getIdentifier()], the handler returns, and its report holds both
    nodes.  The second is registered under [a_k] for some [k >= 1], the
    first under another name, which is [a] itself unless an earlier spec
    took [a]; [node_map] maps the two names to the two node ids, the list
    of created nodes has an entry for each, and no more specs are counted
    as failed than there are other specs. *)
Theorem alias_collision_keeps_both_nodes
    name idx path size open conns pre s1 mid s2 post a
    w g known w0 st0 w1 n1 id1 w1a st1 w2 st2 w3 n2 id2 w3a :
  batch_alias s1 = a -> batch_alias s2 = a ->
  batch_graph_setup name idx path size w = (Ret (g, known), w0) ->
  batch_nodes g known empty_state pre w0 = (Ret st0, w1) ->
  spec_attempt batch_unknown_msg batch_none_msg g known s1 w1 = (Ret (n1, id1), w1a) ->
  node_step true batch_unknown_msg batch_none_msg g known a st0 s1 w1 = (Ret st1, w2) ->
  batch_nodes g known st1 mid w2 = (Ret st2, w3) ->
  spec_attempt batch_unknown_msg batch_none_msg g known s2 w3 = (Ret (n2, id2), w3a) ->
  names_graph g ->
  exists r w' a1 k,
    create_batch_graph name idx path (pre ++ s1 :: mid ++ s2 :: post) conns size open w
    = (Ret r, w')
    /\ (1 <= k)%nat
    /\ a1 <> a +:+ "_" +:+ pretty k
    /\ (a1 = a \/ exists j, (1 <= j)%nat /\ a1 = a +:+ "_" +:+ pretty j)
    /\ (alias_map st0 !! a = None -> a1 = a)
    /\ node_map r !! a1 = Some id1
    /\ node_map r !! (a +:+ "_" +:+ pretty k) = Some id2
    /\ (exists d1, {| ce_alias := a1; ce_node_id := id1; ce_definition := d1 |}
                   ∈ nodes_report r)
    /\ (exists d2, {| ce_alias := a +:+ "_" +:+ pretty k; ce_node_id := id2;
                      ce_definition := d2 |} ∈ nodes_report r)
    /\ (nodes_failed r <= length pre + length mid + length post)%nat.
Proof.
  intros Ha1 Ha2 Hsetup Hpre Hatt1 Hstep1 Hmid Hatt2 Hname.
  destruct (create_batch_graph_returns name idx path (pre ++ s1 :: mid ++ s2 :: post)
              conns size open _ _ _ _ Hsetup Hname)
    as (st4 & w4 & rs & w5 & r & w' & Hnodes & _ & _ & _ & _ & Hrun
        & Hrep & _ & _ & Hnf & Hmap & _).
  destruct (node_step_success true batch_unknown_msg batch_none_msg g known a st0 s1
              w1 n1 id1 w1a Hatt1) as (d1 & w1x & Hs1).
  rewrite Hstep1 in Hs1. injection Hs1 as Hst1 _.
  set (a1 := dedup_alias (alias_map st0) a) in *.
  destruct (node_step_success true batch_unknown_msg batch_none_msg g known a st2 s2
              w3 n2 id2 w3a Hatt2) as (d2 & w3' & Hs2).
  set (a2 := dedup_alias (alias_map st2) a) in *.
  set (st3 := {| alias_map := <[a2 := (n2, id2)]> (alias_map st2);
                 created := created st2 ++ [{| ce_alias := a2; ce_node_id := id2;
                                               ce_definition := d2 |}];
                 failed := failed st2 |}) in *.
  (* the run of the node loop, cut at the two specs *)
  rewrite batch_nodes_app in Hnodes. unfold bind at 1 in Hnodes. rewrite Hpre in Hnodes.
  cbn [batch_nodes] in Hnodes. unfold bind at 1 in Hnodes.
  rewrite Ha1, Hstep1 in Hnodes.
  rewrite batch_nodes_app in Hnodes. unfold bind at 1 in Hnodes. rewrite Hmid in Hnodes.
  cbn [batch_nodes] in Hnodes. unfold bind at 1 in Hnodes.
  rewrite Ha2, Hs2 in Hnodes.
  destruct (batch_nodes_grows _ _ _ _ _ _ _ Hpre) as (_ & _ & Hf0).
  destruct (batch_nodes_grows _ _ _ _ _ _ _ Hmid) as (Hsub12 & Hin12 & Hf2).
  destruct (batch_nodes_grows _ _ _ _ _ _ _ Hnodes) as (Hsub34 & Hin34 & Hf4).
  assert (H1in : alias_map st1 !! a1 = Some (n1, id1)).
  { rewrite Hst1. cbn [alias_map]. apply lookup_insert_eq. }
  assert (Hfree1 : alias_map st0 !! a1 = None) by apply dedup_alias_fresh.
  assert (Hain : is_Some (alias_map st1 !! a)).
  { destruct (alias_map st0 !! a) as [x|] eqn:Hx.
    - exists x. rewrite Hst1. cbn [alias_map].
      rewrite lookup_insert_ne; [done|]. intros ->. congruence.
    - exists (n1, id1). unfold a1 in H1in. by rewrite (dedup_alias_free _ _ Hx) in H1in. }
  assert (Hain2 : is_Some (alias_map st2 !! a)).
  { destruct Hain as [x Hx]. exists x. by eapply lookup_weaken. }
  destruct (dedup_alias_taken _ _ Hain2) as (k & Hk & Hka2). fold a2 in Hka2.
  assert (Hfree2 : alias_map st2 !! a2 = None) by apply dedup_alias_fresh.
  assert (H1in2 : alias_map st2 !! a1 = Some (n1, id1)) by by eapply lookup_weaken.
  assert (Hne : a1 <> a2) by (intros Heq; congruence).
  assert (H1in4 : alias_map st4 !! a1 = Some (n1, id1)).
  { eapply lookup_weaken; [|exact Hsub34]. unfold st3. cbn [alias_map].
    by rewrite lookup_insert_ne. }
  assert (H2in4 : alias_map st4 !! a2 = Some (n2, id2)).
  { eapply lookup_weaken; [|exact Hsub34]. unfold st3. cbn [alias_map].
    apply lookup_insert_eq. }
  exists r, w', a1, k. rewrite <- Hka2.
  split_and!.
  - exact Hrun.
  - done.
  - done.
  - destruct (alias_map st0 !! a) as [x|] eqn:Hx.
    + right. destruct (dedup_alias_taken (alias_map st0) a) as (j & Hj & Hja); eauto.
    + left. unfold a1. by apply dedup_alias_free.
  - intros Hnone. unfold a1. by apply dedup_alias_free.
  - by rewrite Hmap, lookup_fmap, H1in4.
  - by rewrite Hmap, lookup_fmap, H2in4.
  - exists d1. rewrite Hrep. apply Hin34. unfold st3. cbn [created].
    apply elem_of_app. left. apply Hin12. rewrite Hst1. cbn [created].
    apply elem_of_app. right. by apply list_elem_of_singleton.
  - exists d2. rewrite Hrep. apply Hin34. unfold st3. cbn [created].
    apply elem_of_app. right. by apply list_elem_of_singleton.
  - rewrite Hnf. unfold st3 in Hf4. cbn [failed] in Hf4.
    assert (failed st1 = failed st0) as Hf1 by (by rewrite Hst1).
    rewrite Hf1 in Hf2. cbn [failed empty_state length] in Hf0. lia.
Qed.

(** *** Library resolver *)

Lemma search_outcome_cache key w w1 r w' :
  w_cache w1 = w_cache w -> search_outcome key w1 r w' -> search_outcome key w r w'.
Proof. unfold search_outcome. intros ->. done. Qed.

Lemma scan_children_outcome key children : forall w r w',
  scan_children key children w = (r, w') -> search_outcome key w r w'.
Proof.
  induction children as [|res rest IH]; intros w r w'; cbn [scan_children].
  { intros [= <- <-]. by left. }
  unfold bind at 1, try_except at 1, bind at 1, hostcall at 1.
  destruct (host_step string (res_getClassName res) (w_host w)) as [[cname|e] h1].
  2:{ cbn. intros Hrest. eapply search_outcome_cache; [|by eapply IH]. done. }
  destruct (negb (str_contains "SDSBSCompGraph" cname)).
  { cbn. intros Hrest. eapply search_outcome_cache; [|by eapply IH]. done. }
  unfold bind at 1, hostcall at 1. cbn [w_host].
  destruct (host_step string (res_getIdentifier res) h1) as [[rid|e] h2] eqn:Hid.
  2:{ cbn. intros Hrest. eapply search_outcome_cache; [|by eapply IH]. done. }
  destruct (str_contains key (lower rid)) eqn:Hmatch.
  2:{ cbn. intros Hrest. eapply search_outcome_cache; [|by eapply IH]. done. }
  unfold bind at 1, try_except at 1, hostcall at 1. cbn [w_host].
  destruct (host_step string (res_getUrl res) h2) as [[url|e] h3] eqn:Hurl.
  - destruct (negb (String.eqb url "")) eqn:Hne.
    + cbn. intros [= <- <-]. right. exists url, rid. split_and!; [done | | done].
      exists res, h1, h2, (w_trace w ++ [ev (res_getClassName res)]).
      cbn [w_host w_trace]. split_and!; [done | done | | done |].
      * by rewrite <- !app_assoc.
      * intros ->. discriminate.
    + cbn. intros Hrest. eapply search_outcome_cache; [|by eapply IH]. done.
  - cbn. intros Hrest. eapply search_outcome_cache; [|by eapply IH]. done.
Qed.

Lemma scan_modes_outcome key pkg modes : forall w r w',
  scan_modes key pkg modes w = (r, w') -> search_outcome key w r w'.
Proof.
  induction modes as [|recursive rest IH]; intros w r w'; cbn [scan_modes].
  { intros [= <- <-]. by left. }
  unfold bind at 1, try_except at 1, bind at 1, hostcall at 1.
  destruct (host_step (list resource) (pkg_getChildrenResources pkg recursive) (w_host w))
    as [[children|e] h1].
  2:{ cbn. intros Hrest. eapply search_outcome_cache; [|by eapply IH]. done. }
  destruct children as [|c cs].
  { cbn. intros Hrest. eapply search_outcome_cache; [|by eapply IH]. done. }
  unfold bind at 1.
  match goal with
  | |- context [scan_children key (c :: cs) ?w0] =>
      destruct (scan_children key (c :: cs) w0) as [rc wc] eqn:Hsc
  end.
  apply scan_children_outcome in Hsc.
  destruct Hsc as [[-> Hc]|(url & rid & -> & Hm & Hc)].
  - cbn. intros [= <- <-]. left. by split.
  - cbn. intros [= <- <-]. right. by exists url, rid.
Qed.

Lemma scan_packages_outcome key pkgs : forall w r w',
  scan_packages key pkgs w = (r, w') -> search_outcome key w r w'.
Proof.
  induction pkgs as [|pkg rest IH]; intros w r w'; cbn [scan_packages].
  { intros [= <- <-]. by left. }
  unfold bind at 1, try_except at 1, bind at 1, hostcall at 1.
  destruct (host_step string (pkg_getFilePath pkg) (w_host w)) as [[fp|e] h1].
  2:{ cbn. intros Hrest. eapply search_outcome_cache; [|by eapply IH]. done. }
  destruct (String.eqb fp "").
  { cbn. intros Hrest. eapply search_outcome_cache; [|by eapply IH]. done. }
  match goal with
  | |- context [scan_modes key pkg [true; false] ?w0] =>
      destruct (scan_modes key pkg [true; false] w0) as [rc wc] eqn:Hsc
  end.
  apply scan_modes_outcome in Hsc.
  destruct Hsc as [[-> Hc]|(url & rid & -> & Hm & Hc)].
  - intros Hrest. eapply search_outcome_cache; [|by eapply IH]. done.
  - intros [= <- <-]. right. by exists url, rid.
Qed.

Lemma _resolve_lib_url_hit keyword w url :
  w_cache w !! lower keyword = Some url ->
  _resolve_lib_url keyword w = (Ret (Some url), w).
Proof.
  intros Hhit. unfold _resolve_lib_url, bind, get_cache. by rewrite Hhit.
Qed.

(** A resolution that finds the key in the cache changes nothing; one that
    does not is a search, started by [getPackages]. *)
Lemma _resolve_lib_url_outcome keyword w r w' :
  _resolve_lib_url keyword w = (r, w') ->
  (exists url, w_cache w !! lower keyword = Some url /\ r = Ret (Some url) /\ w' = w)
  \/ (w_cache w !! lower keyword = None
      /\ ((exists e, r = Exn e /\ fst (host_step _ getPackages (w_host w)) = Exn e)
          \/ search_outcome (lower keyword) w r w')).
Proof.
  unfold _resolve_lib_url, bind at 1, get_cache.
  destruct (w_cache w !! lower keyword) as [u|] eqn:Hc.
  { intros [= <- <-]. left. by exists u. }
  intros Hrun. right. split; [done|]. revert Hrun. unfold bind, hostcall.
  destruct (host_step (list package) getPackages (w_host w)) as [[pkgs|e] h1] eqn:Hp.
  - intros Hscan. right. apply scan_packages_outcome in Hscan.
    eapply search_outcome_cache; [|exact Hscan]. done.
  - intros [= <- <-]. left. by exists e.
Qed.

(** C9 (as amended). After a resolution of a keyword has succeeded, the
    cache holds the URL under the lower-cased keyword, and resolving the
    keyword again, then or in any later state whose cache still holds that
    entry, returns the same URL and leaves the world as it is: no call is
    made on the host, so no package is searched.  When the first resolution
    had to search, the URL is the one the host gave for the resource on
    which the search ended, whose identifier holds the keyword, and the
    cache has changed in exactly two places: the lower-cased keyword and the
    lower-cased identifier of that resource both map to the URL.  When it
    was itself a cache hit it changed nothing. *)
Theorem resolve_lib_url_is_cached keyword w url w1 :
  _resolve_lib_url keyword w = (Ret (Some url), w1) ->
  w_cache w1 !! lower keyword = Some url
  /\ _resolve_lib_url keyword w1 = (Ret (Some url), w1)
  /\ (forall w2, w_cache w2 !! lower keyword = Some url ->
                 _resolve_lib_url keyword w2 = (Ret (Some url), w2))
  /\ (w_cache w !! lower keyword = None ->
      exists rid,
        matched (lower keyword) w1 rid url
        /\ w_cache w1 = <[lower rid := url]> (<[lower keyword := url]> (w_cache w)))
  /\ (is_Some (w_cache w !! lower keyword) -> w1 = w).
Proof.
  intros Hres.
  assert (Hc : w_cache w1 !! lower keyword = Some url).
  { destruct (_resolve_lib_url_outcome _ _ _ _ Hres)
      as [(u & Hu & [= ->] & ->) | (_ & [(e & [=] & _) | [[[=] _] | Hfound]])]; [done|].
    destruct Hfound as (u & rid & [= <-] & _ & ->).
    destruct (decide (lower rid = lower keyword)) as [->|Hne].
    - apply lookup_insert_eq.
    - rewrite lookup_insert_ne by done. apply lookup_insert_eq. }
  split_and!.
  - done.
  - by apply _resolve_lib_url_hit.
  - intros w2. apply _resolve_lib_url_hit.
  - intros Hnone.
    destruct (_resolve_lib_url_outcome _ _ _ _ Hres)
      as [(u & Hu & _) | (_ & [(e & [=] & _) | [[[=] _] | Hfound]])]; [congruence|].
    destruct Hfound as (u & rid & [= <-] & Hm & Hcache). by exists rid.
  - intros [u Hu].
    destruct (_resolve_lib_url_outcome _ _ _ _ Hres)
      as [(u' & _ & _ & ->) | (Hnone & _)]; [done | congruence].
Qed.

(** C8. With the graph at hand and a graph that answers the final
    [getIdentifier()], [create_batch_graph] and [apply_recipe] return,
    whatever the connection specs.  The connection loop starts in the state
    in which the node loop has ended, and resolves aliases in the alias map
    the whole node loop has built: what the request calls up to there
    holds no connection, what it calls from there on are reads and
    connections.  There is one entry per connection spec, in order: an error
    entry of its own exactly for a spec with an alias that is not
    registered, which is counted in [connections_failed] and costs no call
    to the host; the other specs are attempted and entered as a success or
    a failure.  An exception leaves [create_batch_graph] only from setting
    up the graph or from that final call, and [apply_recipe] only from
    finding the graph or from that final call. *)
Theorem unresolved_alias_fails_one_connection :
  (forall name idx path nodes conns size open w g known w0,
     batch_graph_setup name idx path size w = (Ret (g, known), w0) ->
     names_graph g ->
     exists st w1 r w',
       batch_nodes g known empty_state nodes w0 = (Ret st, w1)
       /\ create_batch_graph name idx path nodes conns size open w = (Ret r, w')
       /\ node_map r = snd <$> alias_map st
       /\ Forall2 (reported (alias_map st)) conns (connections_report r)
       /\ connections_failed r = count_failed (connections_report r)
       /\ (connections_ok r + connections_failed r = length conns)%nat
       /\ (length (filter (fun c => unresolved (alias_map st) c = true) conns)
           <= connections_failed r)%nat
       /\ (exists evs1, w_trace w1 = w_trace w ++ evs1 /\ Forall no_connect evs1)
       /\ (exists evs2, w_trace w' = w_trace w1 ++ evs2
                        /\ Forall conn_phase_event evs2))
  /\ (forall name gid nodes conns w g w0,
        _resolve_graph gid w = (Ret g, w0) ->
        names_graph g ->
        exists known w0' st w1 rs w2 r w',
          known_defs_or_empty g w0 = (Ret known, w0')
          /\ recipe_nodes g known empty_state nodes w0' = (Ret st, w1)
          /\ conn_loop (recipe_conn_step g (alias_map st)) conns w1 = (Ret rs, w2)
          /\ apply_recipe name gid nodes conns w = (Ret r, w')
          /\ r_node_map r = snd <$> alias_map st
          /\ Forall2 (reported (alias_map st)) conns rs
          /\ r_connections_failed r = count_failed rs
          /\ (r_connections_ok r + r_connections_failed r = length conns)%nat
          /\ (length (filter (fun c => unresolved (alias_map st) c = true) conns)
              <= r_connections_failed r)%nat
          /\ (exists evs1, w_trace w1 = w_trace w ++ evs1 /\ Forall no_connect evs1)
          /\ (exists evs2, w_trace w' = w_trace w1 ++ evs2
                           /\ Forall conn_phase_event evs2))
  /\ (forall amap conn r,
        reported amap conn r ->
        (unresolved amap conn = true <-> exists msg, r = ConnUnresolved msg conn)
        /\ (unresolved amap conn = true -> conn_success r = false))
  /\ (forall g amap conn w,
        unresolved amap conn = true ->
        (exists msg, batch_conn_step g amap conn w = (Ret (ConnUnresolved msg conn), w))
        /\ (exists msg, recipe_conn_step g amap conn w
                        = (Ret (ConnUnresolved msg conn), w)))
  /\ (forall name idx path nodes conns size open w e w',
        create_batch_graph name idx path nodes conns size open w = (Exn e, w') ->
        (exists w0, batch_graph_setup name idx path size w = (Exn e, w0))
        \/ (exists g h, fst (host_step string (res_getIdentifier g) h) = Exn e))
  /\ (forall name gid nodes conns w e w',
        apply_recipe name gid nodes conns w = (Exn e, w') ->
        (exists w0, _resolve_graph gid w = (Exn e, w0))
        \/ (exists g h, fst (host_step string (res_getIdentifier g) h) = Exn e)).
Proof.
  split_and!.
  - intros name idx path nodes conns size open w g known w0 Hsetup Hname.
    destruct (create_batch_graph_returns name idx path nodes conns size open
                _ _ _ _ Hsetup Hname)
      as (st & w1 & rs & w2 & r & w' & Hnodes & Hloop & Hrep & Hev1 & Hev2 & Hrun
          & _ & _ & _ & _ & Hmap & Hcr & Hok & Hfail).
    exists st, w1, r, w'. rewrite Hcr, Hok, Hfail.
    split_and!; [done | done | done | done | done | | | done | done].
    + rewrite count_ok_failed. symmetry. by eapply Forall2_length.
    + by apply reported_counted.
  - intros name gid nodes conns w g w0 Hg Hname.
    destruct (known_defs_or_empty_total g w0) as (known & w0' & Hknown).
    destruct (recipe_nodes_total g known nodes empty_state w0') as (st & w1 & Hnodes).
    destruct (conn_loop_results (recipe_conn_step g (alias_map st)) (alias_map st) conns
                (recipe_conn_step_total g (alias_map st))
                (recipe_conn_step_reported g (alias_map st)) w1)
      as (rs & w2 & Hloop & Hrep).
    destruct (Hname (w_host w2)) as (gid' & h' & Hgid).
    exists known, w0', st, w1, rs, w2. eexists _, _.
    split_and!; [done | done | done | | | done | | | | | ]; last first.
    all: try (unfold apply_recipe, bind; rewrite Hg, Hknown, Hnodes, Hloop;
              unfold hostcall; rewrite Hgid; reflexivity).
    all: try reflexivity.
    + cbn [w_trace].
      destruct (conn_loop_events conn_phase_event (recipe_conn_step g (alias_map st))
                  conns (recipe_conn_step_events g (alias_map st)) _ _ _ Hloop)
        as (evs & Ht & Hf).
      exists (evs ++ [ev (res_getIdentifier g)]). split; [by rewrite Ht, app_assoc|].
      apply Forall_app. split; [done|]. constructor; [by left | constructor].
    + destruct (_resolve_graph_reads gid _ _ _ Hg) as (e1 & Ht1 & Hf1).
      destruct (known_defs_or_empty_reads g _ _ _ Hknown) as (e2 & Ht2 & Hf2).
      destruct (recipe_nodes_events g known nodes empty_state _ _ _ Hnodes)
        as (e3 & Ht3 & Hf3).
      exists (e1 ++ e2 ++ e3). split; [by rewrite Ht3, Ht2, Ht1, <- !app_assoc|].
      rewrite !Forall_app. split_and!.
      * eapply Forall_impl; [exact Hf1 | apply query_not_connect].
      * eapply Forall_impl; [exact Hf2 | apply query_not_connect].
      * eapply Forall_impl; [exact Hf3 | by intros e [? _]].
    + cbn. by apply reported_counted.
    + cbn. rewrite count_ok_failed. symmetry. by eapply Forall2_length.
  - intros amap conn r. apply reported_unresolved.
  - intros g amap conn w Hu. split;
      [by apply batch_conn_step_unresolved | by apply recipe_conn_step_unresolved].
  - intros name idx path nodes conns size open w e w' Hrun.
    destruct (batch_graph_setup name idx path size w) as [[[g known]|e0] w0] eqn:Hsetup.
    + right.
      destruct (create_batch_graph_runs name idx path nodes conns size open _ _ _ _ Hsetup)
        as (st & w1 & rs & w2 & w3 & _ & _ & _ & _ & _ & Heq).
      rewrite Heq in Hrun. unfold bind, hostcall in Hrun.
      exists g, (w_host w3).
      destruct (host_step string (res_getIdentifier g) (w_host w3)) as [[gid|e1] h'];
        [discriminate|]. by injection Hrun as <- _.
    + left. exists w0. unfold create_batch_graph, bind in Hrun. rewrite Hsetup in Hrun.
      by injection Hrun as <- <-.
  - intros name gid nodes conns w e w' Hrun.
    destruct (_resolve_graph gid w) as [[g|e0] w0] eqn:Hg.
    + right.
      destruct (known_defs_or_empty_total g w0) as (known & w0' & Hknown).
      destruct (recipe_nodes_total g known nodes empty_state w0') as (st & w1 & Hnodes).
      destruct (conn_loop_results (recipe_conn_step g (alias_map st)) (alias_map st) conns
                  (recipe_conn_step_total g (alias_map st))
                  (recipe_conn_step_reported g (alias_map st)) w1)
        as (rs & w2 & Hloop & _).
      unfold apply_recipe, bind in Hrun. rewrite Hg, Hknown, Hnodes, Hloop in Hrun.
      unfold hostcall in Hrun. exists g, (w_host w2).
      destruct (host_step string (res_getIdentifier g) (w_host w2)) as [[gid'|e1] h'];
        [discriminate|]. by injection Hrun as <- _.
    + left. exists w0. unfold apply_recipe, bind in Hrun. rewrite Hg in Hrun.
      by injection Hrun as <- <-.
Qed.

End WithHost.

End PluginFacts.

(** ** The properties on the sample host *)

Module Examples.

Import Transport Coercion Plugin Sample.
Import TransportFacts CoercionFacts PluginFacts.

(** A decidable statement holds when its decision procedure says so. *)
Ltac by_decision := apply (bool_decide_unpack _); vm_compute; exact I.

Lemma framed_request_witness :
  _handle_client (fun p => Some p) (fun _ => true)
    [Data [Byte.x00; Byte.x00; Byte.x00]; Data [Byte.x02; Byte.x7b]; Data [Byte.x7d]]
  = Processed [Byte.x7b; Byte.x7d]
              (Some [Byte.x00; Byte.x00; Byte.x00; Byte.x02; Byte.x7b; Byte.x7d])
  /\ _handle_client (fun p => Some p) (fun _ => true)
       [Data [Byte.x00; Byte.x00; Byte.x00; Byte.x05; Byte.x7b]]
     = Dropped.
Proof.
  split.
  - apply (proj1 (framed_request_complete_or_dropped (fun p => Some p) (fun _ => true) _)).
    vm_compute. repeat split; try discriminate; lia.
  - apply (proj2 (proj2 (proj2 (proj2
             (framed_request_complete_or_dropped (fun p => Some p) (fun _ => true) _))))).
    vm_compute. reflexivity.
Defined.

Lemma unknown_kind_witness :
  exists w2 evs,
    create_node "bogus" None None (session (Ret atomic_defs))
    = (Exn (mk_exn ValueError (unknown_definition_msg "bogus")), w2)
    /\ w_trace w2 = w_trace (session (Ret atomic_defs)) ++ evs
    /\ Forall is_query evs.
Proof.
  eapply (proj1 unknown_kind_is_rejected_before_creation).
  - vm_compute. reflexivity.
  - vm_compute. reflexivity.
  - by_decision.
Defined.

(** The claim C1 as stated fails: with an empty list of node definitions
    the batch builder asks the host for a node of a kind that is not in the
    list, and so does [create_node] when listing the definitions raises. *)
Lemma unknown_kind_counterexample :
  let run := create_batch_graph "g" 0 None [plain_spec "bogus" None] []
               (PInt 11) true (session (Ret [])) in
  ("bogus" ∉ ([] : list string))
  /\ existsb (is_newNode_of "bogus") (w_trace (snd run)) = true
  /\ existsb (is_newNode_of "bogus")
       (w_trace (snd (create_node "bogus" None None
                        (session (Exn (no_such "definitions")))))) = true.
Proof.
  split_and!; [by_decision | vm_compute; reflexivity | vm_compute; reflexivity].
Qed.

Lemma bare_integer_witness :
  param_sd_value ∅ ∅ "count" (PDict [("value", PInt 7); ("type", PStr "int")])
  = Ret (SDValueInt 7).
Proof.
  apply (proj1 (proj2 (proj2 (proj2 (proj2 (proj2 bare_integer_infers_float)))))).
  left. reflexivity.
Defined.

(** The claim C2 as stated fails: a bare 7 given for a property whose own
    type is [int] is boxed as an int with no envelope, and an envelope of
    type int given for a float property is boxed as a float. *)
Lemma bare_integer_counterexample :
  last (w_trace (snd (_set_node_params 100%N [("count", PInt 7)] three_nodes)))
  = Some (ev (node_setInputPropertyValueFromId 100%N "count" (SDValueInt 7)))
  /\ last (w_trace (snd (_set_node_params 100%N
                           [("opacity", PDict [("value", PInt 7); ("type", PStr "int")])]
                           three_nodes)))
     = Some (ev (node_setInputPropertyValueFromId 100%N "opacity" (SDValueFloat 7))).
Proof. split; vm_compute; reflexivity. Qed.

Lemma safe_connect_witness :
  exists w',
    _safe_connect 11%N 100%N "bogus" 101%N "input1" three_nodes
    = (Exn (mk_exn ValueError
              "Output port 'bogus' not found on node '100'. Available: ['extra', 'unique_filter_output']"),
       w').
Proof.
  destruct (safe_connect_checks_live_ports 11%N 100%N "bogus" 101%N "input1" three_nodes
              ({["extra"]} ∪ ({["unique_filter_output"]} ∪ ∅))
              (snd (live_ids 100%N Output (fun _ => true) three_nodes))
              ({["input1"]} ∪ ∅)
              (snd (live_ids 101%N Input not_system
                      (snd (live_ids 100%N Output (fun _ => true) three_nodes)))))
    as [Hreject _].
  - vm_compute. reflexivity.
  - vm_compute. reflexivity.
  - destruct Hreject as (e & w' & Heq & _ & He); [by_decision | by_decision |].
    exists w'. rewrite Heq. f_equal. f_equal. rewrite He. vm_compute. reflexivity.
Defined.

(** The claim C3 as stated fails: the output kind has a static entry with no
    output port, yet a connection from an output node is not rejected by
    validation but handed to the host; and a port that the static entry of
    the blend kind does not list is accepted when the live node declares
    it. *)
Lemma safe_connect_counterexample :
  (exists ps, static_ports "sbs::compositing::output" = Some ps
              /\ "unique_filter_output" ∉ outputs ps)
  /\ existsb is_connect
       (w_trace (snd (_safe_connect 11%N 102%N "unique_filter_output" 101%N "input1"
                        three_nodes))) = true
  /\ (exists ps, static_ports "sbs::compositing::blend" = Some ps
                 /\ "extra" ∉ outputs ps)
  /\ fst (_safe_connect 11%N 100%N "extra" 101%N "input1" three_nodes) = Ret true.
Proof.
  split_and!.
  - eexists. split; [reflexivity | by_decision].
  - vm_compute. reflexivity.
  - eexists. split; [reflexivity | by_decision].
  - vm_compute. reflexivity.
Qed.

Lemma alias_collision_witness :
  exists r w' k,
    create_batch_graph "g" 0 None
      [plain_spec "sbs::compositing::blend" (Some "a");
       plain_spec "sbs::compositing::uniform" (Some "a")]
      [] (PInt 11) false (session (Ret atomic_defs)) = (Ret r, w')
    /\ (1 <= k)%nat
    /\ node_map r !! "a" = Some "100"
    /\ node_map r !! ("a" +:+ "_" +:+ pretty k) = Some "101"
    /\ nodes_failed r = 0%nat.
Proof.
  set (s1 := plain_spec "sbs::compositing::blend" (Some "a")).
  set (s2 := plain_spec "sbs::compositing::uniform" (Some "a")).
  set (w := session (Ret atomic_defs)).
  set (w0 := snd (batch_graph_setup "g" 0 None (PInt 11) w)).
  set (att1 := spec_attempt batch_unknown_msg batch_none_msg 12%N atomic_defs s1 w0).
  set (step1 := node_step true batch_unknown_msg batch_none_msg 12%N atomic_defs "a"
                  empty_state s1 w0).
  set (st1 := match fst step1 with Ret st => st | Exn _ => empty_state end).
  set (att2 := spec_attempt batch_unknown_msg batch_none_msg 12%N atomic_defs s2
                 (snd step1)).
  destruct (alias_collision_keeps_both_nodes "g" 0 None (PInt 11) false []
              [] s1 [] s2 [] "a" w 12%N atomic_defs w0 empty_state w0
              100%N "100" (snd att1) st1 (snd step1) st1 (snd step1)
              101%N "101" (snd att2))
    as (r & w' & a1 & k & Hrun & Hk & _ & _ & Hfree & Hm1 & Hm2 & _ & _ & Hf).
  - reflexivity.
  - reflexivity.
  - vm_compute. reflexivity.
  - reflexivity.
  - vm_compute. reflexivity.
  - vm_compute. reflexivity.
  - reflexivity.
  - vm_compute. reflexivity.
  - intros h. eexists _, _. reflexivity.
  - exists r, w', k. rewrite (Hfree eq_refl) in Hm1.
    split_and!; [exact Hrun | exact Hk | exact Hm1 | exact Hm2 |].
    simpl in Hf. lia.
Defined.

Lemma unresolved_alias_witness :
  exists r w',
    create_batch_graph "g" 0 None
      [plain_spec "sbs::compositing::blend" (Some "a");
       plain_spec "sbs::compositing::levels" (Some "b")]
      [wire "a" "zz"; wire "a" "b"] (PInt 11) false (session (Ret atomic_defs))
    = (Ret r, w')
    /\ (connections_ok r + connections_failed r = 2)%nat
    /\ (exists msg, connections_report r !! 0%nat
                    = Some (ConnUnresolved msg (wire "a" "zz")))
    /\ connections_report r !! 1%nat = Some (ConnOk "a" "b").
Proof.
  set (nodes := [plain_spec "sbs::compositing::blend" (Some "a");
                 plain_spec "sbs::compositing::levels" (Some "b")]).
  set (conns := [wire "a" "zz"; wire "a" "b"]).
  set (w := session (Ret atomic_defs)).
  destruct (proj1 unresolved_alias_fails_one_connection "g" 0%Z None nodes conns
              (PInt 11) false w 12%N atomic_defs
              (snd (batch_graph_setup "g" 0 None (PInt 11) w)))
    as (st & w1 & r & w' & Hnodes & Hrun & _ & Hrep & _ & Hsum & _).
  - vm_compute. reflexivity.
  - intros h. eexists _, _. reflexivity.
  - exists r, w'. split; [exact Hrun|]. split; [exact Hsum|].
    assert (Hr : fst (create_batch_graph "g" 0 None nodes conns (PInt 11) false w)
                 = Ret r) by (by rewrite Hrun).
    assert (Hlist : match fst (create_batch_graph "g" 0 None nodes conns (PInt 11)
                                 false w) with
                    | Ret r0 => connections_report r0
                    | Exn _ => []
                    end
                    = [ConnUnresolved "to 'zz' not found" (wire "a" "zz");
                       ConnOk "a" "b"]) by (vm_compute; reflexivity).
    rewrite Hr in Hlist. rewrite Hlist. split; [by eexists | reflexivity].
Defined.

Lemma resolve_lib_url_witness :
  let w1 := snd (_resolve_lib_url "WOOD" (session (Ret atomic_defs))) in
  w_cache w1 = <["wood_planks" := library_url]> (<["wood" := library_url]> ∅)
  /\ _resolve_lib_url "WOOD" w1 = (Ret (Some library_url), w1).
Proof.
  intros w1.
  destruct (resolve_lib_url_is_cached "WOOD" (session (Ret atomic_defs))
              library_url w1) as (Hc & Hagain & _ & Hmiss & _).
  - vm_compute. reflexivity.
  - split; [|exact Hagain].
    destruct (Hmiss eq_refl) as (rid & _ & Hcache).
    vm_compute. reflexivity.
Defined.

(** The claim C9 as stated fails: on a host whose library lists a graph
    [blur_hq_grayscale] before a graph [blur_hq], the keyword [blur_hq]
    resolves to the URL of the first; listing the library then stores the
    URL of the second under the same key, and resolving the keyword again
    in the same session returns that other URL. *)
Lemma resolve_lib_url_counterexample :
  fst (SampleLibrary.resolve_list_resolve "blur_hq" SampleLibrary.shelf_session)
  = Ret (Some "pkg:///blur_hq_grayscale", Some "pkg:///blur_hq")
  /\ "pkg:///blur_hq_grayscale" <> "pkg:///blur_hq".
Proof. split; [vm_compute; reflexivity | discriminate]. Qed.

Lemma set_node_params_witness :
  exists results w',
    _set_node_params 100%N [("$outputsize", PList [PInt 11; PInt 11]); ("count", PInt 7)]
      three_nodes = (Ret results, w')
    /\ results !! "$outputsize" = Some "skipped_system".
Proof.
  destruct (set_node_params_skips_system 100%N
              [("$outputsize", PList [PInt 11; PInt 11]); ("count", PInt 7)] three_nodes)
    as (results & imap & amap & evs & w' & Heq & _ & _ & Hsys).
  exists results, w'. split; [exact Heq|].
  apply Hsys; [reflexivity|]. apply list_elem_of_here.
Defined.

End Examples.


(** ** Further properties *)

Module MoreTransportFacts.

Import Transport TransportFacts.

(** [_recv_exact]: when the socket delivers at least [n] bytes, the result
    is the first [n] of them, however they are cut into chunks, and what
    follows stays readable. *)
Theorem recv_exact_returns_first_bytes (sock : socket) (n : nat) :
  (n <= length (delivered sock))%nat ->
  exists sock',
    _recv_exact sock n = (Ok (Some (firstn n (delivered sock))), sock')
    /\ delivered sock' = skipn n (delivered sock).
Proof. apply recv_exact_enough. Qed.

Lemma recv_exact_returns_first_bytes_witness :
  exists sock',
    _recv_exact [Data [Byte.x01]; Data [Byte.x02; Byte.x03]; Data [Byte.x04]] 3
    = (Ok (Some [Byte.x01; Byte.x02; Byte.x03]), sock')
    /\ delivered sock' = [Byte.x04].
Proof.
  apply (recv_exact_returns_first_bytes
           [Data [Byte.x01]; Data [Byte.x02; Byte.x03]; Data [Byte.x04]] 3).
  simpl. lia.
Defined.

(** [_recv_exact]: when fewer than [n] bytes arrive before the peer closes
    or the socket stalls, the result is [None] or a timeout, never a short
    buffer. *)
Theorem recv_exact_never_short (sock : socket) (n : nat) r sock' :
  (length (delivered sock) < n)%nat ->
  _recv_exact sock n = (r, sock') ->
  r = Ok None \/ r = Raise socket_timeout.
Proof. apply recv_exact_short. Qed.

Lemma recv_exact_never_short_witness :
  fst (_recv_exact [Data [Byte.x01]; Stall] 2) = Ok None
  \/ fst (_recv_exact [Data [Byte.x01]; Stall] 2) = Raise socket_timeout.
Proof.
  apply (recv_exact_never_short [Data [Byte.x01]; Stall] 2 _
           (snd (_recv_exact [Data [Byte.x01]; Stall] 2))).
  - simpl. lia.
  - reflexivity.
Defined.

Lemma byte_of_val (x : Z) :
  (0 <= x < 256)%Z ->
  byte_val (match Byte.of_N (Z.to_N x) with Some b => b | None => Byte.x00 end) = x.
Proof.
  intros Hx. unfold byte_val.
  destruct (Byte.of_N (Z.to_N x)) as [b|] eqn:Hb.
  - apply Byte.to_of_N in Hb. rewrite Hb. lia.
  - apply Byte.of_N_None_iff in Hb. lia.
Qed.

Lemma unpack_pack (n : Z) : (0 <= n < 2 ^ 32)%Z -> unpack_be (pack_be n) = n.
Proof.
  intros Hn. unfold pack_be, unpack_be. cbn [map fold_left].
  rewrite !byte_of_val by (apply Z.mod_pos_bound; lia).
  change (256 ^ 3)%Z with 16777216%Z. change (256 ^ 2)%Z with 65536%Z.
  change (256 ^ 1)%Z with 256%Z. change (256 ^ 0)%Z with 1%Z.
  change (2 ^ 32)%Z with 4294967296%Z in Hn.
  Z.to_euclidean_division_equations. lia.
Qed.

Lemma pack_be_length n : length (pack_be n) = 4%nat.
Proof. reflexivity. Qed.

(** Round trip of the framing: whatever [_send_framed] writes for a
    non-empty message of at most 100 MiB, [_recv_framed] reads back as that
    message, however the bytes are cut into chunks and whatever follows. *)
Theorem send_then_recv_framed (data more : bytes) (sock : socket) :
  (0 < length data)%nat ->
  (Z.of_nat (length data) <= MAX_MSG_SIZE)%Z ->
  delivered sock = _send_framed data ++ more ->
  exists sock', _recv_framed sock = (Ok (Some data), sock').
Proof.
  intros Hpos Hmax Hd.
  assert (Hdecl : declared sock = Z.of_nat (length data)).
  { unfold declared. rewrite Hd. unfold _send_framed. rewrite <- app_assoc.
    rewrite firstn_app. rewrite pack_be_length. change (HEADER_SIZE - 4)%nat with 0%nat.
    rewrite firstn_O, app_nil_r. change HEADER_SIZE with (length (pack_be (Z.of_nat (length data)))).
    rewrite firstn_all. apply unpack_pack.
    unfold MAX_MSG_SIZE in Hmax. lia. }
  assert (Hlen : length (delivered sock) = (4 + length data + length more)%nat).
  { rewrite Hd. unfold _send_framed. rewrite !length_app, pack_be_length. lia. }
  destruct (_recv_framed_complete sock) as (sock' & Heq).
  - unfold HEADER_SIZE. lia.
  - lia.
  - unfold HEADER_SIZE. lia.
  - exists sock'. rewrite Heq. do 3 f_equal.
    rewrite Hdecl, Nat2Z.id, Hd. unfold _send_framed. rewrite <- app_assoc.
    change HEADER_SIZE with (length (pack_be (Z.of_nat (length data)))).
    rewrite skipn_app, skipn_all, Nat.sub_diag. cbn [skipn app].
    rewrite skipn_O, firstn_app, firstn_all, Nat.sub_diag, firstn_O. apply app_nil_r.
Qed.

Lemma send_then_recv_framed_witness :
  exists sock',
    _recv_framed [Data [Byte.x00; Byte.x00]; Data [Byte.x00; Byte.x02; Byte.x7b];
                  Data [Byte.x7d; Byte.x0a]]
    = (Ok (Some [Byte.x7b; Byte.x7d]), sock').
Proof.
  apply (send_then_recv_framed [Byte.x7b; Byte.x7d] [Byte.x0a]).
  - simpl. lia.
  - vm_compute. discriminate.
  - reflexivity.
Defined.

End MoreTransportFacts.

Module MoreValueFacts.

Import Coercion Json Plugin Handlers CoercionFacts.

Lemma sub_non_word_word (s : string) : all_chars is_word_char (sub_non_word s) = true.
Proof.
  induction s as [|c s IH]; [done|]. cbn [sub_non_word all_chars].
  rewrite IH, andb_true_r. by destruct (is_word_char c) eqn:E.
Qed.

Lemma sub_non_word_id (s : string) :
  all_chars is_word_char s = true -> sub_non_word s = s.
Proof.
  induction s as [|c s IH]; [done|]. cbn [sub_non_word all_chars].
  intros [Hc Hs]%andb_true_iff. by rewrite Hc, IH.
Qed.

Lemma alpha_is_word (c : ascii) : is_alpha c = true -> is_word_char c = true.
Proof. unfold is_word_char. by intros ->. Qed.

(** [_sanitize_identifier]: the result is always a letter followed by
    letters, digits and underscores, whatever the name given (the empty
    name included). *)
Theorem sanitize_identifier_is_identifier (name : string) :
  is_identifier (_sanitize_identifier name) = true.
Proof.
  unfold _sanitize_identifier. destruct name as [|c0 rest0]; [reflexivity|].
  pose proof (sub_non_word_word (String c0 rest0)) as Hw.
  destruct (sub_non_word (String c0 rest0)) as [|c rest] eqn:Hs; [reflexivity|].
  cbn [all_chars] in Hw. apply andb_true_iff in Hw as [Hc Hrest].
  destruct (is_alpha c) eqn:Ha.
  - cbn [is_identifier]. by rewrite Ha, Hrest.
  - change ("G_" +:+ String c rest) with (String "G" (String "_" (String c rest))).
    cbn [is_identifier all_chars]. rewrite Hc, Hrest. reflexivity.
Qed.

(** [_sanitize_identifier] leaves a name that is already an identifier as it
    is, so sanitizing twice is sanitizing once. *)
Theorem sanitize_identifier_idempotent (name : string) :
  (is_identifier name = true -> _sanitize_identifier name = name)
  /\ _sanitize_identifier (_sanitize_identifier name) = _sanitize_identifier name.
Proof.
  assert (Hid : forall s, is_identifier s = true -> _sanitize_identifier s = s).
  { intros [|c rest]; [discriminate|]. cbn [is_identifier].
    intros [Ha Hrest]%andb_true_iff. unfold _sanitize_identifier.
    rewrite sub_non_word_id.
    - by rewrite Ha.
    - cbn [all_chars]. by rewrite (alpha_is_word _ Ha), Hrest. }
  split; [apply Hid|]. apply Hid, sanitize_identifier_is_identifier.
Qed.

Lemma sanitize_identifier_idempotent_witness :
  _sanitize_identifier "Rock_01" = "Rock_01".
Proof.
  apply (proj1 (sanitize_identifier_idempotent "Rock_01")). reflexivity.
Defined.

Lemma infer_type_cases (v : pyval) :
  _infer_type v = "bool" \/ _infer_type v = "float" \/ _infer_type v = "string"
  \/ (_infer_type v = "float2" /\ is_sequence v = true)
  \/ (_infer_type v = "float3" /\ is_sequence v = true)
  \/ (_infer_type v = "float4" /\ is_sequence v = true).
Proof.
  destruct v as [| | | | |items| |]; simpl; auto.
  destruct items as [|? [|? [|? [|? [|? ?]]]]]; simpl; auto 10.
Qed.

(** What [_coerce_type] makes of an inferred type is always a lower-case
    type name that [_make_sd_value] knows, whatever the value and the
    property's type id: a parameter given without an envelope never fails
    with "Unknown value_type". *)
Theorem coerced_inferred_type_is_known (value : pyval) (sd_type_id : string) :
  exists t, _coerce_type (PStr (_infer_type value)) value sd_type_id = PStr t
            /\ t ∈ value_types /\ lower t = t.
Proof.
  assert (Hk : forall t, In t value_types -> lower t = t).
  { intros t Ht. simpl in Ht.
    repeat (destruct Ht as [<-|Ht]; [reflexivity|]). done. }
  assert (Hin : forall t, In t value_types ->
                exists t', PStr t = PStr t' /\ t' ∈ value_types /\ lower t' = t').
  { intros t Ht. exists t. split_and!; [done | by apply list_elem_of_In | by apply Hk]. }
  assert (Hinf : In (_infer_type value) value_types).
  { destruct (infer_type_cases value) as [E|[E|[E|[[E _]|[[E _]|[E _]]]]]];
      rewrite E; simpl; auto 15. }
  unfold _coerce_type.
  destruct (String.eqb sd_type_id ""); [by apply Hin|].
  destruct (exact_primitive (lower sd_type_id)) as [p|] eqn:Hp.
  { apply Hin. unfold exact_primitive in Hp.
    repeat match type of Hp with
           | (if ?b then _ else _) = _ => destruct b
           end; try discriminate; injection Hp as <-; simpl; auto 15. }
  repeat match goal with
         | |- context [if ?b then _ else _] => destruct b
         end; try (by apply Hin); apply Hin; simpl; auto 15.
Qed.

(** Coercing twice against the same property type changes nothing more. *)
Theorem coerce_type_idempotent (inferred value : pyval) (sd_type_id : string) :
  _coerce_type (_coerce_type inferred value sd_type_id) value sd_type_id
  = _coerce_type inferred value sd_type_id.
Proof.
  unfold _coerce_type.
  destruct (String.eqb sd_type_id ""); [done|].
  destruct (exact_primitive (lower sd_type_id)) as [p|]; [done|].
  destruct (startswith (lower sd_type_id) "sbs::" || str_contains "::" (lower sd_type_id)).
  { destruct (tag_is inferred "float" && is_plain_number value) eqn:E; [done|].
    by rewrite E. }
  destruct (str_contains "int" (lower sd_type_id)
            && negb (str_contains "float" (lower sd_type_id))); [|done].
  destruct (tag_is inferred "float") eqn:E1; [done|].
  destruct (tag_is inferred "float4" && is_sequence value) eqn:E4; [done|].
  destruct (tag_is inferred "float2" && is_sequence value) eqn:E2; [done|].
  by rewrite E1, E4, E2.
Qed.

End MoreValueFacts.

Module MoreJsonFacts.

Import Json.

Section Encoder.

Variable str_of : pyval -> string.
Variable float_repr : float -> string.
Variable encode_str : string -> string.

(** [json.dumps(response, default=_json_safe)] always produces a text: an
    object the encoder cannot serialize is replaced by its [str()], at any
    depth of lists and dicts. *)
Theorem dumps_response_never_fails (response : pyval) :
  is_Some (dumps_response str_of float_repr encode_str response).
Proof.
  unfold dumps_response. revert response.
  fix IH 1. intros [|b|n|f|s|items|entries|o].
  - by eexists.
  - destruct b; by eexists.
  - by eexists.
  - by eexists.
  - by eexists.
  - cbn [dumps].
    assert (Hgo : is_Some
             ((fix go (l : list pyval) : option (list string) :=
                 match l with
                 | [] => Some []
                 | x :: rest =>
                     match dumps float_repr encode_str (_json_safe str_of) x, go rest with
                     | Some sx, Some srest => Some (sx :: srest)
                     | _, _ => None
                     end
                 end) items)).
    { induction items as [|x rest IHl]; [by eexists|].
      destruct (IH x) as [sx Hx]. destruct IHl as [sr Hr].
      rewrite Hx, Hr. by eexists. }
    destruct Hgo as [parts ->]. by eexists.
  - cbn [dumps].
    assert (Hgo : is_Some
             ((fix go (l : list (string * pyval)) : option (list string) :=
                 match l with
                 | [] => Some []
                 | (k, x) :: rest =>
                     match dumps float_repr encode_str (_json_safe str_of) x, go rest with
                     | Some sx, Some srest =>
                         Some ((encode_str k +:+ ": " +:+ sx) :: srest)
                     | _, _ => None
                     end
                 end) entries)).
    { induction entries as [|[k x] rest IHl]; [by eexists|].
      destruct (IH x) as [sx Hx]. destruct IHl as [sr Hr].
      rewrite Hx, Hr. by eexists. }
    destruct Hgo as [parts ->]. by eexists.
  - cbn [dumps]. by eexists.
Qed.

End Encoder.

End MoreJsonFacts.

Module MorePluginFacts.

Import Coercion Plugin Handlers PluginFacts.

Section WithHost.

Context `{Host} `{PyBuiltins}.

Lemma rbind_ret_inv {A B} (r : result A) (k : A -> result B) b :
  rbind r k = Ret b -> exists a, r = Ret a /\ k a = Ret b.
Proof. destruct r as [a|e]; [eauto | discriminate]. Qed.

(** [_make_sd_value]: when it returns a box, the tag lower-cased is one of
    the twelve known type names and the box is of that type
    (["colorrgba"] giving a color box). *)
Theorem make_sd_value_box_matches_tag (value_type : string) (value : pyval) (b : sdvalue) :
  _make_sd_value (PStr value_type) value = Ret b ->
  lower value_type ∈ value_types
  /\ sd_kind b = (if String.eqb (lower value_type) "colorrgba" then "color"
                  else lower value_type).
Proof.
  unfold _make_sd_value.
  repeat match goal with
         | |- context [String.eqb (lower value_type) ?s] =>
             destruct (String.eqb_spec (lower value_type) s) as [->|?]
         end; cbn [orb];
    intros Hb;
    repeat match type of Hb with
           | rbind _ _ = Ret _ =>
               apply rbind_ret_inv in Hb as (? & _ & Hb); cbv beta in Hb
           end;
    try discriminate;
    try (injection Hb as <-; split; [(apply list_elem_of_In; simpl; auto 15) | reflexivity]).
Qed.

(** *** Library resolver *)

Lemma scan_children_miss key children : forall w r w',
  scan_children key children w = (r, w') ->
  (exists url, r = Ret (Some url)) \/ (r = Ret None /\ w_cache w' = w_cache w).
Proof.
  induction children as [|res rest IH]; intros w r w'; cbn [scan_children].
  { intros [= <- <-]. by right. }
  unfold bind at 1, try_except at 1, bind at 1, hostcall at 1.
  destruct (host_step string (res_getClassName res) (w_host w)) as [[cname|e] h1].
  2:{ cbn. intros Hrest. apply IH in Hrest as [?|[-> Hc]]; [by left|]. by right. }
  destruct (negb (str_contains "SDSBSCompGraph" cname)).
  { cbn. intros Hrest. apply IH in Hrest as [?|[-> Hc]]; [by left|]. by right. }
  unfold bind at 1, hostcall at 1. cbn [w_host].
  destruct (host_step string (res_getIdentifier res) h1) as [[rid|e] h2].
  2:{ cbn. intros Hrest. apply IH in Hrest as [?|[-> Hc]]; [by left|]. by right. }
  destruct (str_contains key (lower rid)).
  2:{ cbn. intros Hrest. apply IH in Hrest as [?|[-> Hc]]; [by left|]. by right. }
  unfold bind at 1, try_except at 1, hostcall at 1. cbn [w_host].
  destruct (host_step string (res_getUrl res) h2) as [[url|e] h3].
  - destruct (negb (String.eqb url "")).
    + cbn. intros [= <- <-]. left. by eexists.
    + cbn. intros Hrest. apply IH in Hrest as [?|[-> Hc]]; [by left|]. by right.
  - cbn. intros Hrest. apply IH in Hrest as [?|[-> Hc]]; [by left|]. by right.
Qed.

Lemma scan_modes_miss key pkg modes : forall w r w',
  scan_modes key pkg modes w = (r, w') ->
  (exists url, r = Ret (Some url)) \/ (r = Ret None /\ w_cache w' = w_cache w).
Proof.
  induction modes as [|recursive rest IH]; intros w r w'; cbn [scan_modes].
  { intros [= <- <-]. by right. }
  unfold bind at 1, try_except at 1, bind at 1, hostcall at 1.
  destruct (host_step (list resource) (pkg_getChildrenResources pkg recursive) (w_host w))
    as [[children|e] h1].
  2:{ cbn. intros Hrest. apply IH in Hrest as [?|[-> Hc]]; [by left|]. by right. }
  destruct children as [|c cs].
  { cbn. intros Hrest. apply IH in Hrest as [?|[-> Hc]]; [by left|]. by right. }
  unfold bind at 1.
  match goal with
  | |- context [scan_children key (c :: cs) ?w0] =>
      destruct (scan_children key (c :: cs) w0) as [rc wc] eqn:Hsc
  end.
  apply scan_children_miss in Hsc as [[url ->]|[-> Hc]].
  - cbn. intros [= <- <-]. left. by eexists.
  - cbn. intros [= <- <-]. right. by split.
Qed.

Lemma scan_packages_miss key pkgs : forall w r w',
  scan_packages key pkgs w = (r, w') ->
  (exists url, r = Ret (Some url)) \/ (r = Ret None /\ w_cache w' = w_cache w).
Proof.
  induction pkgs as [|pkg rest IH]; intros w r w'; cbn [scan_packages].
  { intros [= <- <-]. by right. }
  unfold bind at 1, try_except at 1, bind at 1, hostcall at 1.
  destruct (host_step string (pkg_getFilePath pkg) (w_host w)) as [[fp|e] h1].
  2:{ cbn. intros Hrest. apply IH in Hrest as [?|[-> Hc]]; [by left|]. by right. }
  destruct (String.eqb fp "").
  { cbn. intros Hrest. apply IH in Hrest as [?|[-> Hc]]; [by left|]. by right. }
  match goal with
  | |- context [scan_modes key pkg [true; false] ?w0] =>
      destruct (scan_modes key pkg [true; false] w0) as [rc wc] eqn:Hsc
  end.
  apply scan_modes_miss in Hsc as [[url ->]|[-> Hc]].
  - intros [= <- <-]. left. by eexists.
  - intros Hrest. apply IH in Hrest as [?|[-> Hc']]; [by left|].
    right. split; [done|]. by rewrite Hc'.
Qed.

(** [_resolve_lib_url]: a keyword that matches nothing returns [None] and
    leaves the cache exactly as it was (misses are not cached), and the
    only exception that can come out is the one [getPackages] raised: a
    package or resource that raises is skipped. *)
Theorem resolve_lib_url_miss_and_errors (keyword : string) (w : world) r w' :
  _resolve_lib_url keyword w = (r, w') ->
  (r = Ret None -> w_cache w' = w_cache w)
  /\ (forall e, r = Exn e ->
        w_cache w !! lower keyword = None
        /\ fst (host_step _ getPackages (w_host w)) = Exn e).
Proof.
  unfold _resolve_lib_url, bind at 1, get_cache.
  destruct (w_cache w !! lower keyword) as [u|] eqn:Hc.
  { intros [= <- <-]. split; [done | discriminate]. }
  unfold bind, hostcall.
  destruct (host_step (list package) getPackages (w_host w)) as [[pkgs|e] h1] eqn:Hp.
  - intros Hscan. apply scan_packages_miss in Hscan as [[url ->]|[-> Hcache]].
    + split; discriminate.
    + split; [done | discriminate].
  - intros [= <- <-]. split; [discriminate|]. intros e' [= <-]. done.
Qed.

(** [_create_library_node]: a keyword that resolves to nothing raises the
    [ValueError] that points to [get_library_nodes], in the state the
    resolver left, so without any creation call. *)
Theorem create_library_node_not_found g keyword w w1 :
  _resolve_lib_url keyword w = (Ret None, w1) ->
  _create_library_node g keyword w
  = (Exn (mk_exn ValueError
            ("Library node '" +:+ keyword +:+ "' not found. "
             +:+ "Use get_library_nodes(filter_text='" +:+ keyword +:+ "') to verify.")),
     w1)
  /\ exists evs, w_trace w1 = w_trace w ++ evs /\ Forall is_query evs.
Proof.
  intros Hres. split.
  - unfold _create_library_node, bind. by rewrite Hres.
  - by apply (_resolve_lib_url_reads keyword w (Ret None) w1).
Qed.

(** *** Connections *)

Lemma collect_ids_keep props keep : forall acc w ids w',
  collect_ids props keep acc w = (Ret ids, w') ->
  forall p, p ∈ ids -> p ∈ acc \/ keep p = true.
Proof.
  induction props as [|q rest IH]; intros acc w ids w'; cbn [collect_ids].
  { intros [= <- <-]. auto. }
  intros Hrun. apply bind_ret_inv in Hrun as (pid & w1 & _ & Hk).
  destruct pid as [pid|]; [|injection Hk as <- <-; auto].
  intros p Hp. destruct (IH _ _ _ _ Hk p Hp) as [Hin|Hkeep]; [|by right].
  destruct (keep pid) eqn:Hkp; [|by left].
  apply elem_of_union in Hin as [Hs|Ha]; [|by left].
  apply elem_of_singleton in Hs as ->. by right.
Qed.

Lemma live_inputs_exclude_system n w ids w' p :
  live_ids n Input not_system w = (Ret ids, w') ->
  p ∈ _SYSTEM_PARAMS -> p ∉ ids.
Proof.
  unfold live_ids. intros Hrun Hsys Hin.
  apply bind_ret_inv in Hrun as (props & w1 & _ & Hc).
  destruct (collect_ids_keep _ _ _ _ _ _ Hc p Hin) as [Hemp|Hk].
  - by apply not_elem_of_empty in Hemp.
  - unfold not_system in Hk. apply negb_true_iff, bool_decide_eq_false in Hk. done.
Qed.

(** [_safe_connect]: a system parameter is never a valid connection target.
    When the output port passes its check and the target declares at least
    one ordinary input, a [to_in] among the system parameters is rejected
    after reads only, even though the live node lists it. *)
Theorem safe_connect_rejects_system_input
    g from_node from_out to_node to_in w out_ids w1 in_ids w2 :
  live_ids from_node Output (fun _ => true) w = (Ret out_ids, w1) ->
  out_ids = ∅ \/ from_out ∈ out_ids ->
  live_ids to_node Input not_system w1 = (Ret in_ids, w2) ->
  in_ids <> ∅ ->
  to_in ∈ _SYSTEM_PARAMS ->
  exists e w' evs,
    _safe_connect g from_node from_out to_node to_in w = (Exn e, w')
    /\ w_trace w' = w_trace w ++ evs /\ Forall is_query evs.
Proof.
  intros Hout Hok Hin Hne Hsys.
  assert (Hnotin : to_in ∉ in_ids) by by eapply live_inputs_exclude_system.
  destruct (live_ids_reads _ _ _ _ _ _ Hout) as (e1 & Ht1 & Hq1).
  destruct (live_ids_reads _ _ _ _ _ _ Hin) as (e2 & Ht2 & Hq2).
  unfold _safe_connect, bind. rewrite Hout, Hin.
  assert (Hguard : negb (bool_decide (out_ids = ∅)) && negb (bool_decide (from_out ∈ out_ids))
                   = false).
  { destruct Hok as [->|Hm].
    - by rewrite bool_decide_eq_true_2.
    - rewrite (bool_decide_eq_true_2 (from_out ∈ out_ids)) by done.
      by rewrite andb_false_r. }
  rewrite Hguard.
  rewrite (bool_decide_eq_false_2 (in_ids = ∅)) by done.
  rewrite (bool_decide_eq_false_2 (to_in ∈ in_ids)) by done.
  cbn [negb andb]. unfold hostcall, throw.
  destruct (host_step string (node_getIdentifier to_node) (w_host w2)) as [[tid|e] h'];
    eexists _, _, (e1 ++ e2 ++ [ev (node_getIdentifier to_node)]);
    (split; [reflexivity|]); cbn [w_trace];
    (split; [by rewrite Ht2, Ht1, <- !app_assoc|]);
    rewrite !Forall_app; split_and!; try done; by constructor.
Qed.

(** [_safe_connect]: it returns only [True], and only after it has asked
    the host for the connection with exactly the ports given, as its last
    call; every call before that is a read. *)
Theorem safe_connect_success_called_host g from_node from_out to_node to_in w b w' :
  _safe_connect g from_node from_out to_node to_in w = (Ret b, w') ->
  b = true
  /\ exists evs,
       w_trace w' = w_trace w ++ evs
                    ++ [ev (node_newPropertyConnectionFromId from_node from_out
                                                             to_node to_in)]
       /\ Forall is_query evs.
Proof.
  unfold _safe_connect. intros Hrun.
  apply bind_ret_inv in Hrun as (out_ids & w1 & Hout & Hrun).
  apply bind_ret_inv in Hrun as (in_ids & w2 & Hin & Hrun).
  destruct (live_ids_reads _ _ _ _ _ _ Hout) as (e1 & Ht1 & Hq1).
  destruct (live_ids_reads _ _ _ _ _ _ Hin) as (e2 & Ht2 & Hq2).
  destruct (negb (bool_decide (out_ids = ∅)) && negb (bool_decide (from_out ∈ out_ids))).
  { apply bind_ret_inv in Hrun as (? & ? & _ & [=]). }
  destruct (negb (bool_decide (in_ids = ∅)) && negb (bool_decide (to_in ∈ in_ids))).
  { apply bind_ret_inv in Hrun as (? & ? & _ & [=]). }
  apply bind_ret_inv in Hrun as (conn & w3 & Hcall & Hrun).
  destruct conn as [c|].
  2:{ apply bind_ret_inv in Hrun as (? & ? & _ & Hrun).
      apply bind_ret_inv in Hrun as (? & ? & _ & [=]). }
  injection Hrun as <- <-. split; [done|].
  exists (e1 ++ e2).
  unfold hostcall in Hcall.
  destruct (host_step _ _ (w_host w2)) as [r h']. injection Hcall as _ <-.
  cbn [w_trace]. split; [by rewrite Ht2, Ht1, <- !app_assoc|].
  by apply Forall_app.
Qed.

(** *** Graph and package resolution *)

(** [_resolve_graph] with an explicit identifier only reads and never asks
    the UI for its current graph: there is no fall-back to the focused
    graph when the named one is missing. *)
Theorem resolve_graph_explicit_no_fallback (c : ascii) (rest : string) :
  emits (fun e => is_query e /\ is_getCurrentGraph e = false)
        (_resolve_graph (Some (String c rest))).
Proof.
  cbn [_resolve_graph].
  assert (Hfirst : forall test ress,
             (forall res, emits (fun e => is_query e /\ is_getCurrentGraph e = false)
                                (test res)) ->
             emits (fun e => is_query e /\ is_getCurrentGraph e = false)
                   (first_resource test ress)).
  { intros test ress Ht. induction ress as [|r l IH]; cbn [first_resource]; emits_auto. }
  assert (Hpk : forall test pkgs,
             (forall res, emits (fun e => is_query e /\ is_getCurrentGraph e = false)
                                (test res)) ->
             emits (fun e => is_query e /\ is_getCurrentGraph e = false)
                   (first_in_packages test pkgs)).
  { intros test pkgs Ht. induction pkgs as [|p l IH]; cbn [first_in_packages].
    - apply emits_ret.
    - apply emits_bind; [by apply emits_hostcall|]. intros ress.
      apply emits_bind; [by apply Hfirst|]. intros [g|]; [apply emits_ret | apply IH]. }
  apply emits_bind; [by apply emits_hostcall|]. intros pkgs.
  apply emits_bind.
  - apply Hpk. intros res. emits_auto.
  - intros [g|]; emits_auto.
Qed.

(** [_resolve_package] without a path: no package loaded, a negative index
    and an index past the end each raise their own [ValueError]; an index
    in range returns the package at that place of the list. *)
Theorem resolve_package_by_index (package_index : Z) (w : world) pkgs h' :
  host_step _ getUserPackages (w_host w) = (Ret pkgs, h') ->
  let w1 := {| w_host := h'; w_trace := w_trace w ++ [ev getUserPackages];
               w_cache := w_cache w |} in
  (pkgs = [] ->
   _resolve_package package_index None w
   = (Exn (mk_exn ValueError "No user packages loaded. Open a .sbs file first."), w1))
  /\ (pkgs <> [] -> (package_index < 0)%Z ->
      _resolve_package package_index None w
      = (Exn (mk_exn ValueError
                ("package_index must be >= 0 (got " +:+ pretty package_index +:+ ").")),
         w1))
  /\ (pkgs <> [] -> (Z.of_nat (length pkgs) <= package_index)%Z ->
      _resolve_package package_index None w
      = (Exn (mk_exn ValueError
                ("Package index " +:+ pretty package_index +:+ " out of range (have "
                 +:+ pretty (length pkgs) +:+ ").")), w1))
  /\ (forall pkg, (0 <= package_index)%Z ->
                  pkgs !! Z.to_nat package_index = Some pkg ->
                  _resolve_package package_index None w = (Ret pkg, w1)).
Proof.
  intros Hp w1. unfold _resolve_package, bind, hostcall. rewrite Hp. fold w1.
  split_and!.
  - by intros ->.
  - intros Hne Hneg. destruct pkgs as [|p l]; [done|].
    by rewrite (proj2 (Z.ltb_lt _ _) Hneg).
  - intros Hne Hbig. destruct pkgs as [|p l]; [done|].
    rewrite (proj2 (Z.ltb_ge _ _)) by lia.
    rewrite (proj2 (lookup_ge_None _ _)); [done|]. lia.
  - intros pkg Hnn Hl. destruct pkgs as [|p l]; [done|].
    rewrite (proj2 (Z.ltb_ge _ _)) by lia. by rewrite Hl.
Qed.

(** *** Aliases and the node loop *)

(** The alias the [while alias in alias_map] loop settles on is the first
    free name of the sequence [a], [a_1], [a_2], ...: it is not a key, every
    earlier name of the sequence is, and its index is at most the number
    of keys. *)
Theorem dedup_alias_first_free (amap : gmap string (node * string)) (orig : string) :
  exists k,
    (k <= size amap)%nat
    /\ dedup_alias amap orig = candidate orig k
    /\ amap !! candidate orig k = None
    /\ forall i, (i < k)%nat -> is_Some (amap !! candidate orig i).
Proof.
  destruct (dedup_alias_spec amap orig) as (k & Heq & Hfree & Hall).
  exists k. split_and!; [|done..].
  by apply (candidates_bound amap orig).
Qed.

Lemma node_step_tallies wd um nm g known orig st spec w st' w' :
  node_step wd um nm g known orig st spec w = (Ret st', w') ->
  tallies st ->
  tallies st'
  /\ (length (created st') + length (failed st')
      = S (length (created st) + length (failed st)))%nat.
Proof.
  intros Hstep (Hlen & Hnd & Hmap & Hkeys).
  destruct (node_step_cases _ _ _ _ _ _ _ _ _ _ _ Hstep)
    as [(n & nid & d & Ha & Hc & Hf) | (msg & Ha & Hc & Hf)].
  - pose proof (dedup_alias_fresh (alias_map st) orig) as Hfresh.
    unfold tallies. rewrite Ha, Hc, Hf.
    split; [|rewrite length_app; simpl; lia].
    split_and!.
    + rewrite length_app, map_size_insert_None by done. simpl. lia.
    + rewrite fmap_app. apply NoDup_app. split_and!; [done | | apply NoDup_singleton].
      intros a Hin1 Hin. apply list_elem_of_singleton in Hin as ->.
      apply list_elem_of_fmap in Hin1 as (e & Hea & He).
      rewrite Forall_forall in Hmap. specialize (Hmap e He).
      cbn [ce_alias] in Hea.
      rewrite <- Hea, lookup_fmap, Hfresh in Hmap. done.
    + apply Forall_app. split.
      * rewrite Forall_forall in Hmap |- *. intros e He.
        rewrite fmap_insert, lookup_insert_ne; [by apply Hmap|].
        intros Heq. specialize (Hmap e He).
        rewrite <- Heq, lookup_fmap, Hfresh in Hmap. done.
      * constructor; [|constructor]. cbn. by rewrite fmap_insert, lookup_insert_eq.
    + intros a Hin. rewrite fmap_app. apply elem_of_app.
      destruct (decide (a = dedup_alias (alias_map st) orig)) as [->|Hne].
      * right. cbn. apply list_elem_of_singleton. done.
      * left. apply Hkeys. by rewrite lookup_insert_ne in Hin.
  - unfold tallies. rewrite Ha, Hc, Hf.
    split; [done|]. rewrite length_app. simpl. lia.
Qed.

Lemma batch_nodes_tallies g known nodes : forall st w st' w',
  batch_nodes g known st nodes w = (Ret st', w') ->
  tallies st ->
  tallies st'
  /\ (length (created st') + length (failed st')
      = length (created st) + length (failed st) + length nodes)%nat.
Proof.
  induction nodes as [|spec rest IH]; intros st w st' w'; cbn [batch_nodes].
  - intros [= <- <-] Ht. split; [done | simpl; lia].
  - intros Hrun Ht. apply bind_ret_inv in Hrun as (st1 & w1 & Hstep & Hrest).
    destruct (node_step_tallies _ _ _ _ _ _ _ _ _ _ _ Hstep Ht) as [Ht1 Hc1].
    destruct (IH _ _ _ _ Hrest Ht1) as [Ht2 Hc2].
    split; [done | simpl; lia].
Qed.

(** [create_batch_graph]: the report adds up.  Every node spec is counted
    once, as created or as failed; the created entries carry pairwise
    different aliases; [node_map] has exactly those aliases as keys, each
    mapped to the identifier of its entry. *)
Theorem create_batch_graph_report_adds_up
    name idx path nodes conns size open w r w' :
  create_batch_graph name idx path nodes conns size open w = (Ret r, w') ->
  (nodes_created r + nodes_failed r = length nodes)%nat
  /\ nodes_created r = length (nodes_report r)
  /\ nodes_failed r = length (failed_nodes r)
  /\ NoDup (ce_alias <$> nodes_report r)
  /\ (forall a, is_Some (node_map r !! a) <-> a ∈ ce_alias <$> nodes_report r)
  /\ Forall (fun e => node_map r !! ce_alias e = Some (ce_node_id e)) (nodes_report r).
Proof.
  unfold create_batch_graph. intros Hrun.
  apply bind_ret_inv in Hrun as ([g known] & w5 & _ & Hrun).
  apply bind_ret_inv in Hrun as (st & w6 & Hnodes & Hrun).
  apply bind_ret_inv in Hrun as (rs & w7 & _ & Hrun).
  apply bind_ret_inv in Hrun as (u3 & w8 & _ & Hrun).
  apply bind_ret_inv in Hrun as (gid & w9 & _ & Hrun).
  injection Hrun as <- <-. cbn.
  destruct (batch_nodes_tallies _ _ _ _ _ _ _ Hnodes) as [(Hlen & Hnd & Hmap & Hkeys) Hc].
  { unfold tallies, empty_state. cbn. split_and!.
    - by rewrite map_size_empty.
    - constructor.
    - constructor.
    - intros a [x Hx]. by rewrite lookup_empty in Hx. }
  cbn in Hc. split_and!; [lia | done | done | done | | done].
  intros a. split.
  - intros Ha. apply Hkeys. rewrite lookup_fmap in Ha.
    by apply fmap_is_Some in Ha.
  - intros Ha. apply list_elem_of_fmap in Ha as (e & -> & He).
    rewrite Forall_forall in Hmap. rewrite (Hmap e He). by eexists.
Qed.

(** *** Single-node handlers *)

Lemma query_output_node_event lbl e : is_query e -> output_node_event lbl e.
Proof. destruct e as [R c]. unfold is_query, output_node_event. destruct c; simpl; done. Qed.

Lemma query_instance_node_event e : is_query e -> instance_node_event e.
Proof. destruct e as [R c]. unfold is_query, instance_node_event. destruct c; simpl; done. Qed.

(** [create_output_node]: besides reads it asks the host only for one kind
    of node, the output kind, for a move, and for the write of the
    annotation ["label"] with the label given, or with [usage] when no label
    is given.  The result repeats that label, and [label_set] is true only
    if that write was made. *)
Theorem create_output_node_calls (usage : string) (label : option string)
    (gid : option string) (pos : option (list pyval)) :
  emits (output_node_event (default usage label)) (create_output_node usage label gid pos)
  /\ forall w r w',
       create_output_node usage label gid pos w = (Ret r, w') ->
       on_label r = default usage label
       /\ (on_label_set r = true ->
           exists n, ev (node_setAnnotationPropertyValueFromId
                           n "label" (SDValueString (default usage label)))
                     ∈ w_trace w').
Proof.
  split.
  - unfold create_output_node.
    apply emits_bind.
    { eapply emits_weaken; [apply query_output_node_event | apply _resolve_graph_reads]. }
    intros g. apply emits_bind; [by apply emits_hostcall|]. intros [n|]; [|apply emits_throw].
    apply emits_bind.
    { destruct pos as [[|? [|? ?]]|]; try apply emits_ret.
      unfold set_position. emits_auto. }
    intros _. emits_auto.
  - unfold create_output_node. intros w r w' Hrun.
    apply bind_ret_inv in Hrun as (g & w1 & _ & Hrun).
    apply bind_ret_inv in Hrun as (n & w2 & _ & Hrun).
    destruct n as [n|]; [|discriminate].
    apply bind_ret_inv in Hrun as (u & w3 & _ & Hrun).
    apply bind_ret_inv in Hrun as (ls & w4 & Hls & Hrun).
    apply bind_ret_inv in Hrun as (nid & w5 & Hid & Hrun).
    injection Hrun as <- <-. cbn. split; [done|]. intros ->.
    exists n.
    assert (Hin4 : ev (node_setAnnotationPropertyValueFromId
                         n "label" (SDValueString (default usage label))) ∈ w_trace w4).
    { unfold try_except, bind, hostcall in Hls.
      destruct (host_step _ _ (w_host w3)) as [[[]|e] h4]; [|discriminate].
      injection Hls as <-. cbn. apply elem_of_app. right. by apply list_elem_of_singleton. }
    unfold hostcall in Hid. destruct (host_step _ _ (w_host w4)) as [r5 h5].
    injection Hid as _ <-. cbn. apply elem_of_app. by left.
Qed.

(** [create_instance_node]: besides reads it asks the host only for an
    instance node and for a move; it never creates an atomic node, writes a
    parameter or connects. *)
Theorem create_instance_node_calls (url : string) (gid : option string)
    (pos : option (list pyval)) :
  emits instance_node_event (create_instance_node url gid pos).
Proof.
  unfold create_instance_node.
  apply emits_bind.
  { eapply emits_weaken; [apply query_instance_node_event | apply _resolve_graph_reads]. }
  intros g. apply emits_bind; [by apply emits_hostcall|]. intros pkgs.
  apply emits_bind.
  { eapply emits_weaken; [apply query_instance_node_event | apply find_resource_reads]. }
  intros [r|]; [|apply emits_throw].
  apply emits_bind; [by apply emits_hostcall|]. intros [n|]; [|apply emits_throw].
  apply emits_bind.
  { destruct pos as [[|? [|? ?]]|]; try apply emits_ret.
    unfold set_position. emits_auto. }
  intros _. emits_auto.
Qed.

(** [create_instance_node]: when no loaded package has the URL, the handler
    raises the [ValueError] that names the URL, having made reads only: no
    node is created. *)
Theorem create_instance_node_missing_resource url gid pos w g w1 pkgs w2 w3 :
  _resolve_graph gid w = (Ret g, w1) ->
  hostcall getPackages w1 = (Ret pkgs, w2) ->
  find_resource url pkgs w2 = (Ret None, w3) ->
  create_instance_node url gid pos w
  = (Exn (mk_exn ValueError ("Resource '" +:+ url +:+ "' not found.")), w3)
  /\ exists evs, w_trace w3 = w_trace w ++ evs /\ Forall is_query evs.
Proof.
  intros Hg Hp Hf. split.
  - unfold create_instance_node, bind. by rewrite Hg, Hp, Hf.
  - destruct (_resolve_graph_reads gid _ _ _ Hg) as (e1 & Ht1 & Hq1).
    assert (Hq : emits is_query (hostcall getPackages)) by by apply emits_hostcall.
    destruct (Hq _ _ _ Hp) as (e2 & Ht2 & Hq2).
    destruct (find_resource_reads url pkgs _ _ _ Hf) as (e3 & Ht3 & Hq3).
    exists (e1 ++ e2 ++ e3). split.
    + by rewrite Ht3, Ht2, Ht1, <- !app_assoc.
    + rewrite !Forall_app. by split_and!.
Qed.

End WithHost.

(** *** The properties at work on the sample host *)

Import Sample.

Ltac by_decision := apply (bool_decide_unpack _); vm_compute; exact I.

Lemma make_sd_value_box_matches_tag_witness :
  lower "INT" ∈ value_types /\ sd_kind (SDValueInt 7) = "int".
Proof.
  apply (make_sd_value_box_matches_tag "INT" (PInt 7) (SDValueInt 7)).
  vm_compute. reflexivity.
Defined.

Lemma resolve_lib_url_miss_and_errors_witness :
  w_cache (snd (_resolve_lib_url "granite" (session (Ret atomic_defs))))
  = w_cache (session (Ret atomic_defs)).
Proof.
  apply (proj1 (resolve_lib_url_miss_and_errors "granite" (session (Ret atomic_defs))
                  (fst (_resolve_lib_url "granite" (session (Ret atomic_defs))))
                  (snd (_resolve_lib_url "granite" (session (Ret atomic_defs))))
                  (surjective_pairing _))).
  vm_compute. reflexivity.
Defined.

Lemma create_library_node_not_found_witness :
  exists e w1, _create_library_node 11%N "granite" (session (Ret atomic_defs)) = (Exn e, w1)
               /\ exn_cls e = ValueError.
Proof.
  destruct (create_library_node_not_found 11%N "granite" (session (Ret atomic_defs))
              (snd (_resolve_lib_url "granite" (session (Ret atomic_defs)))))
    as [Heq _].
  - vm_compute. reflexivity.
  - eexists _, _. split; [exact Heq | reflexivity].
Defined.

Lemma safe_connect_rejects_system_input_witness :
  exists e w',
    _safe_connect 11%N 100%N "unique_filter_output" 101%N "$outputsize" three_nodes
    = (Exn e, w').
Proof.
  destruct (safe_connect_rejects_system_input 11%N 100%N "unique_filter_output"
              101%N "$outputsize" three_nodes
              ({["extra"]} ∪ ({["unique_filter_output"]} ∪ ∅))
              (snd (live_ids 100%N Output (fun _ => true) three_nodes))
              ({["input1"]} ∪ ∅)
              (snd (live_ids 101%N Input not_system
                      (snd (live_ids 100%N Output (fun _ => true) three_nodes)))))
    as (e & w' & evs & Heq & _).
  - vm_compute. reflexivity.
  - right. by_decision.
  - vm_compute. reflexivity.
  - by_decision.
  - by_decision.
  - by exists e, w'.
Defined.

Lemma safe_connect_success_called_host_witness :
  last (w_trace (snd (_safe_connect 11%N 100%N "unique_filter_output" 101%N "input1"
                        three_nodes)))
  = Some (ev (node_newPropertyConnectionFromId 100%N "unique_filter_output"
                                               101%N "input1")).
Proof.
  destruct (safe_connect_success_called_host 11%N 100%N "unique_filter_output"
              101%N "input1" three_nodes true
              (snd (_safe_connect 11%N 100%N "unique_filter_output" 101%N "input1"
                      three_nodes)))
    as (_ & evs & Ht & _).
  - vm_compute. reflexivity.
  - rewrite Ht, !app_assoc. apply last_snoc.
Defined.

Lemma resolve_graph_explicit_no_fallback_witness :
  exists evs,
    w_trace (snd (_resolve_graph (Some "Graph_A") (session (Ret atomic_defs))))
    = w_trace (session (Ret atomic_defs)) ++ evs
    /\ Forall (fun e => is_query e /\ is_getCurrentGraph e = false) evs.
Proof.
  apply (resolve_graph_explicit_no_fallback "G" "raph_A" (session (Ret atomic_defs))
           (fst (_resolve_graph (Some "Graph_A") (session (Ret atomic_defs))))).
  apply surjective_pairing.
Defined.

Lemma resolve_package_by_index_witness :
  fst (_resolve_package 0 None (session (Ret atomic_defs))) = Ret 1%N
  /\ fst (_resolve_package 3 None (session (Ret atomic_defs)))
     = Exn (mk_exn ValueError "Package index 3 out of range (have 1).").
Proof.
  split.
  - rewrite (proj2 (proj2 (proj2
               (resolve_package_by_index 0 (session (Ret atomic_defs)) [1%N]
                  (w_host (session (Ret atomic_defs))) eq_refl))) 1%N);
      [reflexivity | lia | reflexivity].
  - rewrite (proj1 (proj2 (proj2
               (resolve_package_by_index 3 (session (Ret atomic_defs)) [1%N]
                  (w_host (session (Ret atomic_defs))) eq_refl))));
      [reflexivity | done | simpl; lia].
Defined.

Lemma create_batch_graph_report_adds_up_witness :
  exists r w',
    create_batch_graph "g" 0 None
      [plain_spec "sbs::compositing::blend" (Some "a");
       plain_spec "bogus" None;
       plain_spec "sbs::compositing::uniform" (Some "a")]
      [] (PInt 11) false (session (Ret atomic_defs)) = (Ret r, w')
    /\ (nodes_created r + nodes_failed r = 3)%nat
    /\ NoDup (ce_alias <$> nodes_report r).
Proof.
  set (run := create_batch_graph "g" 0 None
      [plain_spec "sbs::compositing::blend" (Some "a");
       plain_spec "bogus" None;
       plain_spec "sbs::compositing::uniform" (Some "a")]
      [] (PInt 11) false (session (Ret atomic_defs))).
  assert (Hrun : exists r, run = (Ret r, snd run)).
  { vm_compute. eexists. reflexivity. }
  destruct Hrun as [r Hrun]. exists r, (snd run). split; [exact Hrun|].
  destruct (create_batch_graph_report_adds_up "g" 0 None
              [plain_spec "sbs::compositing::blend" (Some "a");
               plain_spec "bogus" None;
               plain_spec "sbs::compositing::uniform" (Some "a")]
              [] (PInt 11) false (session (Ret atomic_defs)) r (snd run) Hrun)
    as (Hsum & _ & _ & Hnd & _).
  split; [exact Hsum | exact Hnd].
Defined.

Lemma create_output_node_calls_witness :
  exists evs,
    w_trace (snd (create_output_node "normal" None None None (session (Ret atomic_defs))))
    = w_trace (session (Ret atomic_defs)) ++ evs
    /\ Forall (output_node_event "normal") evs.
Proof.
  apply (proj1 (create_output_node_calls "normal" None None None)
           (session (Ret atomic_defs))
           (fst (create_output_node "normal" None None None (session (Ret atomic_defs))))).
  apply surjective_pairing.
Defined.

Lemma create_instance_node_calls_witness :
  exists evs,
    w_trace (snd (create_instance_node library_url None None (session (Ret atomic_defs))))
    = w_trace (session (Ret atomic_defs)) ++ evs
    /\ Forall instance_node_event evs.
Proof.
  apply (create_instance_node_calls library_url None None (session (Ret atomic_defs))
           (fst (create_instance_node library_url None None (session (Ret atomic_defs))))).
  apply surjective_pairing.
Defined.

Lemma create_instance_node_missing_resource_witness :
  fst (create_instance_node "pkg:///nothing" None None (session (Ret atomic_defs)))
  = Exn (mk_exn ValueError "Resource 'pkg:///nothing' not found.").
Proof.
  destruct (create_instance_node_missing_resource "pkg:///nothing" None None
              (session (Ret atomic_defs)) 11%N
              (snd (_resolve_graph None (session (Ret atomic_defs))))
              [1%N]
              (snd (hostcall getPackages
                      (snd (_resolve_graph None (session (Ret atomic_defs))))))
              (snd (find_resource "pkg:///nothing" [1%N]
                      (snd (hostcall getPackages
                              (snd (_resolve_graph None (session (Ret atomic_defs)))))))))
    as [Heq _].
  - vm_compute. reflexivity.
  - vm_compute. reflexivity.
  - vm_compute. reflexivity.
  - rewrite Heq. reflexivity.
Defined.

End MorePluginFacts.
